(** * RedNote-MCP: the resource-arbitration layer, embedded and verified

    The development follows the TypeScript sources:
    - [RedNoteTools] (the tools class: cache, rate limiter, retry, the public
      content operations, the comment extraction and [publishNote]);
    - [Cli] (the [getRedNoteTools] singleton coordinator of cli.ts);
    - [AuthManager] (the static browser slot of auth/authManager.ts).

    Conventions.  Times are milliseconds as read by [Date.now()], in [Z].
    JavaScript strings are [string]s whose characters stand for code units.
    An [async] function is cut at its [await]s: every piece between two
    suspension points runs atomically (one task at a time), which is the
    scheduling of the JavaScript event loop. *)

From stdpp Require Import gmap strings list pretty.
From Stdlib Require Import Ascii ZArith Lia.

Local Open Scope Z_scope.
#[local] Set Warnings "-register-all".

(** ** JavaScript values, exceptions and completions *)

Module Js.

(** A value of type [any]. *)
Inductive any : Type :=
| JsNull
| JsUndefined
| JsBool (b : bool)
| JsNumber (n : Z)
| JsString (s : string)
| JsArray (items : list any)
| JsObject (fields : list (string * any)).

(** [if (v)]: the truthiness test of the language. *)
Definition truthy (v : any) : bool :=
  match v with
  | JsNull | JsUndefined => false
  | JsBool b => b
  | JsNumber n => negb (n =? 0)
  | JsString s => negb (String.eqb s "")
  | JsArray _ | JsObject _ => true
  end.

(** A thrown value: an [Error] object with its [name] and [message]. *)
Record exn : Type := MkExn { ename : string; message : string }.

(** [new Error(msg)] *)
Definition Error (msg : string) : exn := MkExn "Error" msg.

(** How a call ends: it returns, or it throws. *)
Inductive completion (A : Type) : Type :=
| Return (a : A)
| Throw (e : exn).
Arguments Return {A} a.
Arguments Throw {A} e.

End Js.
Export Js.

(** ** tools/rednoteTools.ts *)

Module RedNoteTools.

(** *** Constants *)

Definition MIN_INTERVAL : Z := 10000.
Definition MAX_REQUESTS_PER_HOUR : Z := 20.
Definition CACHE_TTL : Z := 30 * 60 * 1000.

(** *** Content cache: [Map<string, { data, timestamp }>] *)

Record entry : Type := MkEntry { data : any; timestamp : Z }.

(** [getCachedContent(key)], with [now] the value of [Date.now()]. *)
Definition getCachedContent (contentCache : gmap string entry) (now : Z)
    (key : string) : any :=
  match contentCache !! key with
  | Some cached =>
      if now - timestamp cached <? CACHE_TTL then data cached else JsNull
  | None => JsNull
  end.

(** [setCachedContent(key, data)], with [now] the value of [Date.now()]. *)
Definition setCachedContent (contentCache : gmap string entry) (now : Z)
    (key : string) (d : any) : gmap string entry :=
  <[key := MkEntry d now]> contentCache.

(** A sequence of cache accesses, each with the clock reading it is made
    at; running it gives the cache afterwards and what the reads returned. *)
Inductive cache_op : Type :=
| CGet (key : string) (now : Z)
| CSet (key : string) (d : any) (now : Z).

Definition cache_step (st : gmap string entry * list any) (o : cache_op)
    : gmap string entry * list any :=
  match o with
  | CGet key now => (fst st, snd st ++ [getCachedContent (fst st) now key])
  | CSet key d now => (setCachedContent (fst st) now key d, snd st)
  end.

Definition cache_run (ops : list cache_op) (c : gmap string entry)
    : gmap string entry * list any :=
  foldl cache_step (c, []) ops.

Definition is_get (o : cache_op) : bool :=
  match o with CGet _ _ => true | CSet _ _ _ => false end.

(** *** Rate limiter: the static fields and [checkRateLimit] *)

Record limiter : Type := MkLimiter {
  lastRequestTime : Z;
  requestCount : Z;
  requestTimestamps : list Z
}.

Definition limiter0 : limiter := MkLimiter 0 0 [].

(** Where one call of [checkRateLimit] stands.  [SleepHourly] keeps the
    local [now] of the call, which the code reuses after the sleep. *)
Inductive task : Type :=
| Entry
| SleepHourly (now wake : Z)
| SleepInterval (wake : Z)
| Returned.

(** [requestTimestamps.filter(timestamp => now - timestamp < 3600000)] *)
Definition prune (now : Z) (ts : list Z) : list Z :=
  filter (fun timestamp => now - timestamp < 3600000) ts.

(** Lines 873-876: read the clock, store it, push it, count it. *)
Definition record_request (t : Z) (s : limiter) : limiter :=
  MkLimiter t (requestCount s + 1) (requestTimestamps s ++ [t]).

(** Lines 865-876, run at clock reading [t] with the call's local [now]. *)
Definition interval_check (now t : Z) (s : limiter) : limiter * task :=
  let timeSinceLastRequest := now - lastRequestTime s in
  if timeSinceLastRequest <? MIN_INTERVAL then
    let waitTime := MIN_INTERVAL - timeSinceLastRequest in
    (s, SleepInterval (t + waitTime))
  else (record_request t s, Returned).

(** One atomic piece of [checkRateLimit], run when the clock reads [t]:
    from the entry or from a timer to the next [await] or to the end. *)
Definition step (t : Z) (s : limiter) (k : task) : limiter * task :=
  match k with
  | Entry =>
      let now := t in
      let pruned := prune now (requestTimestamps s) in
      let s1 := MkLimiter (lastRequestTime s) (requestCount s) pruned in
      if MAX_REQUESTS_PER_HOUR <=? Z.of_nat (length pruned) then
        let oldestRequest := default 0 (head pruned) in
        let waitTime := 3600000 - (now - oldestRequest) + 1000 in
        (s1, SleepHourly now (t + waitTime))
      else interval_check now t s1
  | SleepHourly now _ => interval_check now t s
  | SleepInterval _ => (record_request t s, Returned)
  | Returned => (s, Returned)
  end.

(** A timer set for [wake] fires no earlier than [wake]. *)
Definition ready (t : Z) (k : task) : bool :=
  match k with
  | Entry => true
  | SleepHourly _ wake | SleepInterval wake => wake <=? t
  | Returned => false
  end.

(** One whole call with nothing else running in between: entered at [now],
    its timers firing [lat1] and [lat2] after they are due. *)
Definition checkRateLimit (now lat1 lat2 : Z) (s : limiter) : limiter :=
  let '(s1, k1) := step now s Entry in
  match k1 with
  | SleepHourly _ wake1 =>
      let '(s2, k2) := step (wake1 + lat1) s1 k1 in
      match k2 with
      | SleepInterval wake2 => fst (step (wake2 + lat2) s2 k2)
      | _ => s2
      end
  | SleepInterval wake2 => fst (step (wake2 + lat2) s1 k1)
  | _ => s1
  end.

(** The clock reading at which that call records its timestamp. *)
Definition granted_at (now lat1 lat2 : Z) (s : limiter) : Z :=
  lastRequestTime (checkRateLimit now lat1 lat2 s).

(** A sequence of calls, each finished before the next one is entered. *)
Record arrival : Type := MkArrival { at_time : Z; latency1 : Z; latency2 : Z }.

Definition run_checks (calls : list arrival) (s : limiter) : limiter :=
  foldl (fun s a => checkRateLimit (at_time a) (latency1 a) (latency2 a) s)
        s calls.

(** Each call is entered no earlier than the previous one was granted, and
    timers are never early. *)
Fixpoint sequential (calls : list arrival) (s : limiter) : Prop :=
  match calls with
  | [] => True
  | a :: rest =>
      lastRequestTime s <= at_time a /\ 0 <= latency1 a /\ 0 <= latency2 a /\
      sequential rest (checkRateLimit (at_time a) (latency1 a) (latency2 a) s)
  end.

(** The timestamps those calls record, in order. *)
Fixpoint grants (calls : list arrival) (s : limiter) : list Z :=
  match calls with
  | [] => []
  | a :: rest =>
      let s' := checkRateLimit (at_time a) (latency1 a) (latency2 a) s in
      lastRequestTime s' :: grants rest s'
  end.

(** Several calls in flight over the shared static fields. *)
Record pool : Type := MkPool { shared : limiter; callers : list task }.

(** A turn of the event loop: caller [who] runs when the clock reads
    [at_clock]. *)
Record turn : Type := MkTurn { who : nat; at_clock : Z }.

Definition resume (p : pool) (u : turn) : pool :=
  let i := who u in
  let t := at_clock u in
  match callers p !! i with
  | Some k =>
      if ready t k then
        let '(s', k') := step t (shared p) k in
        MkPool s' (<[i := k']> (callers p))
      else p
  | None => p
  end.

Definition run_pool (schedule : list turn) (p : pool) : pool :=
  foldl resume p schedule.

(** The clock never runs backwards along a schedule. *)
Fixpoint monotone (t0 : Z) (schedule : list turn) : bool :=
  match schedule with
  | [] => true
  | u :: rest => (t0 <=? at_clock u) && monotone (at_clock u) rest
  end.

(** Every turn of the schedule finds its caller able to run. *)
Fixpoint all_ready (schedule : list turn) (p : pool) : bool :=
  match schedule with
  | [] => true
  | u :: rest =>
      match callers p !! who u with
      | Some k => ready (at_clock u) k && all_ready rest (resume p u)
      | None => false
      end
  end.

(** The timestamps of the sequence that lie within the hour ending at [t]. *)
Definition within_hour (t : Z) (ts : list Z) : list Z :=
  filter (fun timestamp => t - timestamp < 3600000) ts.

(** The quota holds in a state when at most [MAX_REQUESTS_PER_HOUR] of the
    kept timestamps lie within the hour that ends at the last grant. *)
Definition quota_ok (s : limiter) : Prop :=
  Z.of_nat (length (within_hour (lastRequestTime s) (requestTimestamps s)))
  <= MAX_REQUESTS_PER_HOUR.

(** Consecutive recorded timestamps are at least [MIN_INTERVAL] apart. *)
Fixpoint spaced (ts : list Z) : bool :=
  match ts with
  | a :: (b :: _) as rest => (MIN_INTERVAL <=? b - a) && spaced rest
  | _ => true
  end.

(** *** The instance and its environment *)

(** What the methods do that the claims look at. *)
Inductive event : Type :=
| EvCacheLookup (key : string)
| EvCacheStore (key : string)
| EvRateLimit
| EvAttempt (operationName : string) (attempt : Z)
| EvBackoff (delay : Z)
| EvBrowser (k : nat).

(** What the outside world answers: the outcome of the [k]-th browser
    interaction (initialize, navigate, query the page), the [k]-th random
    jitter in milliseconds, and the file system behind [path.resolve],
    [fs.existsSync] and [fs.statSync(...).isFile()]. *)
Record env : Type := MkEnv {
  browser_outcome : nat -> completion any;
  jitter : nat -> Z;
  resolvePath : string -> string;
  fsStat : string -> option bool
}.

Record world : Type := MkWorld {
  clock : Z;
  contentCache : gmap string entry;
  limit : limiter;
  interactions : nat;
  draws : nat;
  trace : list event
}.

Definition world0 : world := MkWorld 0 ∅ limiter0 0 0 [].

(** A method body: it may change the world, and returns or throws. *)
Definition M (A : Type) : Type := world -> completion A * world.

#[export] Instance M_ret : MRet M := fun A a w => (Return a, w).
#[export] Instance M_bind : MBind M := fun A B f m w =>
  match m w with
  | (Return a, w1) => f a w1
  | (Throw e, w1) => (Throw e, w1)
  end.

Definition throw {A : Type} (e : exn) : M A := fun w => (Throw e, w).

(** [try { body } catch (error) { handler(error) }] *)
Definition try_catch {A : Type} (body : M A) (handler : exn -> M A) : M A :=
  fun w =>
    match body w with
    | (Return a, w1) => (Return a, w1)
    | (Throw e, w1) => handler e w1
    end.

Definition emit (ev : event) : M unit := fun w =>
  (Return tt,
   MkWorld (clock w) (contentCache w) (limit w) (interactions w) (draws w)
           (trace w ++ [ev])).

(** [await new Promise(resolve => setTimeout(resolve, delay))] *)
Definition sleep (delay : Z) : M unit := fun w =>
  (Return tt,
   MkWorld (clock w + delay) (contentCache w) (limit w) (interactions w)
           (draws w) (trace w)).

(** [Math.random() * 1000] *)
Definition random_jitter (E : env) : M Z := fun w =>
  (Return (jitter E (draws w)),
   MkWorld (clock w) (contentCache w) (limit w) (interactions w)
           (S (draws w)) (trace w)).

(** The browser part of an operation, as one answer of the environment. *)
Definition browse (E : env) : M any := fun w =>
  (browser_outcome E (interactions w),
   MkWorld (clock w) (contentCache w) (limit w) (S (interactions w))
           (draws w) (trace w ++ [EvBrowser (interactions w)])).

Definition cache_get (key : string) : M any := fun w =>
  (Return (getCachedContent (contentCache w) (clock w) key),
   MkWorld (clock w) (contentCache w) (limit w) (interactions w) (draws w)
           (trace w ++ [EvCacheLookup key])).

Definition cache_set (key : string) (d : any) : M unit := fun w =>
  (Return tt,
   MkWorld (clock w) (setCachedContent (contentCache w) (clock w) key d)
           (limit w) (interactions w) (draws w)
           (trace w ++ [EvCacheStore key])).

(** [await this.checkRateLimit()] by a caller that is alone in it. *)
Definition rate_limit : M unit := fun w =>
  let s := checkRateLimit (clock w) 0 0 (limit w) in
  (Return tt,
   MkWorld (lastRequestTime s) (contentCache w) s (interactions w) (draws w)
           (trace w ++ [EvRateLimit])).

(** *** [retryWithBackoff] *)

(** The [for] loop from [attempt] on, with [remaining] iterations left:
    [remaining] is [maxRetries - attempt + 1], so leaving the loop is
    [remaining = 0]. *)
Fixpoint retry_from {T : Type} (E : env) (operation : M T)
    (operationName : string) (maxRetries attempt : Z) (remaining : nat)
    : M T :=
  match remaining with
  | O => throw (Error ("Max retries exceeded for " +:+ operationName))
  | S remaining' =>
      try_catch
        (emit (EvAttempt operationName attempt) ;; operation)
        (fun error =>
           if attempt =? maxRetries then throw error
           else
             let baseDelay := 2 ^ attempt * 1000 in
             j ← random_jitter E;
             let delay := baseDelay + j in
             emit (EvBackoff delay) ;;
             sleep delay ;;
             retry_from E operation operationName maxRetries (attempt + 1)
                        remaining')
  end.

Definition retryWithBackoff {T : Type} (E : env) (operation : M T)
    (operationName : string) (maxRetries : Z) : M T :=
  retry_from E operation operationName maxRetries 1 (Z.to_nat maxRetries).

(** The world in which the operation runs at a given attempt. *)
Definition attempting (operationName : string) (attempt : Z) (w : world)
    : world :=
  MkWorld (clock w) (contentCache w) (limit w) (interactions w) (draws w)
          (trace w ++ [EvAttempt operationName attempt]).

(** An operation that fails whenever it is invoked. *)
Definition always_fails {T : Type} (operation : M T) : Prop :=
  forall w, exists error w', operation w = (Throw error, w').

(** The error is of the named type. *)
Definition typed (name : string) (e : exn) : bool := String.eqb (ename e) name.

(** [logPerformance]: times the call, logs, and passes the outcome on. *)
Definition logPerformance {T : Type} (operation : string) (fn : M T) : M T :=
  try_catch (result ← fn; mret result) (fun error => throw error).

(** *** The public content operations *)

Definition searchNotes (E : env) (keywords : string) (limit : Z) : M any :=
  logPerformance ("searchNotes(" +:+ keywords +:+ ", " +:+ pretty limit +:+ ")")
    (let cacheKey := "search:" +:+ keywords +:+ ":" +:+ pretty limit in
     cached ← cache_get cacheKey;
     if truthy cached then mret cached
     else
       rate_limit ;;
       retryWithBackoff E
         (notes ← browse E;
          cache_set cacheKey notes ;;
          mret notes)
         "searchNotes" 3).

Definition getNoteContent (E : env) (url : string) : M any :=
  logPerformance ("getNoteContent(" +:+ url +:+ ")")
    (let cacheKey := "note:" +:+ url in
     cached ← cache_get cacheKey;
     if truthy cached then mret cached
     else
       rate_limit ;;
       retryWithBackoff E
         (note ← browse E;
          cache_set cacheKey note ;;
          mret note)
         "getNoteContent" 3).

Definition getNoteComments (E : env) (url : string) : M any :=
  logPerformance ("getNoteComments(" +:+ url +:+ ")")
    (let cacheKey := "comments:" +:+ url in
     cached ← cache_get cacheKey;
     if truthy cached then mret cached
     else
       rate_limit ;;
       retryWithBackoff E
         (comments ← browse E;
          cache_set cacheKey comments ;;
          mret comments)
         "getNoteComments" 3).

(** *** [publishNote] and [validateImagePaths] *)

(** White space as [String.prototype.trim] sees it, among the code units
    below 256: TAB, LF, VT, FF, CR, SPACE and NBSP. *)
Definition is_white_space (c : ascii) : bool :=
  let n := N_of_ascii c in
  ((9 <=? n) && (n <=? 13) || (n =? 32) || (n =? 160))%N.

Fixpoint trimStart (s : string) : string :=
  match s with
  | EmptyString => EmptyString
  | String c rest => if is_white_space c then trimStart rest else s
  end.

Definition trim (s : string) : string :=
  String.rev (trimStart (String.rev (trimStart s))).

(** Every code unit of the string is white space (the empty string too). *)
Fixpoint blank (s : string) : bool :=
  match s with
  | EmptyString => true
  | String c rest => is_white_space c && blank rest
  end.

Definition lower (c : ascii) : ascii :=
  let n := N_of_ascii c in
  if ((65 <=? n) && (n <=? 90))%N then ascii_of_N (n + 32) else c.

Fixpoint toLowerCase (s : string) : string :=
  match s with
  | EmptyString => EmptyString
  | String c rest => String (lower c) (toLowerCase rest)
  end.

(** [s.split('.')], with [cur] the piece being read. *)
Fixpoint split_dots (cur s : string) : list string :=
  match s with
  | EmptyString => [cur]
  | String c rest =>
      if Ascii.eqb c "."%char then cur :: split_dots EmptyString rest
      else split_dots (cur +:+ String c EmptyString) rest
  end.

(** [imagePath.toLowerCase().split('.').pop()] *)
Definition extension (imagePath : string) : string :=
  default EmptyString (last (split_dots EmptyString (toLowerCase imagePath))).

Definition allowedExtensions : list string :=
  ["jpg"; "jpeg"; "png"; "gif"; "webp"]%string.

Definition includes (l : list string) (x : string) : bool :=
  existsb (String.eqb x) l.

(** The [for] loop of [validateImagePaths]. *)
Fixpoint validate_each (E : env) (imagePaths validPaths : list string)
    : completion (list string) :=
  match imagePaths with
  | [] => Return validPaths
  | imagePath :: rest =>
      let resolvedPath := resolvePath E imagePath in
      match fsStat E resolvedPath with
      | None => Throw (Error ("Image file not found: " +:+ imagePath))
      | Some isFile =>
          if negb isFile then
            Throw (Error ("Path is not a file: " +:+ imagePath))
          else
            let ext := extension imagePath in
            if String.eqb ext "" || negb (includes allowedExtensions ext) then
              Throw (Error ("Unsupported image format: " +:+ imagePath
                            +:+ ". Supported: jpg, jpeg, png, gif, webp"))
            else validate_each E rest (validPaths ++ [resolvedPath])
      end
  end.

Definition validateImagePaths (E : env) (imagePaths : list string)
    : M (list string) :=
  fun w =>
    match validate_each E imagePaths [] with
    | Return validPaths =>
        if (18 <? length validPaths)%nat then
          (Throw (Error "Maximum 18 images allowed"), w)
        else (Return validPaths, w)
    | Throw e => (Throw e, w)
    end.

(** What makes [publishNote] refuse its arguments. *)
Definition missing (E : env) (imagePath : string) : Prop :=
  fsStat E (resolvePath E imagePath) = None.

Definition not_a_file (E : env) (imagePath : string) : Prop :=
  fsStat E (resolvePath E imagePath) = Some false.

Definition unsupported (imagePath : string) : Prop :=
  includes allowedExtensions (extension imagePath) = false.

Definition invalid_request (E : env) (title content : string)
    (imagePaths : list string) : Prop :=
  blank title = true \/
  blank content = true \/
  imagePaths = [] \/
  (exists imagePath, imagePath ∈ imagePaths /\
     (missing E imagePath \/ not_a_file E imagePath \/
      unsupported imagePath)) \/
  (18 < length imagePaths)%nat.

Record PublishResult : Type := MkPublishResult {
  success : bool;
  result_message : string;
  result_title : string;
  result_content : string;
  imageCount : nat;
  result_tags : string;
  result_url : string
}.

Definition publishNote (E : env) (title content : string)
    (imagePaths : list string) (tags : string) : M PublishResult :=
  logPerformance
    ("publishNote(" +:+ title +:+ ", " +:+ pretty (String.length content)
       +:+ " chars, " +:+ pretty (length imagePaths) +:+ " images)")
    (if String.eqb (trim title) "" then
       throw (Error "Note title cannot be empty")
     else if String.eqb (trim content) "" then
       throw (Error "Note content cannot be empty")
     else if (length imagePaths =? 0)%nat then
       throw (Error "At least one image is required")
     else
       validImagePaths ← validateImagePaths E imagePaths;
       retryWithBackoff E
         (rate_limit ;;
          browse E ;;
          mret (MkPublishResult true "图文笔记发布成功" title content
                  (length validImagePaths) tags
                  "https://creator.xiaohongshu.com/publish/publish"))
         "publishNote" 3).

(** The operation the three content methods hand to [retryWithBackoff]:
    the browser part, then [setCachedContent(cacheKey, result)]. *)
Definition fetch_and_store (E : env) (cacheKey : string) : M any :=
  result ← browse E;
  cache_set cacheKey result ;;
  mret result.

(** The events a call adds to the trace. *)
Definition events_of {A : Type} (m : M A) (w : world) : list event :=
  drop (length (trace w)) (trace (snd (m w))).

(** The events of the retry-wrapped fetch. *)
Definition fetch_event (ev : event) : bool :=
  match ev with
  | EvAttempt _ _ | EvBackoff _ | EvBrowser _ | EvCacheStore _ => true
  | EvCacheLookup _ | EvRateLimit => false
  end.

#[export] Instance event_eq_dec : EqDecision event.
Proof. solve_decision. Defined.

(** Where [a] first occurs in a trace. *)
Fixpoint position (a : event) (evs : list event) : option nat :=
  match evs with
  | [] => None
  | ev :: rest =>
      if decide (ev = a) then Some 0%nat else S <$> position a rest
  end.

(** Both occur, and [a] occurs first. *)
Definition precedes (a b : event) (evs : list event) : bool :=
  match position a evs, position b evs with
  | Some i, Some j => (i <? j)%nat
  | _, _ => false
  end.

(** The order in which a content operation does its three steps: the
    cache lookup comes first; on a hit nothing follows; on a miss the
    admission check follows, and then the events of the retry-wrapped
    fetch, which starts with its first attempt. *)
Definition cache_admission_fetch (cacheKey operationName : string)
    (hit : bool) (evs : list event) : Prop :=
  if hit then evs = [EvCacheLookup cacheKey]
  else exists fetched,
      evs = EvCacheLookup cacheKey :: EvRateLimit
              :: EvAttempt operationName 1 :: fetched /\
      forallb fetch_event fetched = true.

(** *** The in-page comment extraction of [getNoteComments] *)

Section Extraction.

(** The page, as the DOM interface the script uses.  Selectors are opaque
    keys of the queries; they are written without their inner quotes. *)
Variable Element : Type.
Variable document_querySelectorAll : string -> list Element.
Variable querySelectorAll : Element -> string -> list Element.
Variable textContent : Element -> string.
Variable className : Element -> string.
Variable getAttribute : Element -> string -> option string.

(** The body of the loop over the found items (lines 1460-1580): the
    record it pushes, if it pushes one. *)
Variable Comment : Type.
Variable extract_item : Element -> option Comment.

(** A strategy returns an array, or [null]. *)
Definition strategy : Type := unit -> option (list Element).

(** The first non-empty array among [candidates], as the two
    [for ... if (items.length > 0) return Array.from(items)] loops do. *)
Fixpoint first_nonempty (candidates : list (list Element))
    : option (list Element) :=
  match candidates with
  | [] => None
  | items :: rest =>
      if (0 <? length items)%nat then Some items else first_nonempty rest
  end.

Fixpoint str_prefix (p s : string) : bool :=
  match p, s with
  | EmptyString, _ => true
  | String a p', String b s' => Ascii.eqb a b && str_prefix p' s'
  | String _ _, EmptyString => false
  end.

(** [s.includes(sub)] *)
Fixpoint str_includes (s sub : string) : bool :=
  str_prefix sub s ||
  match s with
  | EmptyString => false
  | String _ s' => str_includes s' sub
  end.

Definition strategy1 : strategy := fun _ =>
  let dialogs := document_querySelectorAll "[role=dialog], .modal, .popup" in
  first_nonempty
    (map (fun dialog =>
            querySelectorAll dialog
              "[role=listitem], .comment-item, [class*=comment]")
         dialogs).

Definition strategy2 : strategy := fun _ =>
  let selectors :=
    [ "[role=dialog] [role=list] [role=listitem]";
      ".comment-list .comment-item";
      ".comments-container .comment";
      "[data-testid=comment-item]";
      ".note-comments .comment";
      ".detail-comments .comment" ]%string in
  first_nonempty (map document_querySelectorAll selectors).

(** The test of the third strategy on one element.  [className] is taken
    to be a string, as it is on an HTML element; on an SVG element it is
    an object without [includes], and the test throws there. *)
Definition comment_like (element : Element) : bool :=
  let text := textContent element in
  let classList := className element in
  let testid := default EmptyString (getAttribute element "data-testid") in
  ((0 <? String.length text)%nat && (String.length text <? 500)%nat) &&
  (str_includes classList "comment" || str_includes testid "comment" ||
   str_includes classList "user" || str_includes testid "user").

Definition strategy3 : strategy := fun _ =>
  let allElements := document_querySelectorAll "*" in
  let commentElements := List.filter comment_like allElements in
  if (0 <? length commentElements)%nat then Some commentElements else None.

Definition strategies : list strategy := [strategy1; strategy2; strategy3].

(** What the selection loop leaves behind: the variable [items], the
    variable [usedStrategy], and the indices of the strategies it called. *)
Record selection : Type := MkSelection {
  items : option (list Element);
  usedStrategy : nat;
  evaluated : list nat
}.

(** [for (let i = 0; i < strategies.length; i++)] from index [i] on, over
    the strategies [todo] not yet tried. *)
Fixpoint select_from (todo : list strategy) (i : nat)
    (items0 : option (list Element)) (called : list nat) : selection :=
  match todo with
  | [] => MkSelection items0 0 called
  | strat :: rest =>
      let found := strat tt in
      match found with
      | Some (_ :: _) => MkSelection found (i + 1) (called ++ [i])
      | _ => select_from rest (S i) found (called ++ [i])
      end
  end.

Definition select (l : list strategy) : selection :=
  select_from l 0 None [].

(** The whole script over a given list of strategies. *)
Definition extract_with (l : list strategy) : list Comment :=
  match items (select l) with
  | Some (item :: others) => omap extract_item (item :: others)
  | _ => []
  end.

Definition extractComments : list Comment := extract_with strategies.

(** A strategy matches when its array has at least one element. *)
Definition matches (strat : strategy) : bool :=
  match strat tt with Some (_ :: _) => true | _ => false end.

End Extraction.

Arguments strategy Element : clear implicits.
Arguments selection Element : clear implicits.
Arguments select {Element} l.
Arguments select_from {Element} todo i items0 called.
Arguments matches {Element} strat.
Arguments items {Element} s.
Arguments usedStrategy {Element} s.
Arguments evaluated {Element} s.
Arguments extract_with {Element Comment} extract_item l.

End RedNoteTools.

(** ** cli.ts: the global instance *)

Module Cli.
Local Open Scope nat_scope.

(** The identity of a [RedNoteTools] object: its rank among the
    objects that [new RedNoteTools()] has made. *)
Abbreviation instance := nat.

(** The module-level variables, and how many constructions were started. *)
Record globals : Type := MkGlobals {
  globalRedNoteTools : option instance;
  isInitializing : bool;
  constructions : nat
}.

Definition globals0 : globals := MkGlobals None false 0.

(** What the constructor and [initialize()] do for the [n]-th object. *)
Record env : Type := MkEnv {
  constructor_throws : nat -> option exn;
  initialize : instance -> completion unit
}.

(** Where one call of [getRedNoteTools] stands. *)
Inductive caller : Type :=
| Called
| Polling
| Initializing (i : instance)
| Resolved (tools : option instance)
| Rejected (e : exn).

(** Lines 53-58, up to the [await]: raise the flag, construct, publish
    the object in the global variable, start [initialize()].  A throwing
    constructor goes through the [finally]. *)
Definition construct (E : env) (g : globals) : globals * caller :=
  let n := constructions g in
  match constructor_throws E n with
  | Some e => (MkGlobals (globalRedNoteTools g) false (S n), Rejected e)
  | None => (MkGlobals (Some n) true (S n), Initializing n)
  end.

(** After the polling loop is left (lines 50-53). *)
Definition after_poll (E : env) (g : globals) : globals * caller :=
  match globalRedNoteTools g with
  | Some tools => (g, Resolved (Some tools))
  | None => construct E g
  end.

(** One atomic piece of a call of [getRedNoteTools]. *)
Definition step (E : env) (g : globals) (c : caller) : globals * caller :=
  match c with
  | Called =>
      match globalRedNoteTools g with
      | Some tools => (g, Resolved (Some tools))
      | None => if isInitializing g then (g, Polling) else construct E g
      end
  | Polling => if isInitializing g then (g, Polling) else after_poll E g
  | Initializing i =>
      let g' := MkGlobals (globalRedNoteTools g) false (constructions g) in
      match initialize E i with
      | Return _ => (g', Resolved (globalRedNoteTools g'))
      | Throw e => (g', Rejected e)
      end
  | Resolved _ | Rejected _ => (g, c)
  end.

Record system : Type := MkSystem { vars : globals; calls : list caller }.

(** The event loop runs the next piece of call [i]. *)
Definition schedule1 (E : env) (s : system) (i : nat) : system :=
  match calls s !! i with
  | Some c =>
      let '(g', c') := step E (vars s) c in
      MkSystem g' (<[i := c']> (calls s))
  | None => s
  end.

Definition run (E : env) (schedule : list nat) (s : system) : system :=
  foldl (schedule1 E) s schedule.

(** [C] calls made while no instance exists. *)
Definition start (C : nat) : system := MkSystem globals0 (replicate C Called).

Definition in_flight (c : caller) : bool :=
  match c with Initializing _ => true | _ => false end.

(** The number of constructions in flight. *)
Definition constructing (s : system) : nat :=
  length (List.filter in_flight (calls s)).


(** The flag is up exactly while a construction is in flight, there is at
    most one, and there is none while the global variable is empty. *)
Definition coordinated (s : system) : Prop :=
  constructing s <= 1 /\
  (isInitializing (vars s) = true <-> constructing s = 1) /\
  (globalRedNoteTools (vars s) = None -> constructing s = 0).





End Cli.

(** ** auth/authManager.ts: the static browser slot *)

Module AuthManager.

(** The identity of a [Browser] object. *)
Abbreviation Browser := nat.

Definition BROWSER_TIMEOUT : Z := 30 * 60 * 1000.

Record statics : Type := MkStatics {
  browserInstance : option Browser;
  lastUsed : Z
}.

(** What the browsers answer: [isConnected()], the error [close()] rejects
    with if it does, and the outcome of [chromium.launch(...)]. *)
Record env : Type := MkEnv {
  isConnected : Browser -> bool;
  close_error : Browser -> option exn;
  launch : completion Browser
}.

Inductive event : Type :=
| EvClose (b : Browser)
| EvLogError (e : exn)
| EvLaunch.

(** [isBrowserValid()], with [now] the value of [Date.now()]. *)
Definition isBrowserValid (E : env) (now : Z) (s : statics) : bool :=
  match browserInstance s with
  | None => false
  | Some b =>
      let isExpired := BROWSER_TIMEOUT <? now - lastUsed s in
      let connected := isConnected E b in
      if isExpired || negb connected then false else true
  end.

(** [cleanupBrowserInstance()]: the [catch] logs, the [finally] clears. *)
Definition cleanupBrowserInstance (E : env) (s : statics)
    : statics * list event :=
  match browserInstance s with
  | Some b =>
      (MkStatics None (lastUsed s),
       EvClose b ::
       match close_error E b with
       | Some error => [EvLogError error]
       | None => []
       end)
  | None => (s, [])
  end.

(** [getBrowser()]: [now] is the clock read by [isBrowserValid], [now']
    the clock read for [lastUsed].  The result is the returned reference
    ([None] for [null]), the statics afterwards, and what was done. *)
Definition getBrowser (E : env) (now now' : Z) (s : statics)
    : completion (option Browser) * statics * list event :=
  if isBrowserValid E now s then
    (Return (browserInstance s), MkStatics (browserInstance s) now', [])
  else
    let '(s1, evs) := cleanupBrowserInstance E s in
    match launch E with
    | Return browser =>
        (Return (Some browser), MkStatics (Some browser) now',
         evs ++ [EvLaunch])
    | Throw e => (Throw e, s1, evs ++ [EvLaunch])
    end.

End AuthManager.

(** ** Runs of the tools: what a call did, read off its trace *)

Module Runs.
Import RedNoteTools.

(** The sleeps between attempts, in order. *)
Definition backoff_delays (evs : list event) : list Z :=
  omap (fun ev => match ev with EvBackoff d => Some d | _ => None end) evs.

(** The attempt numbers the operation was invoked with, in order. *)
Definition attempt_numbers (evs : list event) : list Z :=
  omap (fun ev => match ev with EvAttempt _ a => Some a | _ => None end) evs.

Definition total (l : list Z) : Z := foldr Z.add 0 l.

(** The [n] browser interactions from number [first] on all fail. *)
Definition fails_next (E : env) (first n : nat) : Prop :=
  forall j, (j < n)%nat -> exists e, browser_outcome E (first + j) = Throw e.

(** [2^attempt * 1000 + jitter] for [k] attempts in a row from [attempt]
    on, the jitters being drawn from number [draw] on. *)
Fixpoint delays_from (E : env) (attempt : Z) (draw k : nat) : list Z :=
  match k with
  | O => []
  | S k' =>
      (2 ^ attempt * 1000 + jitter E draw)
        :: delays_from E (attempt + 1) (S draw) k'
  end.

Fixpoint attempts_from (attempt : Z) (k : nat) : list Z :=
  match k with
  | O => []
  | S k' => attempt :: attempts_from (attempt + 1) k'
  end.

(** [Math.random() * 1000] lies in [0, 1000). *)
Definition jitter_in_range (E : env) : Prop :=
  forall i, 0 <= jitter E i < 1000.

(** The same world, read [dt] milliseconds later. *)
Definition later (dt : Z) (w : world) : world :=
  MkWorld (clock w + dt) (contentCache w) (limit w) (interactions w)
          (draws w) (trace w).

(** An operation that fails as the browser does when the browser fails. *)
Definition fails_with_browser {T : Type} (E : env) (operation : M T) : Prop :=
  forall w e,
    browser_outcome E (interactions w) = Throw e ->
    operation w = (Throw e, snd (browse E w)).

(** What the three content methods have in common, for a cache key and
    an operation name. *)
Definition content_body (E : env) (cacheKey operationName : string) : M any :=
  cached ← cache_get cacheKey;
  if truthy cached then mret cached
  else
    rate_limit ;;
    retryWithBackoff E (fetch_and_store E cacheKey) operationName 3.

(** The call finds nothing usable under the key. *)
Definition cache_miss (cacheKey : string) (w : world) : Prop :=
  truthy (getCachedContent (contentCache w) (clock w) cacheKey) = false.

(** The call returns [v] from the cache: it looks the key up and does
    nothing else. *)
Definition served_from_cache (op : M any) (cacheKey : string) (v : any)
    (w : world) : Prop :=
  op w = (Return v,
          MkWorld (clock w) (contentCache w) (limit w) (interactions w)
            (draws w) (trace w ++ [EvCacheLookup cacheKey])).

(** The call fetches [v] at its first attempt and stores it; from then on
    and for less than [CACHE_TTL] the same call is served from the cache;
    after that it goes through the admission check and fetches again. *)
Definition fetched_then_cached (op : M any) (cacheKey operationName : string)
    (v : any) (w : world) : Prop :=
  fst (op w) = Return v /\
  events_of op w
    = [EvCacheLookup cacheKey; EvRateLimit; EvAttempt operationName 1;
       EvBrowser (interactions w); EvCacheStore cacheKey] /\
  (forall dt, 0 <= dt < CACHE_TTL ->
     served_from_cache op cacheKey v (later dt (snd (op w)))) /\
  (forall dt, CACHE_TTL <= dt ->
     cache_admission_fetch cacheKey operationName false
       (events_of op (later dt (snd (op w))))).

(** The call fails with the error of the third attempt, has stored
    nothing, and has used one slot of the limiter. *)
Definition failed_uncached (E : env) (op : M any) (w : world) : Prop :=
  exists e,
    browser_outcome E (interactions w + 2) = Throw e /\
    fst (op w) = Throw e /\
    contentCache (snd (op w)) = contentCache w /\
    limit (snd (op w)) = checkRateLimit (clock w) 0 0 (limit w) /\
    requestCount (limit (snd (op w))) = requestCount (limit w) + 1 /\
    interactions (snd (op w)) = (interactions w + 3)%nat.

(** No kept timestamp is later than the last grant. *)
Definition well_timed (s : limiter) : Prop :=
  Forall (fun t => t <= lastRequestTime s) (requestTimestamps s).

(** The timestamps are in non-decreasing order. *)
Fixpoint ascending (ts : list Z) : Prop :=
  match ts with
  | [] => True
  | a :: rest => Forall (fun b => a <= b) rest /\ ascending rest
  end.

(** An image path that [validateImagePaths] lets through. *)
Definition acceptable (E : env) (imagePath : string) : Prop :=
  fsStat E (resolvePath E imagePath) = Some true /\
  includes allowedExtensions (extension imagePath) = true.

(** The operation [publishNote] hands to [retryWithBackoff]: the admission
    check, the browser part, the result. *)
Definition publish_attempt (E : env) (result : PublishResult)
    : M PublishResult :=
  rate_limit ;;
  browse E ;;
  mret result.

(** How many admission checks a call made. *)
Definition admissions (evs : list event) : nat :=
  length (List.filter
            (fun ev => match ev with EvRateLimit => true | _ => false end)
            evs).

End Runs.

(** ** Strings: trimming and splitting, and the tag list of [addTags] *)

Module Text.
Import RedNoteTools.

(** The code units of a string. *)
Abbreviation chars := String.list_ascii_of_string.

(** [trimStart] and [trim] on the list of code units. *)
Fixpoint drop_space (l : list ascii) : list ascii :=
  match l with
  | [] => []
  | c :: rest => if is_white_space c then drop_space rest else l
  end.

Definition trimmed (l : list ascii) : list ascii :=
  reverse (drop_space (reverse (drop_space l))).

(** Neither the first nor the last code unit is white space. *)
Definition tight (l : list ascii) : Prop :=
  match l with [] => True | c :: _ => is_white_space c = false end /\
  match last l with None => True | Some c => is_white_space c = false end.

(** [s.split(sep)] for a one-character separator, with [cur] the piece
    being read. *)
Fixpoint split_on (sep : ascii) (cur s : string) : list string :=
  match s with
  | EmptyString => [cur]
  | String c rest =>
      if Ascii.eqb c sep then cur :: split_on sep EmptyString rest
      else split_on sep (cur +:+ String c EmptyString) rest
  end.

(** [tags.split(',').map(tag => tag.trim()).filter(tag => tag.length > 0)] *)
Definition tagList (tags : string) : list string :=
  List.filter (fun tag => (0 <? String.length tag)%nat)
    (map trim (split_on ","%char EmptyString tags)).

End Text.

(** ** Pacing and leases *)

Module Pacing.
Import RedNoteTools.

(** [smartDelay()]: [hour] is [new Date().getHours()], [random5000] is
    [Math.random() * 5000] in whole milliseconds. *)
Definition smartDelay (hour random5000 : Z) : M unit :=
  let isPeakHour := (20 <=? hour) || (hour <=? 23) in
  let baseDelay := if isPeakHour then 15000 else 10000 in
  let randomDelay := random5000 + baseDelay in
  sleep randomDelay.

(** A series of [getBrowser()] calls, one after the other: each entry
    gives the two clock readings of a call.  The result lists what every
    call returned and did. *)
Fixpoint acquire_all (E : AuthManager.env) (times : list (Z * Z))
    (s : AuthManager.statics)
    : list (completion (option nat) * list AuthManager.event)
      * AuthManager.statics :=
  match times with
  | [] => ([], s)
  | (now, now') :: rest =>
      let '(r, s1, evs) := AuthManager.getBrowser E now now' s in
      let '(results, s2) := acquire_all E rest s1 in
      ((r, evs) :: results, s2)
  end.

(** The clock the last call of a series stored in [lastUsed]. *)
Definition last_use (times : list (Z * Z)) : option Z :=
  last (map snd times).

(** Every call is made at most [BROWSER_TIMEOUT] after the slot was last
    used. *)
Fixpoint within_lease (lastUsed : Z) (times : list (Z * Z)) : Prop :=
  match times with
  | [] => True
  | (now, now') :: rest =>
      now - lastUsed <= AuthManager.BROWSER_TIMEOUT /\
      within_lease now' rest
  end.

End Pacing.

(** ** Share links *)

Module Links.
Local Open Scope N_scope.

(** A JavaScript string, as the regular expressions see it without the
    [u] flag: its UTF-16 code units. *)
Definition jsstring : Type := list N.

(** The code units of a string of ASCII characters. *)
Definition units (s : string) : jsstring :=
  map N_of_ascii (String.list_ascii_of_string s).

(** [Canonicalize] under the [i] flag.  The pattern characters of the two
    expressions are ASCII, and a code unit from 128 on is canonicalized to
    one from 128 on, so only the ASCII letters are folded here. *)
Definition canonicalize (c : N) : N :=
  if (97 <=? c) && (c <=? 122) then c - 32 else c.

(** The expressions [extractRedBookUrl] is written with: literal
    characters, [r?], [[class]+] and concatenation; [?] and [+] are
    greedy. *)
Inductive regex : Type :=
| Chars (p : jsstring)
| Optional (r : regex)
| OneOrMore (class : N -> bool)
| Then (r1 r2 : regex).

Fixpoint chars_match (p s : jsstring) : option jsstring :=
  match p, s with
  | [], _ => Some s
  | a :: p', c :: s' =>
      if canonicalize a =? canonicalize c then chars_match p' s' else None
  | _ :: _, [] => None
  end.

(** The backtracking matcher: [k] is the continuation that matches what
    follows, and the result is the input left after the whole match. *)
Fixpoint repeat_class (class : N -> bool) (s : jsstring)
    (k : jsstring -> option jsstring) : option jsstring :=
  match s with
  | c :: rest =>
      if class c then
        match repeat_class class rest k with
        | Some r => Some r
        | None => k s
        end
      else k s
  | [] => k []
  end.

Fixpoint run (r : regex) (s : jsstring) (k : jsstring -> option jsstring)
    : option jsstring :=
  match r with
  | Chars p =>
      match chars_match p s with
      | Some rest => k rest
      | None => None
      end
  | Optional r' =>
      match run r' s k with
      | Some x => Some x
      | None => k s
      end
  | OneOrMore class =>
      match s with
      | c :: rest => if class c then repeat_class class rest k else None
      | [] => None
      end
  | Then r1 r2 => run r1 s (fun rest => run r2 rest k)
  end.

(** [s.match(r)] of an expression without the [g] flag: the match that
    starts leftmost, as the text of its capture group, which in both
    expressions encloses the whole pattern. *)
Fixpoint exec (r : regex) (s : jsstring) : option jsstring :=
  match run r s Some with
  | Some rest => Some (take (length s - length rest) s)
  | None =>
      match s with
      | [] => None
      | _ :: s' => exec r s'
      end
  end.

Definition is_digit (c : N) : bool := (48 <=? c) && (c <=? 57).
Definition is_upper (c : N) : bool := (65 <=? c) && (c <=? 90).
Definition is_lower (c : N) : bool := (97 <=? c) && (c <=? 122).

(** [[a-zA-Z0-9\/]] *)
Definition path_class (c : N) : bool :=
  is_lower c || is_upper c || is_digit c || (c =? 47).

(** [\s]: white space and line terminators. *)
Definition is_space (c : N) : bool :=
  existsb (N.eqb c)
    [9; 10; 11; 12; 13; 32; 160; 5760; 8232; 8233; 8239; 8287; 12288; 65279]
  || (8192 <=? c) && (c <=? 8202).

(** [[^，\s]]; the full-width comma is U+FF0C. *)
Definition url_class (c : N) : bool :=
  negb ((c =? 65292) || is_space c).

(** [/(https?:\/\/xhslink\.com\/[a-zA-Z0-9\/]+)/i] *)
Definition xhslinkRegex : regex :=
  Then (Chars (units "http"))
    (Then (Optional (Chars (units "s")))
       (Then (Chars (units "://xhslink.com/")) (OneOrMore path_class))).

(** [/(https?:\/\/(?:www\.)?xiaohongshu\.com\/[^，\s]+)/i] *)
Definition xiaohongshuRegex : regex :=
  Then (Chars (units "http"))
    (Then (Optional (Chars (units "s")))
       (Then (Chars (units "://"))
          (Then (Optional (Chars (units "www.")))
             (Then (Chars (units "xiaohongshu.com/"))
                (OneOrMore url_class))))).

(** [extractRedBookUrl(shareText)]; an empty capture is falsy. *)
Definition extractRedBookUrl (shareText : jsstring) : jsstring :=
  match exec xhslinkRegex shareText with
  | Some (c :: m) => c :: m
  | _ =>
      match exec xiaohongshuRegex shareText with
      | Some (c :: m) => c :: m
      | _ => shareText
      end
  end.

(** The texts an expression matches in full. *)
Fixpoint denotes (r : regex) (u : jsstring) : Prop :=
  match r with
  | Chars p => Forall2 (fun a c => canonicalize a = canonicalize c) p u
  | Optional r' => u = [] \/ denotes r' u
  | OneOrMore class => u <> [] /\ forallb class u = true
  | Then r1 r2 => exists u1 u2, u = u1 ++ u2 /\ denotes r1 u1 /\ denotes r2 u2
  end.

(** The text has a part that the expression matches. *)
Definition link_in (r : regex) (s : jsstring) : Prop :=
  exists pre u post, s = pre ++ u ++ post /\ denotes r u.

(** [u] stands in [s], between [pre] and [post]. *)
Definition part_of (u s : jsstring) : Prop :=
  exists pre post, s = pre ++ u ++ post.

(** No code unit is an [h], small or capital. *)
Definition h_free (s : jsstring) : Prop :=
  Forall (fun c => c <> 104 /\ c <> 72) s.

(** The class run of a link ends where [post] begins. *)
Definition ends_run (class : N -> bool) (post : jsstring) : Prop :=
  match post with
  | [] => True
  | c :: _ => class c = false
  end.

End Links.

(** ** Access to the creator platform *)

Module CreatorPlatformAccess.

(** An element handle, as [clickPublishButton] looks at it. *)
Record button : Type := MkButton {
  isVisible : bool;
  textContent : option string
}.

(** What the page answers: the URL it shows at the k-th call of
    [page.url()], the error with which the k-th awaited call on the page
    or one of its elements rejects, if it does, and the elements that
    [page.$$(selector)] finds. *)
Record env : Type := MkEnv {
  url_at : nat -> string;
  rejects : nat -> option exn;
  elements : string -> list button
}.

(** The page so far: the number of calls of [page.url()], the number of
    awaited calls, the time spent in [waitForTimeout], and the clicks. *)
Record page : Type := MkPage {
  reads : nat;
  calls : nat;
  waited : Z;
  clicks : nat
}.

Definition page0 : page := MkPage 0 0 0 0.

Definition P (A : Type) : Type := page -> completion A * page.

#[export] Instance P_ret : MRet P := fun A a s => (Return a, s).
#[export] Instance P_bind : MBind P := fun A B f m s =>
  match m s with
  | (Return a, s1) => f a s1
  | (Throw e, s1) => (Throw e, s1)
  end.

(** [try { body } catch (error) { handler }] *)
Definition catch {A : Type} (body : P A) (handler : exn -> P A) : P A :=
  fun s =>
    match body s with
    | (Return a, s1) => (Return a, s1)
    | (Throw e, s1) => handler e s1
    end.

(** One awaited call on the page or on an element. *)
Definition call (E : env) : P unit := fun s =>
  let s1 := MkPage (reads s) (S (calls s)) (waited s) (clicks s) in
  match rejects E (calls s) with
  | Some e => (Throw e, s1)
  | None => (Return tt, s1)
  end.

Definition goto (E : env) (address : string) : P unit := call E.

Definition evaluate (E : env) : P unit := call E.

Definition elapse (ms : Z) : P unit := fun s =>
  (Return tt, MkPage (reads s) (calls s) (waited s + ms) (clicks s)).

Definition waitForTimeout (E : env) (ms : Z) : P unit :=
  call E;;
  elapse ms.

Definition count_click : P unit := fun s =>
  (Return tt, MkPage (reads s) (calls s) (waited s) (S (clicks s))).

Definition click (E : env) : P unit :=
  call E;;
  count_click.

(** [this.page.url()] *)
Definition url (E : env) : P string := fun s =>
  (Return (url_at E (reads s)),
   MkPage (S (reads s)) (calls s) (waited s) (clicks s)).

Definition includes (s sub : string) : bool := RedNoteTools.str_includes s sub.

(** [cleanAutomationTraces()] *)
Definition cleanAutomationTraces (E : env) : P unit :=
  evaluate E;;
  waitForTimeout E 2000.

(** [simulateHumanBehavior()] *)
Definition simulateHumanBehavior (E : env) : P unit :=
  evaluate E;;
  waitForTimeout E 3000.

(** [establishNormalUserSession()] *)
Definition establishNormalUserSession (E : env) : P unit :=
  goto E "https://www.xiaohongshu.com";;
  waitForTimeout E 3000;;
  simulateHumanBehavior E;;
  evaluate E;;
  waitForTimeout E 2000.

(** The test of [waitForManualLogin] on the current URL. *)
Definition isLoggedIn (currentUrl : string) : bool :=
  negb (includes currentUrl "login") &&
  (includes currentUrl "creator.xiaohongshu.com" ||
   includes currentUrl "publish" ||
   negb (includes currentUrl "xiaohongshu.com")).

(** The loop of [waitForManualLogin()]: [remaining] is
    [maxAttempts - attempts]. *)
Fixpoint poll (E : env) (remaining : nat) (attempts : Z) : P bool :=
  match remaining with
  | O => mret false
  | S remaining' =>
      waitForTimeout E 2000;;
      let attempts := attempts + 1 in
      currentUrl ← url E;
      if isLoggedIn currentUrl then
        waitForTimeout E 3000;;
        mret true
      else
        (if attempts mod 15 =? 0 then evaluate E else mret tt);;
        poll E remaining' attempts
  end.

Definition maxAttempts : nat := 180.

Definition waitForManualLogin (E : env) : P bool := poll E maxAttempts 0.

(** [navigateToPublishPage()] *)
Definition navigateToPublishPage (E : env) : P bool :=
  catch
    (goto E "https://creator.xiaohongshu.com/publish/publish";;
     waitForTimeout E 5000;;
     finalUrl ← url E;
     if includes finalUrl "login" then mret false
     else if includes finalUrl "publish" then mret true
     else mret true)
    (fun _ => mret false).

(** The selectors are written without their inner quotes. *)
Definition publishButtonSelectors : list string :=
  [ "button:has-text(发布)"; "div:has-text(发布)"; "a:has-text(发布)";
    ".publish-btn"; "button[class*=publish]"; "div[class*=publish]";
    "a[class*=publish]"; "[data-testid=publish-button]"; ".create-btn";
    "button:has-text(创作)"; "div:has-text(创作)" ].

(** [text && (text.includes('发布') || text.includes('创作'))] *)
Definition is_publish_text (text : option string) : bool :=
  match text with
  | Some t =>
      negb (String.eqb t "") && (includes t "发布" || includes t "创作")
  | None => false
  end.

(** The loop over the elements of one selector: [true] when one was
    clicked. *)
Fixpoint click_first (E : env) (found : list button) : P bool :=
  match found with
  | [] => mret false
  | element :: rest =>
      call E;;
      if isVisible element then
        call E;;
        if is_publish_text (textContent element) then
          call E;;
          waitForTimeout E 1000;;
          click E;;
          mret true
        else click_first E rest
      else click_first E rest
  end.

(** The loop over the selectors; an error under one selector is caught and
    the next selector is tried. *)
Fixpoint click_any (E : env) (selectors : list string) : P bool :=
  match selectors with
  | [] => mret false
  | selector :: rest =>
      catch (call E;; click_first E (elements E selector))
            (fun _ => mret false)
      ≫= fun clicked : bool =>
      if clicked then mret true else click_any E rest
  end.

(** [clickPublishButton()] *)
Definition clickPublishButton (E : env) : P bool :=
  catch (call E;; click_any E publishButtonSelectors) (fun _ => mret false).

(** After a manual login the publish page is opened and its result
    returned; without one the caller goes on ([None]). *)
Definition login_then_navigate (E : env) : P (option bool) :=
  waitForManualLogin E ≫= fun loginSuccess : bool =>
  if loginSuccess then r ← navigateToPublishPage E; mret (Some r)
  else mret None.

(** The block of [accessViaMainSite()] entered when the button was
    clicked: [Some] is a [return], [None] falls through. *)
Definition after_click (E : env) : P (option bool) :=
  waitForTimeout E 5000;;
  currentUrl ← url E;
  if includes currentUrl "creator.xiaohongshu.com" then
    r ← navigateToPublishPage E; mret (Some r)
  else if includes currentUrl "login" then
    login_then_navigate E
  else
    r ← navigateToPublishPage E; mret (Some r).

(** The end of [accessViaMainSite()]: direct access once more. *)
Definition direct_access_again (E : env) : P bool :=
  goto E "https://creator.xiaohongshu.com";;
  waitForTimeout E 5000;;
  currentUrl ← url E;
  if negb (includes currentUrl "login") then navigateToPublishPage E
  else mret false.

(** [accessViaMainSite()] *)
Definition accessViaMainSite (E : env) : P bool :=
  catch
    (goto E "https://www.xiaohongshu.com";;
     waitForTimeout E 3000;;
     evaluate E;;
     waitForTimeout E 2000;;
     clickPublishButton E ≫= fun publishButtonClicked : bool =>
     (if publishButtonClicked then after_click E else mret None)
     ≫= fun returned : option bool =>
     match returned with
     | Some r => mret r
     | None => direct_access_again E
     end)
    (fun _ => mret false).

(** [attemptCreatorPlatformAccess()] *)
Definition attemptCreatorPlatformAccess (E : env) : P bool :=
  catch
    (goto E "https://creator.xiaohongshu.com";;
     waitForTimeout E 5000;;
     currentUrl ← url E;
     if negb (includes currentUrl "login") then navigateToPublishPage E
     else
       (if includes currentUrl "login" then login_then_navigate E
        else mret None)
       ≫= fun returned : option bool =>
       match returned with
       | Some r => mret r
       | None => accessViaMainSite E
       end)
    (fun _ => mret false).

(** [accessCreatorPlatform()] *)
Definition accessCreatorPlatform (E : env) : P bool :=
  catch
    (cleanAutomationTraces E;;
     establishNormalUserSession E;;
     attemptCreatorPlatformAccess E ≫= fun success : bool =>
     if success then mret true else mret false)
    (fun _ => mret false).

(** The URL seen last. *)
Definition last_url (E : env) (s : page) : option string :=
  match reads s with
  | O => None
  | S k => Some (url_at E k)
  end.

(** The page is off the login page when the run ends. *)
Definition off_login (E : env) (s : page) : Prop :=
  exists finalUrl, last_url E s = Some finalUrl /\
                   includes finalUrl "login" = false.

(** A result [true] is only reported off the login page. *)
Definition fair (E : env) (r : completion bool * page) : Prop :=
  match fst r with
  | Return true => off_login E (snd r)
  | _ => True
  end.

Definition fair_opt (E : env) (r : completion (option bool) * page) : Prop :=
  match fst r with
  | Return (Some true) => off_login E (snd r)
  | _ => True
  end.

(** What a run of the button search did: it clicked once, on a visible
    element of [found] with a publish text, and returned [true]; or it
    clicked nothing. *)
Definition clicked_one (found : list button) (s : page)
    (r : completion bool * page) : Prop :=
  match fst r with
  | Return true =>
      clicks (snd r) = S (clicks s) /\
      exists element, In element found /\ isVisible element = true /\
                      is_publish_text (textContent element) = true
  | _ => clicks (snd r) = clicks s
  end.

(** The same over the selectors of [clickPublishButton]. *)
Definition clicked_under (E : env) (selectors : list string) (s : page)
    (r : completion bool * page) : Prop :=
  match fst r with
  | Return true =>
      clicks (snd r) = S (clicks s) /\
      exists selector element,
        In selector selectors /\ In element (elements E selector) /\
        isVisible element = true /\
        is_publish_text (textContent element) = true
  | _ => clicks (snd r) = clicks s
  end.

End CreatorPlatformAccess.

(** ** The browser session of the tools *)

Module Session.

(** What the browser library answers: the error of the k-th
    [chromium.launch], the error with which [close()] of a browser or of
    a page rejects (it is logged), the error of the k-th [newPage()], and
    what the k-th page gives between [addInitScript] and the login check:
    the value of [isLoggedIn], or the error thrown on the way. *)
Record env : Type := MkEnv {
  launch_error : nat -> option exn;
  close_error : nat -> option exn;
  page_close_error : nat -> option exn;
  newPage_error : nat -> option exn;
  prepared : nat -> completion bool
}.

(** The static slot of [AuthManager], the fields [browser] and [page] of
    the [RedNoteTools] instance, and the browsers and pages of the
    process: the browsers closed so far, the number of launches (the k-th
    launch gives browser [k]), the number of calls of [newPage()] (the
    k-th call gives page [k - 1]), and the pages that are open, each with
    its browser. *)
Record state : Type := MkState {
  statics : AuthManager.statics;
  browser : option nat;
  page : option nat;
  closed : list nat;
  launches : nat;
  newPages : nat;
  pages : list (nat * nat)
}.

Definition state0 : state :=
  MkState (AuthManager.MkStatics None 0) None None [] 0 0 [].

Definition is_closed (s : state) (b : nat) : bool :=
  existsb (Nat.eqb b) (closed s).

(** The browsers as [AuthManager] meets them: a closed browser reports
    that it is not connected, and a launch gives the next browser. *)
Definition browsers (E : env) (s : state) : AuthManager.env :=
  AuthManager.MkEnv
    (fun b => negb (is_closed s b))
    (close_error E)
    (match launch_error E (launches s) with
     | Some e => Throw e
     | None => Return (S (launches s))
     end).

(** The browsers that a run of [getBrowser] closed: [close()] was called
    and did not reject. *)
Definition closed_by (E : env) (evs : list AuthManager.event) : list nat :=
  omap (fun ev =>
          match ev with
          | AuthManager.EvClose b =>
              match close_error E b with
              | None => Some b
              | Some _ => None
              end
          | _ => None
          end) evs.

Definition launched_by (evs : list AuthManager.event) : nat :=
  length (List.filter (fun ev =>
                         match ev with
                         | AuthManager.EvLaunch => true
                         | _ => false
                         end) evs).

(** Closing a browser closes its pages. *)
Definition without_browsers (bs : list nat) (open : list (nat * nat))
    : list (nat * nat) :=
  List.filter (fun pb => negb (existsb (Nat.eqb (snd pb)) bs)) open.

Definition without_page (p : nat) (open : list (nat * nat))
    : list (nat * nat) :=
  List.filter (fun pb => negb (Nat.eqb (fst pb) p)) open.

(** [this.authManager.getBrowser()], with the two readings of the
    clock. *)
Definition getBrowser (E : env) (now now' : Z) (s : state)
    : completion (option nat) * state :=
  let '(r, statics', evs) :=
    AuthManager.getBrowser (browsers E s) now now' (statics s) in
  (r,
   MkState statics' (browser s) (page s)
           (closed s ++ closed_by E evs)
           (launches s + launched_by evs) (newPages s)
           (without_browsers (closed_by E evs) (pages s))).

(** [cleanup()] of the tools: the page and the browser of the instance
    are closed, errors are logged, and both fields are cleared.  The
    static slot of [AuthManager] is not touched. *)
Definition cleanup (E : env) (s : state) : state :=
  let open1 :=
    match page s with
    | Some p =>
        match page_close_error E p with
        | None => without_page p (pages s)
        | Some _ => pages s
        end
    | None => pages s
    end in
  match browser s with
  | Some b =>
      match close_error E b with
      | None =>
          MkState (statics s) None None (closed s ++ [b]) (launches s)
                  (newPages s) (without_browsers [b] open1)
      | Some _ =>
          MkState (statics s) None None (closed s) (launches s)
                  (newPages s) open1
      end
  | None =>
      MkState (statics s) None None (closed s) (launches s) (newPages s)
              open1
  end.

(** The [try] block of [initialize()]. *)
Definition open_page (E : env) (b : nat) (s : state)
    : completion unit * state :=
  let p := newPages s in
  match newPage_error E p with
  | Some e =>
      (Throw e,
       MkState (statics s) (browser s) (page s) (closed s) (launches s)
               (S p) (pages s))
  | None =>
      let s1 := MkState (statics s) (browser s) (Some p) (closed s)
                        (launches s) (S p) (pages s ++ [(p, b)]) in
      match prepared E p with
      | Return true => (Return tt, s1)
      | Return false => (Throw (Error "Not logged in"), s1)
      | Throw e => (Throw e, s1)
      end
  end.

(** [initialize()] *)
Definition initialize (E : env) (now now' : Z) (s : state)
    : completion unit * state :=
  match getBrowser E now now' s with
  | (Throw e, s1) => (Throw e, s1)
  | (Return None, s1) =>
      (Throw (Error "Failed to initialize browser"),
       MkState (statics s1) None (page s1) (closed s1) (launches s1)
               (newPages s1) (pages s1))
  | (Return (Some b), s1) =>
      let s2 := MkState (statics s1) (Some b) (page s1) (closed s1)
                        (launches s1) (newPages s1) (pages s1) in
      match open_page E b s2 with
      | (Return _, s3) => (Return tt, s3)
      | (Throw error, s3) => (Throw error, cleanup E s3)
      end
  end.

(** A series of calls of [initialize()] that do not overlap: each call is
    entered when the previous one has returned, as the attempts of one
    retried operation are.  Calls that overlap are not described by this
    function: [getBrowser()] waits for [chromium.launch(...)] without a
    lock ([acquire_step] below cuts it there), and a call entered
    meanwhile finds the static slot as the first has left it. *)
Fixpoint initialize_all (E : env) (times : list (Z * Z)) (s : state)
    : list (completion unit) * state :=
  match times with
  | [] => ([], s)
  | (now, now') :: rest =>
      let '(r, s1) := initialize E now now' s in
      let '(results, s2) := initialize_all E rest s1 in
      (r :: results, s2)
  end.


(** Where one call of [getBrowser()] stands: entered, waiting for the
    [k]-th [chromium.launch(...)] it has called, or returned. *)
Inductive acquiring : Type :=
| Entered
| Launching (k : nat)
| Acquired (r : completion (option nat)).

(** One piece of [getBrowser()], cut at [await chromium.launch(...)].
    The first piece tests the slot and either returns its browser or
    cleans the slot up and calls the launch; the second stores the
    browser launched in the slot. *)
Definition acquire_step (E : env) (now now' : Z) (s : state) (c : acquiring)
    : state * acquiring :=
  match c with
  | Entered =>
      if AuthManager.isBrowserValid (browsers E s) now (statics s) then
        (MkState (AuthManager.MkStatics
                    (AuthManager.browserInstance (statics s)) now')
                 (browser s) (page s) (closed s) (launches s) (newPages s)
                 (pages s),
         Acquired (Return (AuthManager.browserInstance (statics s))))
      else
        let '(statics1, evs) :=
          AuthManager.cleanupBrowserInstance (browsers E s) (statics s) in
        (MkState statics1 (browser s) (page s)
                 (closed s ++ closed_by E evs) (S (launches s)) (newPages s)
                 (without_browsers (closed_by E evs) (pages s)),
         Launching (launches s))
  | Launching k =>
      match launch_error E k with
      | Some e => (s, Acquired (Throw e))
      | None =>
          (MkState (AuthManager.MkStatics (Some (S k)) now') (browser s)
                   (page s) (closed s) (launches s) (newPages s) (pages s),
           Acquired (Return (Some (S k))))
      end
  | Acquired _ => (s, c)
  end.


(** Browsers launch, pages open and close as asked, but no page shows a
    logged-in user. *)
Definition never_logged_in (E : env) : Prop :=
  forall k, launch_error E k = None /\ close_error E k = None /\
            page_close_error E k = None /\ newPage_error E k = None /\
            prepared E k = Return false.

(** The static slot is empty, or holds a browser that was closed. *)
Definition slot_unusable (s : state) : Prop :=
  match AuthManager.browserInstance (statics s) with
  | None => True
  | Some b => is_closed s b = true
  end.

End Session.

(** ** Logging in *)

Module Login.

(** What the browser gives to [login]: the outcome of [getBrowser()], what
    the k-th pass through the [try] block ends with (it returns once the
    cookies are saved, or throws), and the error with which the closing of
    the page and of the context in the k-th [catch] block rejects, if it
    does.  The pass is given the timeout in milliseconds. *)
Record env : Type := MkEnv {
  browser : completion (option nat);
  attempt : Z -> nat -> completion unit;
  teardown_error : nat -> option exn
}.

Inductive event : Type :=
| EvAttempt (n : nat)
| EvTeardown (n : nat)
| EvWait (ms : Z).

Definition maxRetries : nat := 3.

(** [options?.timeout || 10] *)
Definition timeoutSeconds (timeout : option Z) : Z :=
  match timeout with
  | Some t => if t =? 0 then 10 else t
  | None => 10
  end.

(** The [while (retryCount < maxRetries)] loop; [remaining] is
    [maxRetries - retryCount]. *)
Fixpoint retry (E : env) (timeoutMs : Z) (remaining retryCount : nat)
    (log : list event) : completion unit * list event :=
  match remaining with
  | O => (Return tt, log)
  | S remaining' =>
      let log1 := log ++ [EvAttempt (retryCount + 1)] in
      match attempt E timeoutMs retryCount with
      | Return _ => (Return tt, log1)
      | Throw error =>
          let log2 := log1 ++ [EvTeardown (retryCount + 1)] in
          match teardown_error E retryCount with
          | Some e => (Throw e, log2)
          | None =>
              let retryCount := S retryCount in
              if (retryCount <? maxRetries)%nat then
                retry E timeoutMs remaining' retryCount (log2 ++ [EvWait 2000])
              else
                (Throw (Error "Login failed after maximum retries"), log2)
          end
      end
  end.

(** [login(options)] *)
Definition login (E : env) (timeout : option Z)
    : completion unit * list event :=
  let timeoutMs := timeoutSeconds timeout * 1000 in
  match browser E with
  | Throw e => (Throw e, [])
  | Return None => (Throw (Error "Failed to launch browser"), [])
  | Return (Some _) => retry E timeoutMs maxRetries 0 []
  end.

(** The first [j] passes fail, and the session is closed after each. *)
Definition fails_first (E : env) (timeoutMs : Z) (j : nat) : Prop :=
  forall i, (i < j)%nat ->
    (exists error, attempt E timeoutMs i = Throw error) /\
    teardown_error E i = None.

(** What [j] failed passes leave in the log, each followed by its wait. *)
Definition failed_rounds (j : nat) : list event :=
  flat_map (fun i => [EvAttempt (i + 1); EvTeardown (i + 1); EvWait 2000])
           (seq 0 j).

End Login.

(** ** Waiting for the publication *)

Module PublishWait.

(** What the page shows at the k-th look: whether a selector finds a
    visible element, the text of the element it finds, and whether it
    finds an element at all; how long the look takes, and the random part
    of the pause after it, both in milliseconds.  The calls on the page
    are taken to answer: an error of theirs would leave the function as it
    is thrown. *)
Record env : Type := MkEnv {
  visible : nat -> string -> bool;
  textContent : nat -> string -> option string;
  present : nat -> string -> bool;
  lag : nat -> Z;
  jitter : nat -> Z
}.

Definition maxWaitTime : Z := 60000.

Definition successSelectors : list string :=
  [".success-message"; ".publish-success"; ".toast-success";
   "[data-testid=publish-success]"].

Definition errorSelectors : list string :=
  [".error-message"; ".publish-error"; ".toast-error";
   "[data-testid=publish-error]"].

Definition publishPage : string :=
  "div.upload-content, div.submit, .creator-editor".

(** [`Publish failed: ${errorText}`] *)
Definition publish_failed (errorText : option string) : exn :=
  Error ("Publish failed: " +:+ default "null" errorText).

(** The loop of [waitForPublishCompletion()]: [k] looks were taken, [now]
    is [Date.now()].  The result is how the call ends, when, and after how
    many looks; [None] when [fuel] rounds were not enough. *)
Fixpoint poll (E : env) (fuel k : nat) (startTime now : Z)
    : option (completion unit * Z * nat) :=
  if now - startTime <? maxWaitTime then
    match fuel with
    | O => None
    | S fuel' =>
        let now1 := now + lag E k in
        if existsb (visible E k) successSelectors then
          Some (Return tt, now1 + 2000, S k)
        else
          match List.find (visible E k) errorSelectors with
          | Some selector =>
              Some (Throw (publish_failed (textContent E k selector)),
                    now1, S k)
          | None =>
              if negb (present E k publishPage) then
                Some (Return tt, now1, S k)
              else
                poll E fuel' (S k) startTime (now1 + (1000 + jitter E k))
          end
    end
  else
    Some (Throw (Error "Publish completion timeout"), now, k).

(** [waitForPublishCompletion()], entered at [now]. *)
Definition waitForPublishCompletion (E : env) (now : Z)
    : option (completion unit * Z * nat) :=
  poll E 60 0 now now.

(** The looks take time, not less than none, and [Math.random()] is in
    [0, 1). *)
Definition timely (E : env) : Prop :=
  forall k, 0 <= lag E k /\ 0 <= jitter E k < 1000.

(** How a call that took [polls] looks and ended at [t] can have ended. *)
Definition outcome (E : env) (startTime : Z) (r : completion unit) (t : Z)
    (polls : nat) : Prop :=
  match r with
  | Return _ =>
      exists k, polls = S k /\
        (existsb (visible E k) successSelectors = true \/
         (List.find (visible E k) errorSelectors = None /\
          present E k publishPage = false))
  | Throw e =>
      (e = Error "Publish completion timeout" /\
       maxWaitTime <= t - startTime) \/
      (exists k selector, polls = S k /\
         existsb (visible E k) successSelectors = false /\
         List.find (visible E k) errorSelectors = Some selector /\
         e = publish_failed (textContent E k selector))
  end.

End PublishWait.

(** ** Text read off the page *)

Module Units.
Import Links.
Local Open Scope N_scope.

(** [s.trimStart()] and [s.trim()]; the white space of [trim] is that of
    [\s]. *)
Fixpoint trimStart (s : jsstring) : jsstring :=
  match s with
  | [] => []
  | c :: rest => if is_space c then trimStart rest else s
  end.

Definition trim (s : jsstring) : jsstring :=
  reverse (trimStart (reverse (trimStart s))).

(** Neither the first nor the last code unit is white space. *)
Definition tight (s : jsstring) : Prop :=
  match s with [] => True | c :: _ => is_space c = false end /\
  match last s with None => True | Some c => is_space c = false end.

Definition nonempty (s : jsstring) : bool :=
  match s with [] => false | _ :: _ => true end.

Fixpoint strip_prefix (p s : jsstring) : option jsstring :=
  match p, s with
  | [], _ => Some s
  | a :: p', c :: s' => if a =? c then strip_prefix p' s' else None
  | _ :: _, [] => None
  end.

(** [s.includes(sub)] *)
Fixpoint includes (s sub : jsstring) : bool :=
  match strip_prefix sub s with
  | Some _ => true
  | None =>
      match s with
      | [] => false
      | _ :: s' => includes s' sub
      end
  end.

(** [s.replace(pattern, '')] with a string for pattern: the first
    occurrence is removed. *)
Fixpoint remove_first (s pattern : jsstring) : jsstring :=
  match strip_prefix pattern s with
  | Some rest => rest
  | None =>
      match s with
      | [] => []
      | c :: s' => c :: remove_first s' pattern
      end
  end.

Fixpoint take_digits (s : jsstring) : jsstring :=
  match s with
  | [] => []
  | c :: rest => if is_digit c then c :: take_digits rest else []
  end.

(** [s.match(/\d+/)]: the first run of digits. *)
Fixpoint first_digits (s : jsstring) : option jsstring :=
  match s with
  | [] => None
  | c :: rest =>
      if is_digit c then Some (c :: take_digits rest) else first_digits rest
  end.

(** [s.replace(/[^\d]/g, '')] *)
Definition keep_digits (s : jsstring) : jsstring := List.filter is_digit s.

(** [parseInt] of a string of decimal digits; the value is exact as long
    as it is below 2^53. *)
Definition parseInt_digits (digits : jsstring) : Z :=
  fold_left (fun acc c => (10 * acc + (Z.of_N c - 48))%Z) digits 0%Z.

(** [parseInt(element?.textContent?.replace(/[^\d]/g, '') || '0')], the
    counts of a note; [None] is a missing element. *)
Definition count (textContent : option jsstring) : Z :=
  let digits :=
    match textContent with
    | Some text => keep_digits text
    | None => []
    end in
  parseInt_digits (if nonempty digits then digits else units "0").

End Units.

(** ** The notes of a search *)

Module Search.

(** What happens at one note of the result list: the note that the
    [try] block pushed, if it got that far and found one; the error thrown
    in the [try] block, before or after the push; and the error thrown in
    the [catch] block, while closing the dialog. *)
Record item (Note : Type) : Type := MkItem {
  extracted : option Note;
  failure : option exn;
  recovery_failure : option exn
}.
Arguments MkItem {Note} _ _ _.
Arguments extracted {Note} _.
Arguments failure {Note} _.
Arguments recovery_failure {Note} _.

(** The limit of a search: a JavaScript number, which is [NaN], infinite,
    or a ratio of integers (every finite double is one). *)
Inductive number : Type :=
| NaN
| NegInfinity
| Infinity
| Ratio (num : Z) (den : positive).

(** A whole number. *)
Definition whole (n : Z) : number := Ratio n 1.

(** [Math.min(length, x)] *)
Definition min_length (length : nat) (x : number) : number :=
  match x with
  | NaN => NaN
  | NegInfinity => NegInfinity
  | Infinity => whole (Z.of_nat length)
  | Ratio num den =>
      if Z.of_nat length * Z.pos den <=? num then whole (Z.of_nat length)
      else Ratio num den
  end.

(** [i < x], for an index [i] *)
Definition index_below (i : nat) (x : number) : bool :=
  match x with
  | NaN | NegInfinity => false
  | Infinity => true
  | Ratio num den => Z.of_nat i * Z.pos den <? num
  end.

(** The body of the loop for one item: the notes after it, or the error
    that leaves the loop. *)
Definition visit {Note : Type} (it : item Note) (notes : list Note)
    : completion (list Note) :=
  let notes1 :=
    match extracted it with
    | Some note => notes ++ [note]
    | None => notes
    end in
  match failure it with
  | None => Return notes1
  | Some _ =>
      match recovery_failure it with
      | None => Return notes1
      | Some e => Throw e
      end
  end.

(** [for (let i = 0; i < bound; i++)] over the items from index [i] on. *)
Fixpoint process {Note : Type} (i : nat) (bound : number)
    (items : list (item Note)) (notes : list Note)
    : completion (list Note) :=
  match items with
  | [] => Return notes
  | it :: rest =>
      if index_below i bound then
        match visit it notes with
        | Return notes1 => process (S i) bound rest notes1
        | Throw e => Throw e
        end
      else Return notes
  end.

(** The note loop of [searchNotes], with its bound
    [Math.min(noteItems.length, limit)]. *)
Definition collect {Note : Type} (noteItems : list (item Note))
    (limit : number) : completion (list Note) :=
  process 0 (min_length (length noteItems) limit) noteItems [].

(** The items that the loop visits. *)
Fixpoint visited {Note : Type} (i : nat) (bound : number)
    (items : list (item Note)) : list (item Note) :=
  match items with
  | [] => []
  | it :: rest =>
      if index_below i bound then it :: visited (S i) bound rest else []
  end.

Definition processed {Note : Type} (noteItems : list (item Note))
    (limit : number) : list (item Note) :=
  visited 0 (min_length (length noteItems) limit) noteItems.

(** The dialog is closed after every note that fails. *)
Definition recovers {Note : Type} (items : list (item Note)) : Prop :=
  Forall (fun it => failure it <> None -> recovery_failure it = None) items.

(** [count < x + 1]: the count is below the limit by less than one note. *)
Definition within_limit (count : nat) (limit : number) : Prop :=
  match limit with
  | NaN | NegInfinity => count = 0%nat
  | Infinity => True
  | Ratio num den =>
      count = 0%nat \/ (Z.of_nat count - 1) * Z.pos den < num
  end.

End Search.

(** ** The comments of a note *)

Module Comments.
Import Links Units.

Record Comment : Type := MkComment {
  author : jsstring;
  content : jsstring;
  likes : Z;
  time : jsstring
}.

Definition authorSelectors : list string :=
  ["[data-testid=user-name]"; ".username"; ".author-name"; ".user-name";
   ".name"; "[class*=user]"; "[class*=author]"].

Definition contentSelectors : list string :=
  ["[data-testid=comment-content]"; ".comment-text"; ".comment-content";
   ".content"; ".text"; "[class*=content]"; "[class*=text]"].

Definition likesSelectors : list string :=
  ["[data-testid=likes-count]"; ".like-count"; ".likes"; ".like-number";
   ".like"; "[class*=like]"].

Definition timeSelectors : list string :=
  ["time"; ".time"; ".comment-time"; ".timestamp"; ".date";
   "[class*=time]"; "[class*=date]"].

Section Page.

(** The elements of the page, as the script reads them. *)
Variable Element : Type.
Variable querySelector : Element -> string -> option Element.
Variable descendants : Element -> list Element.
Variable textContent : Element -> jsstring.

(** The trimmed text of the first selector that finds an element with
    text; the empty string when none does. *)
Fixpoint first_text (item : Element) (selectors : list string) : jsstring :=
  match selectors with
  | [] => []
  | selector :: rest =>
      match querySelector item selector with
      | Some element =>
          if nonempty (trim (textContent element))
          then trim (textContent element)
          else first_text item rest
      | None => first_text item rest
      end
  end.

(** The fallback for the author: the first element whose text is short,
    without a space, and all its own. *)
Fixpoint name_like (elements : list Element) : jsstring :=
  match elements with
  | [] => []
  | el :: rest =>
      let text := trim (textContent el) in
      if nonempty text && (length text <? 50)%nat &&
         negb (includes text [32%N]) &&
         bool_decide (textContent el = text)
      then text
      else name_like rest
  end.

(** The number of the first selector that finds an element whose text
    has digits. *)
Fixpoint first_number (item : Element) (selectors : list string) : Z :=
  match selectors with
  | [] => 0%Z
  | selector :: rest =>
      match querySelector item selector with
      | Some element =>
          if nonempty (textContent element) then
            match first_digits (textContent element) with
            | Some digits => parseInt_digits digits
            | None => first_number item rest
            end
          else first_number item rest
      | None => first_number item rest
      end
  end.

Definition found_author (item : Element) : jsstring :=
  let author := first_text item authorSelectors in
  if nonempty author then author else name_like (descendants item).

Definition found_content (item : Element) : jsstring :=
  let author := found_author item in
  let content := first_text item contentSelectors in
  if nonempty content then content
  else
    let itemText := trim (textContent item) in
    if (10 <? length itemText)%nat && (length itemText <? 1000)%nat &&
       negb (bool_decide (author = itemText))
    then trim (remove_first itemText author)
    else [].

(** The body of the loop over the items: the record it pushes, if it
    pushes one. *)
Definition extract_item (item : Element) : option Comment :=
  let author := found_author item in
  let content := found_content item in
  let likes := first_number item likesSelectors in
  let time := first_text item timeSelectors in
  if nonempty author || nonempty content then
    Some (MkComment (if nonempty author then author else units "Unknown")
                    content likes time)
  else None.

Definition extract (items : list Element) : list Comment :=
  omap extract_item items.

End Page.

End Comments.

(** ** Waiting for the comments *)

Module CommentWait.

(** How [page.waitForSelector(selector, { timeout })] ends: the element
    is there after [after] milliseconds, or the call rejects after
    [after] milliseconds, as it does when the timeout has run out. *)
Inductive awaited : Type :=
| Appeared (after : Z)
| Gave_up (after : Z) (e : exn).

(** What the page does: how the wait for a selector ends, what the look
    for comment items under it gives, and the random part, in
    milliseconds, of the k-th pause per second of its range. *)
Record env : Type := MkEnv {
  waitForSelector : string -> awaited;
  hasComments : string -> completion bool;
  scrolled : completion unit;
  jitter : nat -> Z
}.

(** The time spent waiting, and the number of pauses taken. *)
Record clock : Type := MkClock { elapsed : Z; pauses : nat }.

Definition selectors : list string :=
  [ "[role=dialog] [role=list]"; ".comment-list"; ".comments-container";
    "[data-testid=comments]"; ".comment-section"; ".comment-feed";
    ".note-comments"; ".comment-items"; ".notes-detail .comment-list";
    ".detail-comments .comment-list"; "[class*=comment] [class*=list]";
    "[class*=comment]"; "[role=dialog]"; ".modal .content" ].

Definition lastResort : string := "[role=dialog], .modal, .popup".

(** [randomDelay(min, max)], in milliseconds: [jitter] is
    [Math.random() * 1000]. *)
Definition randomDelay (E : env) (min max : Z) (c : clock) : clock :=
  MkClock (elapsed c + min * 1000 + (max - min) * jitter E (pauses c))
          (S (pauses c)).

Definition spend (ms : Z) (c : clock) : clock :=
  MkClock (elapsed c + ms) (pauses c).

(** The loop over the selectors: [true] when comment items were found
    and the function returns. *)
Fixpoint try_selectors (E : env) (remaining : list string) (c : clock)
    : bool * clock :=
  match remaining with
  | [] => (false, c)
  | selector :: rest =>
      match waitForSelector E selector with
      | Gave_up after _ => try_selectors E rest (spend after c)
      | Appeared after =>
          let c1 := randomDelay E 2 4 (spend after c) in
          match hasComments E selector with
          | Return true => (true, c1)
          | Return false => try_selectors E rest c1
          | Throw _ => try_selectors E rest c1
          end
      end
  end.

(** [waitForCommentsWithFallback()]: the time it has taken when it
    returns.  Every error is caught. *)
Definition waitForCommentsWithFallback (E : env) (c : clock) : clock :=
  match try_selectors E selectors c with
  | (true, c1) => c1
  | (false, c1) =>
      match waitForSelector E lastResort with
      | Gave_up after _ => spend after c1
      | Appeared after =>
          let c2 := randomDelay E 3 5 (spend after c1) in
          match scrolled E with
          | Return _ => randomDelay E 1 2 c2
          | Throw _ => c2
          end
      end
  end.

(** The timeout the source gives to the wait for a selector. *)
Definition timeout_of (selector : string) : Z :=
  if String.eqb selector lastResort then 15000 else 8000.

(** The waits end within their timeouts, and [Math.random()] is in
    [0, 1). *)
Definition punctual (E : env) : Prop :=
  (forall selector,
     match waitForSelector E selector with
     | Appeared after | Gave_up after _ =>
         0 <= after <= timeout_of selector
     end) /\
  (forall k, 0 <= jitter E k < 1000).

(** No selector ever matches: every wait runs into its timeout. *)
Definition nothing_there (E : env) : Prop :=
  forall selector,
    exists e, waitForSelector E selector = Gave_up (timeout_of selector) e.

End CommentWait.

(** * Properties *)

(** ** The content cache *)

Module CacheFacts.
Import RedNoteTools.

Lemma get_after_set (c : gmap string entry) (k : string) (v : any) (t0 t : Z) :
  getCachedContent (setCachedContent c t0 k v) t k =
  if t - t0 <? CACHE_TTL then v else JsNull.
Proof.
  unfold getCachedContent, setCachedContent.
  rewrite lookup_insert_eq. reflexivity.
Qed.

Lemma reads_keep_cache (reads : list cache_op) :
  forall st : gmap string entry * list any,
    forallb is_get reads = true ->
    fst (foldl cache_step st reads) = fst st.
Proof.
  induction reads as [|o reads IH]; intros st Hall; [reflexivity|].
  simpl in Hall. apply andb_prop in Hall as [Ho Hrest].
  destruct o as [key now|key d now]; [|discriminate].
  simpl. rewrite (IH _ Hrest). reflexivity.
Qed.

(** C7.  Storing [v] under [k] at [t0] and reading [k] at once gives [v],
    and so does any read before the TTL has elapsed; a read made when
    [now - storedAt >= CACHE_TTL] gives [null]; reads in between, hits
    included, leave the stored timestamp at [t0], so they do not postpone the
    expiry; and a second store replaces the entry whatever it was. *)
Theorem cache_set_get_ttl (c : gmap string entry) (k : string) (v v' : any)
    (t0 t1 t2 t3 : Z) (reads : list cache_op) :
  t1 - t0 < CACHE_TTL ->
  CACHE_TTL <= t2 - t0 ->
  forallb is_get reads = true ->
  let stored := setCachedContent c t0 k v in
  getCachedContent stored t0 k = v /\
  getCachedContent stored t1 k = v /\
  getCachedContent stored t2 k = JsNull /\
  fst (cache_run reads stored) !! k = Some (MkEntry v t0) /\
  getCachedContent (fst (cache_run reads stored)) t2 k = JsNull /\
  setCachedContent stored t3 k v' = setCachedContent c t3 k v'.
Proof.
  intros Hfresh Hold Hreads stored. unfold cache_run.
  rewrite (reads_keep_cache reads _ Hreads). simpl. unfold stored.
  rewrite !get_after_set.
  assert (Hnow : (t0 - t0 <? CACHE_TTL) = true)
    by (apply Z.ltb_lt; unfold CACHE_TTL; lia).
  assert (H1 : (t1 - t0 <? CACHE_TTL) = true) by (apply Z.ltb_lt; lia).
  assert (H2 : (t2 - t0 <? CACHE_TTL) = false) by (apply Z.ltb_ge; lia).
  rewrite Hnow, H1, H2.
  repeat split.
  - unfold setCachedContent. apply lookup_insert_eq.
  - unfold setCachedContent. apply insert_insert_eq.
Qed.

(** An entry stored at 1000 over an older one, read three times (two hits
    on the key, the last 1 ms before the expiry), then read at the expiry. *)
Lemma cache_set_get_ttl_witness :
  let c := setCachedContent ∅ 5 "note:u" (JsString "old") in
  let reads := [CGet "note:u" 1000; CGet "search:x:10" 60000;
                CGet "note:u" 1800999] in
  let stored := setCachedContent c 1000 "note:u" (JsNumber 7) in
  snd (cache_run reads stored) = [JsNumber 7; JsNull; JsNumber 7] /\
  getCachedContent stored 1000 "note:u" = JsNumber 7 /\
  getCachedContent stored 1800999 "note:u" = JsNumber 7 /\
  getCachedContent stored 1801000 "note:u" = JsNull /\
  fst (cache_run reads stored) !! "note:u" = Some (MkEntry (JsNumber 7) 1000) /\
  getCachedContent (fst (cache_run reads stored)) 1801000 "note:u" = JsNull /\
  setCachedContent stored 2000 "note:u" JsNull
    = setCachedContent c 2000 "note:u" JsNull.
Proof.
  intros c reads stored. split; [reflexivity|].
  apply (cache_set_get_ttl c "note:u" (JsNumber 7) JsNull 1000 1800999
           1801000 2000 reads).
  - unfold CACHE_TTL. lia.
  - unfold CACHE_TTL. lia.
  - reflexivity.
Defined.

End CacheFacts.

(** ** The rate limiter *)

Module RateLimitFacts.
Import RedNoteTools.

Lemma prune_within (now last : Z) (ts : list Z) :
  last <= now ->
  (length (prune now ts) <= length (within_hour last ts))%nat.
Proof.
  intros Hle. unfold prune, within_hour.
  induction ts as [|x ts IH]; [reflexivity|].
  rewrite !filter_cons.
  destruct (decide (now - x < 3600000)) as [Hin|Hout].
  - destruct (decide (last - x < 3600000)) as [_|Hno]; simpl; lia.
  - destruct (decide (last - x < 3600000)); simpl; lia.
Qed.

Lemma within_hour_app (t : Z) (ts : list Z) :
  (length (within_hour t (ts ++ [t])) <= length ts + 1)%nat.
Proof.
  unfold within_hour. rewrite filter_app, length_app.
  pose proof (length_filter (fun x => t - x < 3600000) ts) as H1.
  pose proof (length_filter (fun x => t - x < 3600000) [t]) as H2.
  simpl in H2. lia.
Qed.

Lemma within_hour_drop_oldest (t oldest : Z) (rest : list Z) :
  3600000 <= t - oldest ->
  (length (within_hour t ((oldest :: rest) ++ [t])) <= length rest + 1)%nat.
Proof.
  intros Hout. unfold within_hour. simpl. rewrite filter_cons.
  destruct (decide (t - oldest < 3600000)) as [Hin|_]; [lia|].
  apply (within_hour_app t rest).
Qed.

Lemma prune_head (now : Z) (ts : list Z) :
  MAX_REQUESTS_PER_HOUR <= Z.of_nat (length (prune now ts)) ->
  now - default 0 (head (prune now ts)) < 3600000.
Proof.
  intros Hfull.
  destruct (prune now ts) as [|x l] eqn:Hp.
  - unfold MAX_REQUESTS_PER_HOUR in Hfull. simpl in Hfull. lia.
  - simpl.
    assert (x ∈ prune now ts) as Hx by (rewrite Hp; apply list_elem_of_here).
    unfold prune in Hx. apply list_elem_of_filter in Hx. tauto.
Qed.

(** What one undisturbed call does, case by case. *)
Lemma checkRateLimit_cases (now lat1 lat2 : Z) (s : limiter) :
  let pruned := prune now (requestTimestamps s) in
  exists T,
    checkRateLimit now lat1 lat2 s
      = MkLimiter T (requestCount s + 1) (pruned ++ [T]) /\
    (0 <= lat1 -> 0 <= lat2 ->
     now <= T /\
     (now - lastRequestTime s < MIN_INTERVAL ->
      lastRequestTime s + MIN_INTERVAL <= T) /\
     (MAX_REQUESTS_PER_HOUR <= Z.of_nat (length pruned) ->
      default 0 (head pruned) + 3600000 + 1000 <= T)).
Proof.
  intros pruned. unfold checkRateLimit, step. fold pruned.
  destruct (MAX_REQUESTS_PER_HOUR <=? Z.of_nat (length pruned)) eqn:Hq.
  - apply Z.leb_le in Hq. pose proof (prune_head _ _ Hq) as Hhd.
    fold pruned in Hhd.
    unfold interval_check; simpl.
    destruct (now - lastRequestTime s <? MIN_INTERVAL) eqn:Hi; simpl;
      (eexists; split; [reflexivity|]); intros H1 H2;
      [apply Z.ltb_lt in Hi | apply Z.ltb_ge in Hi];
      unfold MIN_INTERVAL in *; repeat split; lia.
  - apply Z.leb_gt in Hq.
    unfold interval_check; simpl.
    destruct (now - lastRequestTime s <? MIN_INTERVAL) eqn:Hi; simpl;
      (eexists; split; [reflexivity|]); intros H1 H2;
      [apply Z.ltb_lt in Hi | apply Z.ltb_ge in Hi];
      unfold MIN_INTERVAL in *; repeat split; lia.
Qed.

(** The timestamp a call records is the clock reading [granted_at]. *)
Lemma checkRateLimit_grant (now lat1 lat2 : Z) (s : limiter) :
  checkRateLimit now lat1 lat2 s
  = MkLimiter (granted_at now lat1 lat2 s) (requestCount s + 1)
      (prune now (requestTimestamps s) ++ [granted_at now lat1 lat2 s]).
Proof.
  destruct (checkRateLimit_cases now lat1 lat2 s) as (T & HT & _).
  unfold granted_at. rewrite HT. reflexivity.
Qed.

(** An undisturbed call entered after the last grant waits out the
    remaining interval. *)
Lemma sequential_min_interval (now lat1 lat2 : Z) (s : limiter) :
  lastRequestTime s <= now -> 0 <= lat1 -> 0 <= lat2 ->
  MIN_INTERVAL <= granted_at now lat1 lat2 s - lastRequestTime s.
Proof.
  intros Hnow H1 H2.
  destruct (checkRateLimit_cases now lat1 lat2 s) as (T & HT & Hprops).
  destruct (Hprops H1 H2) as (HnowT & Hint & _).
  unfold granted_at. rewrite HT. simpl.
  destruct (Z.lt_ge_cases (now - lastRequestTime s) MIN_INTERVAL); lia.
Qed.

(** An undisturbed call entered after the last grant keeps the quota. *)
Lemma sequential_quota (now lat1 lat2 : Z) (s : limiter) :
  lastRequestTime s <= now -> 0 <= lat1 -> 0 <= lat2 ->
  quota_ok s ->
  Z.of_nat (length (prune now (requestTimestamps s)))
    <= MAX_REQUESTS_PER_HOUR /\
  quota_ok (checkRateLimit now lat1 lat2 s).
Proof.
  intros Hnow H1 H2 Hq. unfold quota_ok in *.
  pose proof (prune_within now _ (requestTimestamps s) Hnow) as Hpr.
  split; [lia|].
  destruct (checkRateLimit_cases now lat1 lat2 s) as (T & HT & Hprops).
  destruct (Hprops H1 H2) as (HnowT & _ & Hhour).
  rewrite HT. simpl.
  destruct (Z.lt_ge_cases
              (Z.of_nat (length (prune now (requestTimestamps s))))
              MAX_REQUESTS_PER_HOUR) as [Hlt|Hge].
  - pose proof (within_hour_app T (prune now (requestTimestamps s))). lia.
  - specialize (Hhour Hge).
    destruct (prune now (requestTimestamps s)) as [|oldest rest] eqn:Hp.
    + unfold MAX_REQUESTS_PER_HOUR in Hge. simpl in Hge. lia.
    + simpl in Hhour, Hpr.
      pose proof (within_hour_drop_oldest T oldest rest) as Hdrop.
      simpl in Hdrop |- *. lia.
Qed.

Lemma run_checks_quota (calls : list arrival) (s : limiter) :
  sequential calls s -> quota_ok s -> quota_ok (run_checks calls s).
Proof.
  revert s. induction calls as [|a calls IH]; intros s Hseq Hq; [exact Hq|].
  destruct Hseq as (Hnow & H1 & H2 & Hrest).
  simpl. apply IH; [exact Hrest|].
  apply sequential_quota; assumption.
Qed.

Lemma grants_spaced (calls : list arrival) (s : limiter) :
  sequential calls s -> spaced (lastRequestTime s :: grants calls s) = true.
Proof.
  revert s. induction calls as [|a calls IH]; intros s Hseq; [reflexivity|].
  destruct Hseq as (Hnow & H1 & H2 & Hrest).
  change (grants (a :: calls) s) with
    (lastRequestTime (checkRateLimit (at_time a) (latency1 a) (latency2 a) s)
     :: grants calls (checkRateLimit (at_time a) (latency1 a) (latency2 a) s)).
  change (spaced (?x :: ?y :: ?l)) with
    ((MIN_INTERVAL <=? y - x) && spaced (y :: l)).
  rewrite (IH _ Hrest), andb_true_r.
  apply Z.leb_le.
  apply (sequential_min_interval (at_time a) (latency1 a) (latency2 a) s);
    assumption.
Qed.

(** Twenty-one calls made back to back, each entered when the one before
    has returned: the first twenty are granted 10 s apart, the last one
    only when the first grant is more than an hour old. *)
Example back_to_back_calls_are_paced :
  let calls := map (fun j => MkArrival (10000 * Z.of_nat j) 0 0) (seq 0 21) in
  sequential calls limiter0 /\
  grants calls limiter0
    = map (fun j => 10000 * Z.of_nat j) (seq 1 20) ++ [3621000] /\
  spaced (0 :: grants calls limiter0) = true /\
  quota_ok (run_checks calls limiter0).
Proof.
  intros calls.
  assert (sequential calls limiter0) as Hseq
    by (vm_compute; repeat split; discriminate).
  split; [exact Hseq|]. split; [reflexivity|]. split.
  - apply (grants_spaced calls limiter0 Hseq).
  - apply (run_checks_quota calls limiter0 Hseq).
    unfold quota_ok, MAX_REQUESTS_PER_HOUR. simpl. lia.
Qed.

(** C6, on overlapping calls.  A first call is granted at 100000.  Two
    more calls are entered at 101000 and 102000; each reads the same
    [lastRequestTime], sleeps for its own remainder of the interval, and both
    record their timestamp at 110000: the two consecutive grants are 0 ms
    apart.  (For calls that do not overlap the interval holds:
    [grants_spaced].) *)
Theorem overlapping_calls_break_min_interval :
  let schedule := [MkTurn 0 100000; MkTurn 1 101000; MkTurn 2 102000;
                   MkTurn 1 110000; MkTurn 2 110000] in
  let p0 := MkPool limiter0 [Entry; Entry; Entry] in
  let p := run_pool schedule p0 in
  monotone 0 schedule = true /\
  all_ready schedule p0 = true /\
  callers (run_pool (take 3 schedule) p0)
    = [Returned; SleepInterval 110000; SleepInterval 110000] /\
  callers p = [Returned; Returned; Returned] /\
  requestTimestamps (shared p) = [100000; 110000; 110000] /\
  spaced (requestTimestamps (shared p)) = false.
Proof. vm_compute. repeat split. Qed.

(** C5, on overlapping calls.  Twenty calls are granted 10 s apart from
    100000 to 290000.  Two more are entered at 295000 and 296000: both
    find the quota full and sleep until 3701000, then both wait out their
    remainder of the interval and record at 3705000 and 3706000.  The
    sequence then holds 21 timestamps within the hour that ends at the last
    grant, and the pruning step of the next call, entered at 3707000, keeps
    all 21.  (For calls that do not overlap the quota holds:
    [run_checks_quota].) *)
Theorem overlapping_calls_break_hourly_quota :
  let schedule :=
    map (fun j => MkTurn j (100000 + 10000 * Z.of_nat j)) (seq 0 20)
    ++ [MkTurn 20 295000; MkTurn 21 296000;
        MkTurn 20 3701000; MkTurn 21 3701000;
        MkTurn 21 3705000; MkTurn 20 3706000] in
  let p0 := MkPool limiter0 (replicate 23 Entry) in
  let p := run_pool schedule p0 in
  let p' := resume p (MkTurn 22 3707000) in
  monotone 0 (schedule ++ [MkTurn 22 3707000]) = true /\
  all_ready (schedule ++ [MkTurn 22 3707000]) p0 = true /\
  callers p = replicate 22 Returned ++ [Entry] /\
  lastRequestTime (shared p) = 3706000 /\
  length (within_hour 3706000 (requestTimestamps (shared p))) = 21%nat /\
  requestTimestamps (shared p')
    = map (fun j => 110000 + 10000 * Z.of_nat j) (seq 0 19)
      ++ [3705000; 3706000] /\
  length (requestTimestamps (shared p')) = 21%nat.
Proof. vm_compute. repeat split. Qed.

End RateLimitFacts.

(** ** The retry executor *)

Module RetryFacts.
Import RedNoteTools.

Lemma retry_from_unfold {T : Type} (E : env) (operation : M T)
    (operationName : string) (maxRetries attempt : Z) (remaining : nat)
    (w : world) :
  retry_from E operation operationName maxRetries attempt (S remaining) w =
  match operation (attempting operationName attempt w) with
  | (Return v, w1) => (Return v, w1)
  | (Throw error, w1) =>
      if attempt =? maxRetries then (Throw error, w1)
      else
        let delay := 2 ^ attempt * 1000 + jitter E (draws w1) in
        retry_from E operation operationName maxRetries (attempt + 1)
          remaining
          (MkWorld (clock w1 + delay) (contentCache w1) (limit w1)
             (interactions w1) (S (draws w1)) (trace w1 ++ [EvBackoff delay]))
  end.
Proof.
  simpl. unfold try_catch, mbind, M_bind, emit, attempting. simpl.
  destruct (operation _) as [[v|error] w1]; [reflexivity|].
  destruct (attempt =? maxRetries); reflexivity.
Qed.

Lemma retry_from_exhausted {T : Type} (E : env) (operation : M T)
    (operationName : string) (maxRetries : Z) (remaining : nat) :
  always_fails operation ->
  forall (attempt : Z) (w : world),
    attempt + Z.of_nat remaining = maxRetries ->
    exists w_last,
      retry_from E operation operationName maxRetries attempt (S remaining) w
      = operation (attempting operationName maxRetries w_last).
Proof.
  intros Hfail.
  induction remaining as [|remaining IH]; intros attempt w Hsum.
  - exists w. rewrite retry_from_unfold.
    assert (attempt = maxRetries) as -> by lia.
    destruct (Hfail (attempting operationName maxRetries w))
      as (error & w' & Hop).
    rewrite Hop, Z.eqb_refl. reflexivity.
  - rewrite retry_from_unfold.
    destruct (Hfail (attempting operationName attempt w))
      as (error & w' & Hop).
    rewrite Hop.
    assert ((attempt =? maxRetries) = false) as -> by (apply Z.eqb_neq; lia).
    cbv zeta. apply IH. lia.
Qed.

(** C2, as the code has it.  When every one of the [maxRetries >= 1]
    attempts fails, the call fails with the very error that the last
    attempt threw, in the world that attempt left: the error is passed on as
    it is, not wrapped in an error type of the executor.  The error
    ["Max retries exceeded"] is only thrown when [maxRetries < 1], where the
    operation is never invoked. *)
Theorem retry_exhausted_rethrows_last_error {T : Type} (E : env)
    (operation : M T) (operationName : string) (maxRetries : Z) (w : world) :
  always_fails operation ->
  (1 <= maxRetries ->
   exists w_last error w',
     operation (attempting operationName maxRetries w_last)
       = (Throw error, w') /\
     retryWithBackoff E operation operationName maxRetries w
       = (Throw error, w')) /\
  (maxRetries < 1 ->
   retryWithBackoff E operation operationName maxRetries w
     = (Throw (Error ("Max retries exceeded for " +:+ operationName)), w)).
Proof.
  intros Hfail. split.
  - intros Hpos. unfold retryWithBackoff.
    destruct (Z.to_nat maxRetries) as [|remaining] eqn:Hn; [lia|].
    destruct (retry_from_exhausted E operation operationName maxRetries
                remaining Hfail 1 w ltac:(lia)) as (w_last & Hrun).
    destruct (Hfail (attempting operationName maxRetries w_last))
      as (error & w' & Hop).
    exists w_last, error, w'. split; [exact Hop|].
    rewrite Hrun. exact Hop.
  - intros Hneg. unfold retryWithBackoff.
    replace (Z.to_nat maxRetries) with 0%nat by lia. reflexivity.
Qed.

(** A page load that times out, every time. *)
Lemma retry_exhausted_rethrows_last_error_witness :
  let raw := MkExn "TimeoutError" "page.goto: Timeout 30000ms exceeded." in
  let E := MkEnv (fun _ => Throw raw) (fun _ => 250) (fun p => p)
             (fun _ => Some true) in
  (1 <= 3 ->
   exists w_last error w',
     browse E (attempting "getNoteContent" 3 w_last) = (Throw error, w') /\
     retryWithBackoff E (browse E) "getNoteContent" 3 world0
       = (Throw error, w')) /\
  (3 < 1 ->
   retryWithBackoff E (browse E) "getNoteContent" 3 world0
     = (Throw (Error ("Max retries exceeded for " +:+ "getNoteContent")),
        world0)).
Proof.
  intros raw E.
  apply (retry_exhausted_rethrows_last_error E (browse E) "getNoteContent" 3
           world0).
  intros w. exists raw. eexists. reflexivity.
Defined.

(** C2, as stated, fails: after three failed attempts the caller gets the
    raw [TimeoutError] of the page load, not an error of a type
    [RetriesExhausted] that would wrap it; and so does the caller of the
    public operation around it. *)
Lemma retry_exhausted_is_not_wrapped :
  let raw := MkExn "TimeoutError" "page.goto: Timeout 30000ms exceeded." in
  let E := MkEnv (fun _ => Throw raw) (fun _ => 250) (fun p => p)
             (fun _ => Some true) in
  fst (retryWithBackoff E (browse E) "getNoteContent" 3 world0) = Throw raw /\
  fst (getNoteContent E "https://www.xiaohongshu.com/explore/1" world0)
    = Throw raw /\
  typed "RetriesExhausted" raw = false /\
  ~ (exists wrapped w',
       retryWithBackoff E (browse E) "getNoteContent" 3 world0
         = (Throw wrapped, w') /\
       typed "RetriesExhausted" wrapped = true).
Proof.
  intros raw E. split; [reflexivity|]. split; [reflexivity|].
  split; [reflexivity|].
  intros (wrapped & w' & Hrun & Htyped).
  assert (fst (retryWithBackoff E (browse E) "getNoteContent" 3 world0)
          = Throw raw) as Hfst by reflexivity.
  rewrite Hrun in Hfst. simpl in Hfst.
  injection Hfst as ->. discriminate Htyped.
Qed.

End RetryFacts.

(** ** The public content operations *)

Module ContentFacts.
Import RedNoteTools.

Lemma fetch_and_store_trace (E : env) (cacheKey : string) (w : world) :
  exists evs,
    trace (snd (fetch_and_store E cacheKey w)) = trace w ++ evs /\
    forallb fetch_event evs = true.
Proof.
  unfold fetch_and_store, mbind, M_bind, browse, cache_set, mret, M_ret.
  simpl.
  destruct (browser_outcome E (interactions w)) as [v|e]; simpl.
  - exists [EvBrowser (interactions w); EvCacheStore cacheKey].
    rewrite <- app_assoc. split; reflexivity.
  - exists [EvBrowser (interactions w)]. split; reflexivity.
Qed.

Lemma retry_fetch_trace (E : env) (cacheKey operationName : string)
    (maxRetries : Z) (remaining : nat) :
  forall (attempt : Z) (w : world),
  exists evs,
    trace (snd (retry_from E (fetch_and_store E cacheKey) operationName
                  maxRetries attempt (S remaining) w))
      = trace w ++ EvAttempt operationName attempt :: evs /\
    forallb fetch_event evs = true.
Proof.
  induction remaining as [|remaining IH]; intros attempt w;
    rewrite RetryFacts.retry_from_unfold;
    destruct (fetch_and_store_trace E cacheKey
                (attempting operationName attempt w)) as (evs & Htr & Hall);
    destruct (fetch_and_store E cacheKey (attempting operationName attempt w))
      as [[v|error] w1] eqn:Hop; cbn [snd attempting trace] in Htr;
    try (exists evs; cbn [snd]; rewrite Htr, <- app_assoc; split;
         [reflexivity|exact Hall]);
    (destruct (attempt =? maxRetries);
     [exists evs; cbn [snd]; rewrite Htr, <- app_assoc; split;
      [reflexivity|exact Hall]|]);
    cbv zeta.
  - exists (evs ++ [EvBackoff (2 ^ attempt * 1000 + jitter E (draws w1))]).
    cbn [retry_from throw snd trace].
    rewrite Htr, <- !app_assoc. split; [reflexivity|].
    rewrite forallb_app, Hall. reflexivity.
  - match goal with
    | |- context [retry_from _ _ _ _ _ _ ?w2] =>
        destruct (IH (attempt + 1) w2) as (evs' & Htr' & Hall')
    end.
    rewrite Htr'. cbn [trace]. rewrite Htr.
    exists (evs ++ EvBackoff (2 ^ attempt * 1000 + jitter E (draws w1))
              :: EvAttempt operationName (attempt + 1) :: evs').
    split.
    + rewrite <- !app_assoc. reflexivity.
    + rewrite forallb_app, Hall. simpl. exact Hall'.
Qed.

(** The common shape of the three methods. *)
Lemma content_operation_order (E : env) (cacheKey operationName : string)
    (w : world) :
  cache_admission_fetch cacheKey operationName
    (truthy (getCachedContent (contentCache w) (clock w) cacheKey))
    (events_of
       (cached ← cache_get cacheKey;
        if truthy cached then mret cached
        else rate_limit ;;
             retryWithBackoff E (fetch_and_store E cacheKey) operationName 3)
       w).
Proof.
  unfold cache_admission_fetch, events_of, mbind, M_bind, cache_get. simpl.
  destruct (truthy (getCachedContent (contentCache w) (clock w) cacheKey)).
  - simpl. rewrite drop_app_length. reflexivity.
  - unfold rate_limit, retryWithBackoff.
    change (Z.to_nat 3) with 3%nat.
    match goal with
    | |- context [retry_from _ _ _ _ _ _ ?w2] =>
        destruct (retry_fetch_trace E cacheKey operationName 3 2 1 w2)
          as (evs & Htr & Hall)
    end.
    cbn [snd] in Htr |- *. rewrite Htr. cbn [trace].
    exists evs. split; [|exact Hall].
    rewrite <- !app_assoc. rewrite drop_app_length. reflexivity.
Qed.

(** [logPerformance] passes the completion and the world on unchanged. *)
Lemma logPerformance_id {T : Type} (operation : string) (fn : M T) (w : world) :
  logPerformance operation fn w = fn w.
Proof.
  unfold logPerformance, try_catch, mbind, M_bind, mret, M_ret, throw.
  destruct (fn w) as [[v|e] w1]; reflexivity.
Qed.

(** C1, as the code has it.  In [searchNotes], [getNoteContent] and
    [getNoteComments] the cache lookup comes first.  On a hit the cached
    value is returned and neither the admission check nor the fetch runs.
    On a miss the admission check ([checkRateLimit]) runs next, once, and
    the retry-wrapped fetch runs only after it. *)
Theorem content_operations_cache_admission_fetch (E : env)
    (keywords url : string) (limit : Z) (w : world) :
  let hit key := truthy (getCachedContent (contentCache w) (clock w) key) in
  cache_admission_fetch ("search:" +:+ keywords +:+ ":" +:+ pretty limit)
    "searchNotes"
    (hit ("search:" +:+ keywords +:+ ":" +:+ pretty limit))
    (events_of (searchNotes E keywords limit) w) /\
  cache_admission_fetch ("note:" +:+ url) "getNoteContent"
    (hit ("note:" +:+ url))
    (events_of (getNoteContent E url) w) /\
  cache_admission_fetch ("comments:" +:+ url) "getNoteComments"
    (hit ("comments:" +:+ url))
    (events_of (getNoteComments E url) w).
Proof.
  intros hit. unfold hit, events_of, searchNotes, getNoteContent,
    getNoteComments.
  rewrite !logPerformance_id.
  repeat split; apply content_operation_order.
Qed.

(** C1, as stated, fails: on a cold cache the admission check of
    [searchNotes] comes after the cache lookup, not before it; and a second,
    identical call is served from the cache with no admission check at all. *)
Lemma admission_check_is_not_first :
  let E := MkEnv (fun _ => Return (JsArray [])) (fun _ => 250) (fun p => p)
             (fun _ => Some true) in
  let lookup := EvCacheLookup "search:cat:10" in
  let first_call := searchNotes E "cat" 10 in
  let w1 := snd (first_call world0) in
  events_of first_call world0
    = [lookup; EvRateLimit; EvAttempt "searchNotes" 1; EvBrowser 0;
       EvCacheStore "search:cat:10"] /\
  precedes EvRateLimit lookup (events_of first_call world0) = false /\
  precedes lookup EvRateLimit (events_of first_call world0) = true /\
  events_of (searchNotes E "cat" 10) w1 = [lookup].
Proof. vm_compute. repeat split. Qed.

End ContentFacts.

(** ** Publishing *)

Module PublishFacts.
Import RedNoteTools.

Lemma trimStart_blank (s : string) : blank s = true -> trimStart s = "".
Proof.
  induction s as [|c s IH]; intros Hb; [reflexivity|].
  simpl in Hb |- *. apply andb_prop in Hb as [Hc Hs].
  rewrite Hc. apply IH, Hs.
Qed.

Lemma trim_blank (s : string) : blank s = true -> trim s = "".
Proof.
  intros Hb. unfold trim. rewrite (trimStart_blank s Hb). reflexivity.
Qed.

Lemma validate_each_length (E : env) (imagePaths : list string) :
  forall validPaths checked,
    validate_each E imagePaths validPaths = Return checked ->
    length checked = (length validPaths + length imagePaths)%nat.
Proof.
  induction imagePaths as [|imagePath rest IH]; intros validPaths checked Hv.
  - simpl in Hv. injection Hv as <-. simpl. lia.
  - cbn [validate_each] in Hv. cbv zeta in Hv.
    destruct (fsStat E (resolvePath E imagePath)) as [[|]|];
      cbn [negb] in Hv; try discriminate.
    destruct (String.eqb (extension imagePath) "" ||
              negb (includes allowedExtensions (extension imagePath)));
      [discriminate|].
    apply IH in Hv. rewrite length_app in Hv. simpl in *. lia.
Qed.

Lemma validate_each_rejects (E : env) (imagePaths : list string)
    (bad : string) :
  bad ∈ imagePaths ->
  missing E bad \/ not_a_file E bad \/ unsupported bad ->
  forall validPaths,
  exists e, validate_each E imagePaths validPaths = Throw e.
Proof.
  intros Hin Hbad.
  induction imagePaths as [|imagePath rest IH]; intros validPaths.
  - apply elem_of_nil in Hin. contradiction.
  - cbn [validate_each]. cbv zeta.
    destruct (fsStat E (resolvePath E imagePath)) as [[|]|] eqn:Hstat;
      cbn [negb]; [|eexists; reflexivity|eexists; reflexivity].
    destruct (String.eqb (extension imagePath) "" ||
              negb (includes allowedExtensions (extension imagePath)))
      eqn:Hext; [eexists; reflexivity|].
    apply elem_of_cons in Hin as [->|Hin]; [|apply IH, Hin].
    exfalso. unfold missing, not_a_file, unsupported in Hbad.
    rewrite Hstat in Hbad. apply orb_false_elim in Hext as [_ Hinc].
    apply negb_false_iff in Hinc.
    destruct Hbad as [Hb|[Hb|Hb]]; congruence.
Qed.

(** C10.  [publishNote] checks its arguments first: a blank title, a blank
    content, an empty image list, an image path that does not exist, is not
    a regular file or has an extension outside jpg, jpeg, png, gif, webp,
    or more than 18 images make it throw, and the world is then as it was:
    no admission check, no retry, no browser interaction has taken place. *)
Theorem publishNote_validates_first (E : env) (title content : string)
    (imagePaths : list string) (tags : string) (w : world) :
  invalid_request E title content imagePaths ->
  exists e, publishNote E title content imagePaths tags w = (Throw e, w).
Proof.
  intros Hinv. unfold publishNote.
  rewrite ContentFacts.logPerformance_id.
  destruct (String.eqb (trim title) "") eqn:Ht; [eexists; reflexivity|].
  destruct (String.eqb (trim content) "") eqn:Hc; [eexists; reflexivity|].
  destruct imagePaths as [|imagePath rest]; [eexists; reflexivity|].
  cbn [length Nat.eqb].
  unfold mbind, M_bind, validateImagePaths.
  destruct Hinv as [Hb|[Hb|[Hb|[Hb|Hb]]]].
  - rewrite (trim_blank _ Hb) in Ht. discriminate.
  - rewrite (trim_blank _ Hb) in Hc. discriminate.
  - discriminate.
  - destruct Hb as (bad & Hin & Hbad).
    destruct (validate_each_rejects E _ bad Hin Hbad []) as (e & ->).
    exists e. reflexivity.
  - destruct (validate_each E (imagePath :: rest) []) as [checked|e] eqn:Hv;
      [|exists e; reflexivity].
    apply validate_each_length in Hv.
    assert ((18 <? length checked)%nat = true) as ->
      by (apply Nat.ltb_lt; simpl in *; lia).
    eexists. reflexivity.
Qed.

(** A request whose second image is a text file. *)
Lemma publishNote_validates_first_witness :
  let E := MkEnv (fun _ => Return (JsArray [])) (fun _ => 250) (fun p => p)
             (fun p => if String.eqb p "/tmp/gone.png" then None
                       else Some true) in
  exists e,
    publishNote E "title" "content" ["/tmp/a.png"; "/tmp/notes.txt"] "tag"
      world0 = (Throw e, world0).
Proof.
  intros E.
  apply (publishNote_validates_first E "title" "content"
           ["/tmp/a.png"; "/tmp/notes.txt"] "tag" world0).
  right. right. right. left.
  exists "/tmp/notes.txt". split.
  - apply list_elem_of_further, list_elem_of_here.
  - right. right. reflexivity.
Defined.

End PublishFacts.

(** ** The comment extraction *)

Module ExtractionFacts.
Import RedNoteTools.

Section Strategies.

Context {Element Comment : Type}.
Variable extract_item : Element -> option Comment.

(** Strategies that do not match are passed over, whatever they left in
    [items]. *)
Lemma select_from_skips (pre : list (strategy Element)) :
  forall (todo : list (strategy Element)) (i : nat)
         (items0 : option (list Element)) (called : list nat),
    forallb (fun strat => negb (matches strat)) pre = true ->
    exists items1,
      select_from (pre ++ todo) i items0 called
      = select_from todo (i + length pre) items1
          (called ++ seq i (length pre)).
Proof.
  induction pre as [|strat pre IH]; intros todo i items0 called Hpre.
  - exists items0. simpl. rewrite Nat.add_0_r, app_nil_r. reflexivity.
  - simpl in Hpre. apply andb_prop in Hpre as [Hno Hpre].
    unfold matches in Hno.
    destruct (IH todo (S i) (strat tt) (called ++ [i]) Hpre)
      as (items1 & Hrun).
    exists items1. simpl.
    destruct (strat tt) as [[|item others]|] eqn:Hs; try discriminate;
      rewrite Hrun, <- app_assoc; simpl;
      replace (i + S (length pre))%nat with (S (i + length pre)) by lia;
      reflexivity.
Qed.

Lemma select_first_match (pre post : list (strategy Element))
    (winner : strategy Element) :
  forallb (fun strat => negb (matches strat)) pre = true ->
  matches winner = true ->
  select (pre ++ winner :: post)
  = MkSelection Element (winner tt) (length pre + 1) (seq 0 (length pre + 1)).
Proof.
  intros Hpre Hwin. unfold select.
  destruct (select_from_skips pre (winner :: post) 0 None [] Hpre)
    as (items1 & ->).
  simpl. unfold matches in Hwin.
  destruct (winner tt) as [[|item others]|]; try discriminate.
  rewrite seq_app. reflexivity.
Qed.

Variable document_querySelectorAll : string -> list Element.
Variable querySelectorAll : Element -> string -> list Element.
Variable textContent : Element -> string.
Variable className : Element -> string.
Variable getAttribute : Element -> string -> option string.

(** C8.  The selection loop calls the strategies in list order and stops
    at the first one that yields at least one item: the items, and the
    comments extracted from them, are those of that strategy alone, and the
    strategies after it are never called.  In particular, on a page where
    the dialog strategy finds nothing and the container strategy finds
    items, the script of [getNoteComments] extracts from the items of the
    container strategy and never evaluates the third strategy. *)
Theorem extraction_first_match_wins (pre post : list (strategy Element))
    (winner : strategy Element) :
  let S1 := strategy1 Element document_querySelectorAll querySelectorAll in
  let S2 := strategy2 Element document_querySelectorAll in
  let all := strategies Element document_querySelectorAll querySelectorAll
               textContent className getAttribute in
  (forallb (fun strat => negb (matches strat)) pre = true ->
   matches winner = true ->
   items (select (pre ++ winner :: post)) = winner tt /\
   usedStrategy (select (pre ++ winner :: post)) = (length pre + 1)%nat /\
   evaluated (select (pre ++ winner :: post)) = seq 0 (length pre + 1) /\
   extract_with extract_item (pre ++ winner :: post)
   = omap extract_item (default [] (winner tt))) /\
  (matches S1 = false -> matches S2 = true ->
   evaluated (select all) = [0; 1]%nat /\
   usedStrategy (select all) = 2%nat /\
   extractComments Element document_querySelectorAll querySelectorAll
     textContent className getAttribute Comment extract_item
   = omap extract_item (default [] (S2 tt))).
Proof.
  intros S1 S2 all. split.
  - intros Hpre Hwin. unfold extract_with.
    rewrite (select_first_match pre post winner Hpre Hwin). simpl.
    repeat split.
    unfold matches in Hwin.
    destruct (winner tt) as [[|item others]|]; try discriminate. reflexivity.
  - intros H1 H2.
    assert (forallb (fun strat => negb (matches strat)) [S1] = true) as Hpre
      by (simpl; rewrite H1; reflexivity).
    pose proof (select_first_match [S1]
                  [strategy3 Element document_querySelectorAll textContent
                     className getAttribute] S2 Hpre H2) as Hsel.
    unfold extractComments, extract_with, all, strategies.
    fold S1. fold S2. cbn [app] in Hsel. rewrite Hsel.
    simpl. repeat split.
    unfold matches in H2.
    destruct (S2 tt) as [[|item others]|]; try discriminate. reflexivity.
Qed.

End Strategies.

(** A page with no dialog, whose comment list holds two items. *)
Lemma extraction_first_match_wins_witness :
  let dqsa := fun selector : string =>
                if String.eqb selector ".comment-list .comment-item"
                then [1; 2]%nat
                else if String.eqb selector "*" then [0; 1; 2; 3]%nat
                else [] in
  let qsa := fun (_ : nat) (_ : string) => @nil nat in
  let text := fun _ : nat => "nice" in
  let class := fun n : nat => if (n =? 0)%nat then "page" else "comment" in
  let attr := fun (_ : nat) (_ : string) => @None string in
  let item := fun n : nat => Some (n, "nice") in
  evaluated (select (RedNoteTools.strategies nat dqsa qsa text class attr))
    = [0; 1]%nat /\
  usedStrategy (select (RedNoteTools.strategies nat dqsa qsa text class attr))
    = 2%nat /\
  extractComments nat dqsa qsa text class attr (nat * string) item
    = omap item (default [] (strategy2 nat dqsa tt)).
Proof.
  intros dqsa qsa text class attr item.
  apply (proj2 (extraction_first_match_wins item dqsa qsa text class attr
                  [] [] (strategy2 nat dqsa))); reflexivity.
Defined.

End ExtractionFacts.

(** ** The singleton coordinator *)

Module CliFacts.
Import Cli.
Local Open Scope nat_scope.

Lemma count_insert {A : Type} (P : A -> bool) (l : list A) (i : nat)
    (x y : A) :
  l !! i = Some x ->
  (length (List.filter P (<[i := y]> l)) + (if P x then 1 else 0)
   = length (List.filter P l) + (if P y then 1 else 0))%nat.
Proof.
  intros Hx.
  pose proof (lookup_lt_Some _ _ _ Hx) as Hlt.
  rewrite (insert_take_drop l i y Hlt).
  rewrite <- (take_drop_middle l i x Hx) at 3.
  rewrite !List.filter_app, !length_app. simpl.
  destruct (P x), (P y); simpl; lia.
Qed.



(** Whatever the constructor and [initialize()] do, one turn of any call
    keeps the flag and the constructions in step. *)
Lemma turn_keeps_coordinated (E : env) (s : system) (i : nat) :
  coordinated s -> coordinated (schedule1 E s i).
Proof.
  intros (Hle & Hflag & Hnone). unfold schedule1.
  destruct (calls s !! i) as [c|] eqn:Hc; [|repeat split; tauto].
  destruct s as [g l]. unfold coordinated, constructing in *. simpl in *.
  assert (forall c' g',
            in_flight c = false -> in_flight c' = false ->
            isInitializing g' = isInitializing g ->
            (globalRedNoteTools g' = None -> globalRedNoteTools g = None) ->
            length (List.filter in_flight (<[i := c']> l)) <= 1 /\
            (isInitializing g' = true <->
             length (List.filter in_flight (<[i := c']> l)) = 1) /\
            (globalRedNoteTools g' = None ->
             length (List.filter in_flight (<[i := c']> l)) = 0)) as Hsame.
  { intros c' g' Hin Hin' Hf Hs.
    pose proof (count_insert in_flight l i c c' Hc) as Hins.
    rewrite Hin, Hin' in Hins. rewrite Hf.
    replace (length (List.filter in_flight (<[i := c']> l)))
      with (length (List.filter in_flight l)) by lia.
    repeat split; tauto. }
  assert (globalRedNoteTools g = None -> isInitializing g = false ->
          in_flight c = false ->
          let '(g', c') := construct E g in
          length (List.filter in_flight (<[i := c']> l)) <= 1 /\
          (isInitializing g' = true <->
           length (List.filter in_flight (<[i := c']> l)) = 1) /\
          (globalRedNoteTools g' = None ->
           length (List.filter in_flight (<[i := c']> l)) = 0)) as Hcons.
  { intros Hslot Hdown Hin. unfold construct.
    specialize (Hnone Hslot).
    destruct (constructor_throws E (constructions g)) as [e|].
    - apply Hsame; simpl; auto.
    - pose proof (count_insert in_flight l i c
                    (Initializing (constructions g)) Hc) as Hins.
      rewrite Hin in Hins. simpl in Hins |- *.
      repeat split; try lia. discriminate. }
  destruct c as [| |i0|tools|e]; simpl.
  - destruct (globalRedNoteTools g) as [tools|] eqn:Hslot.
    + apply Hsame; simpl; congruence.
    + destruct (isInitializing g) eqn:Hup.
      * apply Hsame; simpl; congruence.
      * pose proof (Hcons eq_refl eq_refl eq_refl) as Hk.
        destruct (construct E g) as [g' c']. exact Hk.
  - destruct (isInitializing g) eqn:Hup.
    + apply Hsame; simpl; congruence.
    + unfold after_poll.
      destruct (globalRedNoteTools g) as [tools|] eqn:Hslot.
      * apply Hsame; simpl; congruence.
      * pose proof (Hcons eq_refl eq_refl eq_refl) as Hk.
        destruct (construct E g) as [g' c']. exact Hk.
  - assert (forall c', in_flight c' = false ->
              length (List.filter in_flight (<[i := c']> l)) = 0) as Hdone.
    { intros c' Hin'.
      pose proof (count_insert in_flight l i (Initializing i0) c' Hc) as Hins.
      rewrite Hin' in Hins. simpl in Hins. lia. }
    destruct (initialize E i0) as [u|e]; simpl;
      rewrite Hdone by reflexivity;
      (repeat split; try lia; try discriminate).
  - rewrite list_insert_id by exact Hc. repeat split; tauto.
  - rewrite list_insert_id by exact Hc. repeat split; tauto.
Qed.


Lemma start_coordinated (C : nat) : coordinated (start C).
Proof.
  unfold coordinated, constructing, start. simpl.
  assert (List.filter in_flight (replicate C Called) = []) as ->.
  { induction C as [|C IH]; [reflexivity|exact IH]. }
  simpl. repeat split; try lia; discriminate.
Qed.

(** One turn never sends a call into the polling loop: the flag is only
    up while the global variable is set, and a call that finds the variable
    set returns at once. *)
Lemma turn_never_polls (E : env) (s : system) (i : nat) :
  coordinated s ->
  Forall (fun c => c <> Polling) (calls s) ->
  Forall (fun c => c <> Polling) (calls (schedule1 E s i)).
Proof.
  intros (Hle & Hflag & Hnone) Hall. unfold schedule1.
  destruct (calls s !! i) as [c|] eqn:Hc; [|exact Hall].
  pose proof (proj1 (Forall_lookup _ _) Hall i c Hc) as Hnp.
  destruct (step E (vars s) c) as [g' c'] eqn:Hstep. simpl.
  apply Forall_insert; [exact Hall|].
  assert (globalRedNoteTools (vars s) = None ->
          isInitializing (vars s) = false) as Hdown.
  { intros Hslot. specialize (Hnone Hslot).
    destruct (isInitializing (vars s)); [|reflexivity].
    destruct Hflag as [Hup _]. specialize (Hup eq_refl). lia. }
  destruct c as [| |i0|tools|e]; simpl in Hstep.
  - destruct (globalRedNoteTools (vars s)) as [tools|] eqn:Hslot.
    + injection Hstep as _ <-. discriminate.
    + rewrite (Hdown eq_refl) in Hstep. unfold construct in Hstep.
      destruct (constructor_throws E (constructions (vars s)));
        injection Hstep as _ <-; discriminate.
  - contradiction.
  - destruct (initialize E i0); injection Hstep as _ <-; discriminate.
  - injection Hstep as _ <-. discriminate.
  - injection Hstep as _ <-. discriminate.
Qed.

(** From a start with no instance, the polling loop of [getRedNoteTools]
    is never entered, whatever the constructor and [initialize()] do. *)
Lemma polling_loop_never_entered (E : env) (C : nat) (schedule : list nat) :
  Forall (fun c => c <> Polling) (calls (run E schedule (start C))).
Proof.
  assert (forall s,
            coordinated s -> Forall (fun c => c <> Polling) (calls s) ->
            Forall (fun c => c <> Polling) (calls (run E schedule s))) as Hrun.
  { induction schedule as [|i schedule IH]; intros s Hco Hall; [exact Hall|].
    simpl. apply IH.
    - apply turn_keeps_coordinated, Hco.
    - apply turn_never_polls; assumption. }
  apply Hrun.
  - apply start_coordinated.
  - apply Forall_replicate. discriminate.
Qed.

Section FirstConstructionSucceeds.

Variable E : env.
Hypothesis constructor_ok : constructor_throws E 0 = None.
Hypothesis initialize_ok : initialize E 0 = Return tt.





End FirstConstructionSucceeds.







(** C3.  The first call constructs instance 0 and its [initialize()]
    fails.  The flag is cleared and only that call is rejected; but the
    global variable was assigned before [initialize()] was awaited and is
    not reset: the call made while the construction was in flight, and the
    call made after the failure, both return the instance whose
    initialization failed.  No call ever waits in the polling loop. *)
Theorem failed_initialize_leaves_instance :
  let e := Error "Failed to initialize browser" in
  let E := MkEnv (fun _ => None) (fun _ => Throw e) in
  let during := run E [0; 1] (start 3) in
  let s := run E [0; 1; 0; 2] (start 3) in
  calls during = [Initializing 0; Resolved (Some 0); Called] /\
  calls s = [Rejected e; Resolved (Some 0); Resolved (Some 0)] /\
  isInitializing (vars s) = false /\
  globalRedNoteTools (vars s) = Some 0 /\
  constructions (vars s) = 1.
Proof. vm_compute. repeat split. Qed.

End CliFacts.

(** ** The browser slot of the session manager *)

Module AuthManagerFacts.
Import AuthManager.

(** Closing never fails the acquisition, and always empties the slot. *)
Lemma cleanup_clears_slot (E : env) (s : statics) :
  browserInstance (fst (cleanupBrowserInstance E s)) = None.
Proof.
  unfold cleanupBrowserInstance.
  destruct (browserInstance s) eqn:Hb; simpl; [reflexivity|exact Hb].
Qed.

(** C9.  Let the slot hold browser [b], last used at [last], and call it
    stale when it reports not connected or [now - last] exceeds the
    30 minutes of [BROWSER_TIMEOUT].  A stale browser is closed; a failing
    [close()] is logged and goes no further, and the slot is cleared either
    way; then a browser is launched, stored in the slot with a new
    [lastUsed], and returned (a failing launch is what the caller gets, with
    the slot left empty).  A browser that is not stale is returned as it
    is, with [lastUsed] set to the present time. *)
Theorem getBrowser_reuses_or_replaces (E : env) (now now' last : Z)
    (b : Browser) :
  let s := MkStatics (Some b) last in
  let stale := negb (isConnected E b) || (BROWSER_TIMEOUT <? now - last) in
  let teardown :=
    EvClose b ::
    match close_error E b with
    | Some error => [EvLogError error]
    | None => []
    end in
  (stale = true ->
   cleanupBrowserInstance E s = (MkStatics None last, teardown) /\
   (forall fresh, launch E = Return fresh ->
      getBrowser E now now' s
      = (Return (Some fresh), MkStatics (Some fresh) now',
         teardown ++ [EvLaunch])) /\
   (forall e, launch E = Throw e ->
      getBrowser E now now' s
      = (Throw e, MkStatics None last, teardown ++ [EvLaunch]))) /\
  (stale = false ->
   getBrowser E now now' s = (Return (Some b), MkStatics (Some b) now', [])).
Proof.
  intros s stale teardown.
  assert (isBrowserValid E now s = negb stale) as Hvalid.
  { unfold isBrowserValid, stale. simpl.
    destruct (BROWSER_TIMEOUT <? now - last), (isConnected E b); reflexivity. }
  split; intros Hstale; unfold getBrowser; rewrite Hvalid, Hstale; simpl.
  - split; [reflexivity|].
    split; [intros fresh ->|intros e ->]; reflexivity.
  - reflexivity.
Qed.

(** A disconnected browser whose [close()] rejects, and an idle one. *)
Lemma getBrowser_reuses_or_replaces_witness :
  let gone := Error "Target page, context or browser has been closed" in
  let E := MkEnv (fun b => negb (b =? 1)%nat)
             (fun b => if (b =? 1)%nat then Some gone else None)
             (Return 2%nat) in
  getBrowser E 5000 5001 (MkStatics (Some 1%nat) 4000)
    = (Return (Some 2%nat), MkStatics (Some 2%nat) 5001,
       [EvClose 1; EvLogError gone; EvLaunch]) /\
  getBrowser E 1900000 1900001 (MkStatics (Some 3%nat) 100000)
    = (Return (Some 3%nat), MkStatics (Some 3%nat) 1900001, []) /\
  getBrowser E 1900001 1900002 (MkStatics (Some 3%nat) 100000)
    = (Return (Some 2%nat), MkStatics (Some 2%nat) 1900002,
       [EvClose 3; EvLaunch]).
Proof.
  intros gone E. split; [|split].
  - apply (proj1 (getBrowser_reuses_or_replaces E 5000 5001 4000 1%nat));
      reflexivity.
  - apply (proj2 (getBrowser_reuses_or_replaces E 1900000 1900001 100000
                    3%nat)); reflexivity.
  - apply (proj1 (getBrowser_reuses_or_replaces E 1900001 1900002 100000
                    3%nat)); reflexivity.
Defined.

End AuthManagerFacts.

(** ** Attempts and backoff of the retry executor *)

Module RetryRuns.
Import RedNoteTools Runs.


Lemma fetch_and_store_fails_with_browser (E : env) (cacheKey : string) :
  fails_with_browser E (fetch_and_store E cacheKey).
Proof.
  intros w e He. unfold fetch_and_store, mbind, M_bind, browse.
  rewrite He. reflexivity.
Qed.

Lemma fails_next_tail (E : env) (first k : nat) :
  fails_next E first (S k) ->
  (exists e, browser_outcome E first = Throw e) /\ fails_next E (S first) k.
Proof.
  intros Hf. split.
  - destruct (Hf 0%nat ltac:(lia)) as (e & He).
    rewrite Nat.add_0_r in He. eauto.
  - intros j Hj. destruct (Hf (S j) ltac:(lia)) as (e & He).
    exists e. rewrite <- He. f_equal. lia.
Qed.

(** After [k] failed attempts the executor stands at attempt
    [attempt + k], having slept [k] times; the cache and the limiter are
    untouched. *)
Lemma retry_after_failures {T : Type} (E : env) (operation : M T)
    (operationName : string) (maxRetries : Z) (k : nat) :
  fails_with_browser E operation ->
  forall (attempt : Z) (remaining : nat) (w : world),
    fails_next E (interactions w) k ->
    attempt + Z.of_nat k <= maxRetries ->
    (k <= remaining)%nat ->
    exists w' evs,
      retry_from E operation operationName maxRetries attempt (S remaining) w
      = retry_from E operation operationName maxRetries
          (attempt + Z.of_nat k) (S (remaining - k)) w' /\
      clock w' = clock w + total (delays_from E attempt (draws w) k) /\
      contentCache w' = contentCache w /\
      limit w' = limit w /\
      interactions w' = (interactions w + k)%nat /\
      draws w' = (draws w + k)%nat /\
      trace w' = trace w ++ evs /\
      attempt_numbers evs = attempts_from attempt k /\
      backoff_delays evs = delays_from E attempt (draws w) k.
Proof.
  intros Hop.
  induction k as [|k IH]; intros attempt remaining w Hfail Hmax Hrem.
  - exists w, []. rewrite Z.add_0_r, Nat.sub_0_r, !Nat.add_0_r, app_nil_r.
    simpl. rewrite Z.add_0_r. repeat split; reflexivity.
  - destruct remaining as [|remaining]; [lia|].
    apply fails_next_tail in Hfail as [(e & He) Hrest].
    rewrite RetryFacts.retry_from_unfold.
    rewrite (Hop (attempting operationName attempt w) e He).
    assert ((attempt =? maxRetries) = false) as -> by (apply Z.eqb_neq; lia).
    cbn [browse attempting snd interactions draws clock contentCache limit
         trace].
    cbv zeta.
    match goal with
    | |- context [retry_from _ _ _ _ _ _ ?w2] =>
        destruct (IH (attempt + 1) remaining w2)
          as (w' & evs & Hrun & Hclock & Hcache & Hlimit & Hint & Hdraws
              & Htrace & Hatt & Hback)
    end.
    + exact Hrest.
    + lia.
    + lia.
    + cbn [interactions draws clock contentCache limit trace] in *.
      exists w'.
      exists (EvAttempt operationName attempt :: EvBrowser (interactions w)
              :: EvBackoff (2 ^ attempt * 1000 + jitter E (draws w)) :: evs).
      rewrite Hrun, Hclock, Hcache, Hlimit, Hint, Hdraws, Htrace.
      replace (attempt + 1 + Z.of_nat k) with (attempt + Z.of_nat (S k))
        by lia.
      replace (S remaining - S k)%nat with (remaining - k)%nat by lia.
      cbn [delays_from attempts_from total foldr attempt_numbers
           backoff_delays omap]. fold (total (delays_from E (attempt + 1) (S (draws w)) k)).
      repeat split; try lia.
      * rewrite <- !app_assoc. reflexivity.
      * simpl. f_equal. exact Hatt.
      * simpl. f_equal. exact Hback.
Qed.

Lemma events_of_trace {A : Type} (m : M A) (w : world) (evs : list event) :
  trace (snd (m w)) = trace w ++ evs -> events_of m w = evs.
Proof. intros H. unfold events_of. rewrite H. apply drop_app_length. Qed.




(** Every sleep is the exponential base delay of its attempt plus less
    than a second of jitter. *)
Lemma delays_from_bounds (E : env) (k : nat) :
  jitter_in_range E ->
  forall (attempt : Z) (draw i : nat) (d : Z),
    delays_from E attempt draw k !! i = Some d ->
    2 ^ (attempt + Z.of_nat i) * 1000 <= d
    < 2 ^ (attempt + Z.of_nat i) * 1000 + 1000.
Proof.
  intros Hj. induction k as [|k IH]; intros attempt draw i d Hd;
    [discriminate|].
  destruct i as [|i]; simpl in Hd.
  - injection Hd as <-. rewrite Z.add_0_r. specialize (Hj draw). lia.
  - apply IH in Hd.
    replace (attempt + Z.of_nat (S i)) with (attempt + 1 + Z.of_nat i) by lia.
    exact Hd.
Qed.





End RetryRuns.

(** ** The content operations and the cache *)

Module ContentRuns.
Import RedNoteTools Runs.

Lemma searchNotes_body (E : env) (keywords : string) (limit : Z) (w : world) :
  searchNotes E keywords limit w
  = content_body E ("search:" +:+ keywords +:+ ":" +:+ pretty limit)
      "searchNotes" w.
Proof. unfold searchNotes. apply ContentFacts.logPerformance_id. Qed.

Lemma getNoteContent_body (E : env) (url : string) (w : world) :
  getNoteContent E url w = content_body E ("note:" +:+ url) "getNoteContent" w.
Proof. unfold getNoteContent. apply ContentFacts.logPerformance_id. Qed.

Lemma getNoteComments_body (E : env) (url : string) (w : world) :
  getNoteComments E url w
  = content_body E ("comments:" +:+ url) "getNoteComments" w.
Proof. unfold getNoteComments. apply ContentFacts.logPerformance_id. Qed.

(** On a miss the body is the admission check followed by the retried
    fetch. *)
Lemma content_body_miss (E : env) (cacheKey operationName : string)
    (w : world) :
  cache_miss cacheKey w ->
  content_body E cacheKey operationName w
  = retryWithBackoff E (fetch_and_store E cacheKey) operationName 3
      (MkWorld (lastRequestTime (checkRateLimit (clock w) 0 0 (limit w)))
         (contentCache w) (checkRateLimit (clock w) 0 0 (limit w))
         (interactions w) (draws w)
         (trace w ++ [EvCacheLookup cacheKey; EvRateLimit])).
Proof.
  intros Hmiss. unfold cache_miss in Hmiss.
  unfold content_body, mbind, M_bind, cache_get. cbn [fst snd].
  rewrite Hmiss. unfold rate_limit.
  cbn [clock contentCache limit interactions draws trace].
  rewrite <- app_assoc. reflexivity.
Qed.

Lemma content_body_hit (E : env) (cacheKey operationName : string)
    (w : world) :
  truthy (getCachedContent (contentCache w) (clock w) cacheKey) = true ->
  served_from_cache (content_body E cacheKey operationName) cacheKey
    (getCachedContent (contentCache w) (clock w) cacheKey) w.
Proof.
  intros Hhit. unfold served_from_cache, content_body, mbind, M_bind, cache_get.
  cbn [fst snd]. rewrite Hhit. reflexivity.
Qed.

Lemma content_body_fetched (E : env) (cacheKey operationName : string)
    (v : any) (w : world) :
  browser_outcome E (interactions w) = Return v ->
  truthy v = true ->
  cache_miss cacheKey w ->
  fetched_then_cached (content_body E cacheKey operationName) cacheKey
    operationName v w.
Proof.
  intros Hok Htruthy Hmiss.
  set (s1 := checkRateLimit (clock w) 0 0 (limit w)).
  assert (content_body E cacheKey operationName w
          = (Return v,
             MkWorld (lastRequestTime s1)
               (setCachedContent (contentCache w) (lastRequestTime s1)
                  cacheKey v)
               s1 (S (interactions w)) (draws w)
               (trace w ++ [EvCacheLookup cacheKey; EvRateLimit;
                            EvAttempt operationName 1;
                            EvBrowser (interactions w);
                            EvCacheStore cacheKey]))) as Hrun.
  { rewrite (content_body_miss E cacheKey operationName w Hmiss).
    unfold retryWithBackoff. change (Z.to_nat 3) with 3%nat.
    rewrite RetryFacts.retry_from_unfold.
    unfold fetch_and_store, mbind, M_bind, browse, attempting, cache_set,
      mret, M_ret.
    cbn [interactions clock contentCache limit draws trace fst snd].
    rewrite Hok. fold s1. rewrite <- !app_assoc. reflexivity. }
  unfold fetched_then_cached. rewrite Hrun. cbn [fst snd].
  split; [reflexivity|]. split.
  { apply RetryRuns.events_of_trace. rewrite Hrun. reflexivity. }
  split.
  - intros dt Hdt.
    pose proof (content_body_hit E cacheKey operationName
                  (later dt
                     (MkWorld (lastRequestTime s1)
                        (setCachedContent (contentCache w)
                           (lastRequestTime s1) cacheKey v)
                        s1 (S (interactions w)) (draws w)
                        (trace w ++ [EvCacheLookup cacheKey; EvRateLimit;
                                     EvAttempt operationName 1;
                                     EvBrowser (interactions w);
                                     EvCacheStore cacheKey])))) as Hhit.
    cbn [later clock contentCache] in Hhit.
    rewrite CacheFacts.get_after_set in Hhit.
    assert ((lastRequestTime s1 + dt - lastRequestTime s1 <? CACHE_TTL)
            = true) as Hfresh by (apply Z.ltb_lt; lia).
    rewrite Hfresh in Hhit. exact (Hhit Htruthy).
  - intros dt Hdt.
    pose proof (ContentFacts.content_operation_order E cacheKey operationName
                  (later dt
                     (MkWorld (lastRequestTime s1)
                        (setCachedContent (contentCache w)
                           (lastRequestTime s1) cacheKey v)
                        s1 (S (interactions w)) (draws w)
                        (trace w ++ [EvCacheLookup cacheKey; EvRateLimit;
                                     EvAttempt operationName 1;
                                     EvBrowser (interactions w);
                                     EvCacheStore cacheKey])))) as Hord.
    cbn [later clock contentCache] in Hord.
    rewrite CacheFacts.get_after_set in Hord.
    assert ((lastRequestTime s1 + dt - lastRequestTime s1 <? CACHE_TTL)
            = false) as Hold by (apply Z.ltb_ge; lia).
    rewrite Hold in Hord. exact Hord.
Qed.

Lemma content_body_failed (E : env) (cacheKey operationName : string)
    (w : world) :
  fails_next E (interactions w) 3 ->
  cache_miss cacheKey w ->
  failed_uncached E (content_body E cacheKey operationName) w.
Proof.
  intros Hfail Hmiss.
  destruct (Hfail 2%nat ltac:(lia)) as (e & He). exists e.
  split; [exact He|].
  rewrite (content_body_miss E cacheKey operationName w Hmiss).
  unfold retryWithBackoff. change (Z.to_nat 3) with 3%nat.
  set (s1 := checkRateLimit (clock w) 0 0 (limit w)).
  match goal with
  | |- context [retry_from _ _ _ _ _ _ ?w0] => set (wb := w0)
  end.
  assert (fails_next E (interactions wb) 2) as Hfail2
    by (intros j Hlt; apply Hfail; lia).
  destruct (RetryRuns.retry_after_failures E (fetch_and_store E cacheKey)
              operationName 3 2
              (RetryRuns.fetch_and_store_fails_with_browser E cacheKey)
              1 2 wb Hfail2 ltac:(lia) ltac:(lia))
    as (w' & evs & Hrun & _ & Hcache & Hlimit & Hint & _).
  rewrite Hrun. change (1 + Z.of_nat 2) with 3.
  rewrite RetryFacts.retry_from_unfold.
  rewrite (RetryRuns.fetch_and_store_fails_with_browser E cacheKey
             (attempting operationName 3 w') e)
    by (cbn [attempting interactions]; rewrite Hint; exact He).
  rewrite Z.eqb_refl.
  cbn [browse attempting snd fst interactions contentCache limit].
  rewrite Hcache, Hlimit, Hint.
  cbn [wb contentCache limit interactions].
  repeat split; try lia.
  unfold s1. rewrite RateLimitFacts.checkRateLimit_grant. reflexivity.
Qed.

(** X3.  A content operation that misses the cache and whose browser part
    answers a non-empty value [v] at the first attempt returns [v] and
    stores it under its key ([search:keywords:limit], [note:url],
    [comments:url]).  The same call made less than 30 minutes later returns
    [v] from the cache: it only looks the key up, with no admission check
    and no browser interaction.  Made 30 minutes later or more, it goes
    through the admission check and fetches again.  An empty array counts as
    a value: an empty result is served from the cache too. *)
Theorem content_result_is_cached_for_ttl (E : env) (keywords url : string)
    (limit : Z) (v : any) (w : world) :
  browser_outcome E (interactions w) = Return v ->
  truthy v = true ->
  (cache_miss ("search:" +:+ keywords +:+ ":" +:+ pretty limit) w ->
   fetched_then_cached (searchNotes E keywords limit)
     ("search:" +:+ keywords +:+ ":" +:+ pretty limit) "searchNotes" v w) /\
  (cache_miss ("note:" +:+ url) w ->
   fetched_then_cached (getNoteContent E url) ("note:" +:+ url)
     "getNoteContent" v w) /\
  (cache_miss ("comments:" +:+ url) w ->
   fetched_then_cached (getNoteComments E url) ("comments:" +:+ url)
     "getNoteComments" v w).
Proof.
  intros Hok Htruthy.
  assert (forall (op : M any) key name,
            (forall w0, op w0 = content_body E key name w0) ->
            cache_miss key w -> fetched_then_cached op key name v w) as Hgen.
  { intros op key name Hbody Hmiss.
    pose proof (content_body_fetched E key name v w Hok Htruthy Hmiss) as H.
    unfold fetched_then_cached, served_from_cache, events_of in *.
    rewrite !Hbody.
    destruct H as (H1 & H2 & H3 & H4).
    split; [exact H1|]. split; [exact H2|]. split.
    - intros dt Hdt. rewrite Hbody. apply H3, Hdt.
    - intros dt Hdt. rewrite Hbody. apply H4, Hdt. }
  split; [|split]; apply Hgen; intros w0.
  - apply searchNotes_body.
  - apply getNoteContent_body.
  - apply getNoteComments_body.
Qed.

(** A search that finds nothing, on a fresh instance. *)
Lemma content_result_is_cached_for_ttl_witness :
  let E := MkEnv (fun _ => Return (JsArray [])) (fun _ => 250) (fun p => p)
             (fun _ => Some true) in
  fetched_then_cached (searchNotes E "cat" 10) "search:cat:10" "searchNotes"
    (JsArray []) world0.
Proof.
  intros E.
  apply (content_result_is_cached_for_ttl E "cat" "u" 10 (JsArray []) world0);
    reflexivity.
Defined.

(** X4.  A content operation that misses the cache and whose browser part
    fails at all three attempts fails with the error of the third attempt;
    nothing is stored in the cache, so the next call fetches again; and the
    admission check has run once before the attempts, so the failed request
    has used one slot of the hourly quota. *)
Theorem content_failure_is_not_cached (E : env) (keywords url : string)
    (limit : Z) (w : world) :
  fails_next E (interactions w) 3 ->
  (cache_miss ("search:" +:+ keywords +:+ ":" +:+ pretty limit) w ->
   failed_uncached E (searchNotes E keywords limit) w) /\
  (cache_miss ("note:" +:+ url) w ->
   failed_uncached E (getNoteContent E url) w) /\
  (cache_miss ("comments:" +:+ url) w ->
   failed_uncached E (getNoteComments E url) w).
Proof.
  intros Hfail.
  assert (forall (op : M any) key name,
            op w = content_body E key name w ->
            cache_miss key w -> failed_uncached E op w) as Hgen.
  { intros op key name Hbody Hmiss.
    pose proof (content_body_failed E key name w Hfail Hmiss) as H.
    unfold failed_uncached in *. rewrite Hbody. exact H. }
  split; [|split].
  - apply (Hgen _ _ "searchNotes"), searchNotes_body.
  - apply (Hgen _ _ "getNoteContent"), getNoteContent_body.
  - apply (Hgen _ _ "getNoteComments"), getNoteComments_body.
Qed.

(** The note page times out three times. *)
Lemma content_failure_is_not_cached_witness :
  let raw := MkExn "TimeoutError" "Timeout 30000ms exceeded" in
  let E := MkEnv (fun _ => Throw raw) (fun _ => 250) (fun p => p)
             (fun _ => Some true) in
  failed_uncached E (getNoteContent E "https://www.xiaohongshu.com/explore/1")
    world0.
Proof.
  intros raw E.
  apply (content_failure_is_not_cached E "cat"
           "https://www.xiaohongshu.com/explore/1" 10 world0).
  - intros j _. exists raw. reflexivity.
  - reflexivity.
Defined.

(** X5.  The three operations never read each other's cache entries:
    storing the result of one of them leaves what the other two find in the
    cache unchanged, whatever their arguments. *)
Theorem content_cache_keys_are_disjoint (c : gmap string entry)
    (keywords url url' : string) (limit now t : Z) (d : any) :
  let search := "search:" +:+ keywords +:+ ":" +:+ pretty limit in
  let note := "note:" +:+ url in
  let comments := "comments:" +:+ url' in
  getCachedContent (setCachedContent c t search d) now note
    = getCachedContent c now note /\
  getCachedContent (setCachedContent c t search d) now comments
    = getCachedContent c now comments /\
  getCachedContent (setCachedContent c t note d) now search
    = getCachedContent c now search /\
  getCachedContent (setCachedContent c t note d) now comments
    = getCachedContent c now comments /\
  getCachedContent (setCachedContent c t comments d) now search
    = getCachedContent c now search /\
  getCachedContent (setCachedContent c t comments d) now note
    = getCachedContent c now note.
Proof.
  intros search note comments.
  unfold getCachedContent, setCachedContent, search, note, comments.
  repeat split; rewrite lookup_insert_ne; try reflexivity;
    simpl; discriminate.
Qed.

End ContentRuns.

(** ** More on the rate limiter *)

Module LimiterRuns.
Import RedNoteTools Runs.

Lemma prune_bounded (now bound : Z) (ts : list Z) :
  Forall (fun t => t <= bound) ts -> Forall (fun t => t <= bound) (prune now ts).
Proof.
  intros Hall. apply Forall_forall. intros x Hx.
  unfold prune in Hx. apply list_elem_of_filter in Hx as [_ Hx].
  exact (proj1 (Forall_forall _ _) Hall x Hx).
Qed.

Lemma prune_ascending (now : Z) (ts : list Z) :
  ascending ts -> ascending (prune now ts).
Proof.
  induction ts as [|a ts IH]; intros Hasc; [exact I|].
  destruct Hasc as [Ha Hrest]. unfold prune in *. rewrite filter_cons.
  destruct (decide (now - a < 3600000)); [|exact (IH Hrest)].
  split; [|exact (IH Hrest)].
  apply Forall_forall. intros x Hx.
  apply list_elem_of_filter in Hx as [_ Hx].
  exact (proj1 (Forall_forall _ _) Ha x Hx).
Qed.

Lemma ascending_snoc (ts : list Z) (t : Z) :
  ascending ts -> Forall (fun x => x <= t) ts -> ascending (ts ++ [t]).
Proof.
  induction ts as [|a ts IH]; intros Hasc Hle; simpl.
  - split; [constructor|exact I].
  - destruct Hasc as [Ha Hrest].
    apply Forall_cons in Hle as [Hat Hle].
    split; [|exact (IH Hrest Hle)].
    apply Forall_app. split; [exact Ha|]. constructor; [exact Hat|constructor].
Qed.

(** X6.  A call of [checkRateLimit] that runs undisturbed, entered no
    earlier than the last grant, is granted at most one hour, one second
    and ten seconds after it was entered (plus what its timers are late);
    when fewer than 20 timestamps lie within the last hour it waits at most
    the 10 s of the minimum interval, and when moreover 10 s have passed
    since the last grant it does not wait at all.  It never rejects: a
    timestamp is recorded in every case, and none of the kept timestamps is
    later than it. *)
Theorem rate_limit_wait_is_bounded (now lat1 lat2 : Z) (s : limiter) :
  well_timed s ->
  lastRequestTime s <= now ->
  0 <= lat1 -> 0 <= lat2 ->
  let T := granted_at now lat1 lat2 s in
  let below_quota :=
    Z.of_nat (length (prune now (requestTimestamps s)))
    < MAX_REQUESTS_PER_HOUR in
  now <= T <= now + 3600000 + 1000 + MIN_INTERVAL + lat1 + lat2 /\
  (below_quota -> T <= now + MIN_INTERVAL + lat2) /\
  (below_quota -> MIN_INTERVAL <= now - lastRequestTime s -> T = now) /\
  last (requestTimestamps (checkRateLimit now lat1 lat2 s)) = Some T /\
  well_timed (checkRateLimit now lat1 lat2 s).
Proof.
  intros Hwt Hnow H1 H2 T below_quota. unfold T, below_quota, granted_at.
  assert (Forall (fun t => t <= now) (prune now (requestTimestamps s)))
    as Hpr.
  { apply prune_bounded. eapply Forall_impl; [exact Hwt|].
    intros x Hx. simpl in Hx. lia. }
  assert (now <= lastRequestTime (checkRateLimit now lat1 lat2 s)) as Hlow.
  { destruct (RateLimitFacts.checkRateLimit_cases now lat1 lat2 s)
      as (T0 & HT & Hprops).
    destruct (Hprops H1 H2) as (Hge & _). rewrite HT. exact Hge. }
  assert (default 0 (head (prune now (requestTimestamps s))) <= now
          \/ prune now (requestTimestamps s) = []) as Hhead.
  { destruct (prune now (requestTimestamps s)) as [|x l]; [right; reflexivity|].
    left. apply Forall_cons in Hpr as [Hx _]. exact Hx. }
  split; [|split; [|split; [|split]]].
  - split; [exact Hlow|].
    unfold checkRateLimit, step, interval_check, record_request,
      MAX_REQUESTS_PER_HOUR, MIN_INTERVAL in *.
    destruct (20 <=? Z.of_nat (length (prune now (requestTimestamps s))))
      eqn:Hq; cbn [lastRequestTime requestCount requestTimestamps fst snd].
    + apply Z.leb_le in Hq.
      destruct Hhead as [Hhead|Hnil]; [|rewrite Hnil in Hq; simpl in Hq; lia].
      destruct (now - lastRequestTime s <? 10000) eqn:Hi;
        cbn [lastRequestTime fst snd]; lia.
    + destruct (now - lastRequestTime s <? 10000) eqn:Hi;
        cbn [lastRequestTime fst snd]; lia.
  - intros Hbelow.
    unfold checkRateLimit, step, interval_check, record_request,
      MAX_REQUESTS_PER_HOUR, MIN_INTERVAL in *.
    assert ((20 <=? Z.of_nat (length (prune now (requestTimestamps s))))
            = false) as -> by (apply Z.leb_gt; exact Hbelow).
    cbn [lastRequestTime requestCount requestTimestamps].
    destruct (now - lastRequestTime s <? 10000) eqn:Hi;
      cbn [lastRequestTime fst snd]; lia.
  - intros Hbelow Hidle.
    unfold checkRateLimit, step, interval_check, record_request,
      MAX_REQUESTS_PER_HOUR, MIN_INTERVAL in *.
    assert ((20 <=? Z.of_nat (length (prune now (requestTimestamps s))))
            = false) as -> by (apply Z.leb_gt; exact Hbelow).
    cbn [lastRequestTime requestCount requestTimestamps].
    assert ((now - lastRequestTime s <? 10000) = false) as ->
      by (apply Z.ltb_ge; exact Hidle).
    reflexivity.
  - rewrite RateLimitFacts.checkRateLimit_grant. simpl.
    rewrite last_snoc. reflexivity.
  - unfold well_timed. rewrite RateLimitFacts.checkRateLimit_grant. simpl.
    apply Forall_app. split.
    + eapply Forall_impl; [exact Hpr|]. intros x Hx. simpl in Hx.
      unfold granted_at. lia.
    + constructor; [lia|constructor].
Qed.

(** A call entered 4 s after the last grant, with 3 timestamps kept. *)
Lemma rate_limit_wait_is_bounded_witness :
  let s := MkLimiter 130000 3 [100000; 115000; 130000] in
  let T := granted_at 134000 0 0 s in
  let below_quota :=
    Z.of_nat (length (prune 134000 (requestTimestamps s)))
    < MAX_REQUESTS_PER_HOUR in
  T = 140000 /\
  134000 <= T <= 134000 + 3600000 + 1000 + MIN_INTERVAL + 0 + 0 /\
  (below_quota -> T <= 134000 + MIN_INTERVAL + 0) /\
  (below_quota -> MIN_INTERVAL <= 134000 - lastRequestTime s -> T = 134000) /\
  last (requestTimestamps (checkRateLimit 134000 0 0 s)) = Some T /\
  well_timed (checkRateLimit 134000 0 0 s).
Proof.
  intros s T below_quota. split; [reflexivity|].
  apply (rate_limit_wait_is_bounded 134000 0 0 s).
  - unfold well_timed, s. simpl. repeat constructor; lia.
  - simpl. lia.
  - lia.
  - lia.
Defined.

(** One turn of the event loop keeps the timestamps in order and no later
    than the clock. *)
Lemma resume_keeps_ascending (p : pool) (u : turn) (t0 : Z) :
  t0 <= at_clock u ->
  ascending (requestTimestamps (shared p)) ->
  Forall (fun t => t <= t0) (requestTimestamps (shared p)) ->
  ascending (requestTimestamps (shared (resume p u))) /\
  Forall (fun t => t <= at_clock u) (requestTimestamps (shared (resume p u))).
Proof.
  intros Hle Hasc Hbound.
  assert (Forall (fun t => t <= at_clock u) (requestTimestamps (shared p)))
    as Hbound'.
  { eapply Forall_impl; [exact Hbound|]. intros x Hx. simpl in Hx. lia. }
  assert (forall s : limiter,
            ascending (requestTimestamps s) ->
            Forall (fun t => t <= at_clock u) (requestTimestamps s) ->
            ascending (requestTimestamps (record_request (at_clock u) s)) /\
            Forall (fun t => t <= at_clock u)
              (requestTimestamps (record_request (at_clock u) s))) as Hrec.
  { intros s Ha Hb. simpl. split.
    - apply ascending_snoc; assumption.
    - apply Forall_app. split; [exact Hb|]. constructor; [lia|constructor]. }
  assert (forall now (s : limiter),
            ascending (requestTimestamps s) ->
            Forall (fun t => t <= at_clock u) (requestTimestamps s) ->
            ascending
              (requestTimestamps (fst (interval_check now (at_clock u) s))) /\
            Forall (fun t => t <= at_clock u)
              (requestTimestamps (fst (interval_check now (at_clock u) s))))
    as Hint.
  { intros now s Ha Hb. unfold interval_check.
    destruct (now - lastRequestTime s <? MIN_INTERVAL); cbn [fst].
    - split; assumption.
    - apply Hrec; assumption. }
  unfold resume.
  destruct (callers p !! who u) as [k|]; [|split; assumption].
  destruct (ready (at_clock u) k); [|split; assumption].
  destruct (step (at_clock u) (shared p) k) as [s' k'] eqn:Hstep.
  cbn [shared].
  replace s' with (fst (step (at_clock u) (shared p) k))
    by (rewrite Hstep; reflexivity).
  clear Hstep s' k'.
  destruct k as [|now wake|wake|]; cbn [step].
  - destruct (MAX_REQUESTS_PER_HOUR <=?
              Z.of_nat (length (prune (at_clock u)
                                  (requestTimestamps (shared p))))).
    + cbn [fst requestTimestamps]. split.
      * apply prune_ascending, Hasc.
      * apply prune_bounded, Hbound'.
    + apply Hint; cbn [requestTimestamps].
      * apply prune_ascending, Hasc.
      * apply prune_bounded, Hbound'.
  - apply Hint; assumption.
  - cbn [fst]. apply Hrec; assumption.
  - cbn [fst]. split; assumption.
Qed.

(** X7.  However the calls of [checkRateLimit] interleave, as long as the
    clock does not run backwards the recorded timestamps stay in
    non-decreasing order of insertion, and none is later than the clock. *)
Theorem timestamps_ascend_in_any_interleaving (schedule : list turn)
    (p : pool) (t0 : Z) :
  monotone t0 schedule = true ->
  ascending (requestTimestamps (shared p)) ->
  Forall (fun t => t <= t0) (requestTimestamps (shared p)) ->
  ascending (requestTimestamps (shared (run_pool schedule p))) /\
  Forall (fun t => t <= default t0 (last (map at_clock schedule)))
    (requestTimestamps (shared (run_pool schedule p))).
Proof.
  revert p t0.
  induction schedule as [|u schedule IH]; intros p t0 Hmono Hasc Hbound.
  - split; assumption.
  - simpl in Hmono. apply andb_prop in Hmono as [Hle Hmono].
    apply Z.leb_le in Hle.
    destruct (resume_keeps_ascending p u t0 Hle Hasc Hbound) as [Ha Hb].
    destruct (IH (resume p u) (at_clock u) Hmono Ha Hb) as [Ha' Hb'].
    split; [exact Ha'|].
    change (run_pool (u :: schedule) p) with (run_pool schedule (resume p u)).
    destruct schedule as [|u' schedule']; [exact Hb'|].
    cbn [map] in Hb' |- *. rewrite last_cons_cons.
    destruct (last (at_clock u' :: map at_clock schedule')) as [t|] eqn:Hlast;
      [exact Hb'|].
    apply last_None in Hlast. discriminate.
Qed.

(** The two overlapping calls that break the minimum interval. *)
Lemma timestamps_ascend_in_any_interleaving_witness :
  let schedule := [MkTurn 0 100000; MkTurn 1 101000; MkTurn 2 102000;
                   MkTurn 1 110000; MkTurn 2 110000] in
  let p := MkPool limiter0 [Entry; Entry; Entry] in
  requestTimestamps (shared (run_pool schedule p)) = [100000; 110000; 110000]
  /\
  ascending (requestTimestamps (shared (run_pool schedule p))) /\
  Forall (fun t => t <= default 0 (last (map at_clock schedule)))
    (requestTimestamps (shared (run_pool schedule p))).
Proof.
  intros schedule p. split; [reflexivity|].
  apply (timestamps_ascend_in_any_interleaving schedule p 0).
  - reflexivity.
  - exact I.
  - constructor.
Defined.

End LimiterRuns.

(** ** Trimming, splitting and the tag list *)

Module TextFacts.
Import RedNoteTools Text.

Lemma chars_inj (s1 s2 : string) : chars s1 = chars s2 -> s1 = s2.
Proof.
  intros H.
  rewrite <- (String.string_of_list_ascii_of_string s1),
          <- (String.string_of_list_ascii_of_string s2), H.
  reflexivity.
Qed.

Lemma chars_app (s1 s2 : string) : chars (s1 +:+ s2) = chars s1 ++ chars s2.
Proof. induction s1 as [|c s1 IH]; simpl; [reflexivity|]. f_equal. exact IH. Qed.

Lemma chars_rev_app (s1 s2 : string) :
  chars (String.rev_app s1 s2) = reverse (chars s1) ++ chars s2.
Proof.
  revert s2. induction s1 as [|c s1 IH]; intros s2; simpl; [reflexivity|].
  rewrite IH, reverse_cons, <- app_assoc. reflexivity.
Qed.

Lemma chars_rev (s : string) : chars (String.rev s) = reverse (chars s).
Proof. unfold String.rev. rewrite chars_rev_app. simpl. apply app_nil_r. Qed.

Lemma chars_trimStart (s : string) : chars (trimStart s) = drop_space (chars s).
Proof.
  induction s as [|c s IH]; simpl; [reflexivity|].
  destruct (is_white_space c); [exact IH|reflexivity].
Qed.

Lemma chars_trim (s : string) : chars (trim s) = trimmed (chars s).
Proof.
  unfold trim, trimmed.
  rewrite chars_rev, chars_trimStart, chars_rev, chars_trimStart.
  reflexivity.
Qed.

Lemma blank_chars (s : string) : blank s = forallb is_white_space (chars s).
Proof. induction s as [|c s IH]; simpl; [reflexivity|]. rewrite IH. reflexivity. Qed.

Lemma drop_space_split (l : list ascii) :
  exists pre, l = pre ++ drop_space l /\ forallb is_white_space pre = true.
Proof.
  induction l as [|c l (pre & Hl & Hpre)]; simpl.
  - exists []. split; reflexivity.
  - destruct (is_white_space c) eqn:Hc.
    + exists (c :: pre). simpl. rewrite Hc, Hpre. split; [|reflexivity].
      f_equal. exact Hl.
    + exists []. split; reflexivity.
Qed.

Lemma drop_space_head (l : list ascii) :
  match drop_space l with [] => True | c :: _ => is_white_space c = false end.
Proof.
  induction l as [|c l IH]; simpl; [exact I|].
  destruct (is_white_space c) eqn:Hc; [exact IH|exact Hc].
Qed.

Lemma drop_space_tight (l : list ascii) :
  match l with [] => True | c :: _ => is_white_space c = false end ->
  drop_space l = l.
Proof. destruct l as [|c l]; simpl; [reflexivity|]. intros ->. reflexivity. Qed.

Lemma forallb_reverse {A : Type} (P : A -> bool) (l : list A) :
  forallb P (reverse l) = forallb P l.
Proof.
  induction l as [|x l IH]; [reflexivity|].
  rewrite reverse_cons, forallb_app, IH. simpl.
  rewrite andb_true_r. apply andb_comm.
Qed.

(** [trim] removes a run of white space at each end and leaves a string
    that starts and ends with something else, if it is not empty. *)
Lemma trimmed_spec (l : list ascii) :
  exists pre post,
    l = pre ++ trimmed l ++ post /\
    forallb is_white_space pre = true /\
    forallb is_white_space post = true /\
    tight (trimmed l).
Proof.
  unfold trimmed.
  destruct (drop_space_split l) as (pre & Hl & Hpre).
  destruct (drop_space_split (reverse (drop_space l))) as (q & Hr & Hq).
  pose proof (drop_space_head l) as Hhead.
  pose proof (drop_space_head (reverse (drop_space l))) as Hlast.
  set (m := drop_space l) in *.
  set (r' := drop_space (reverse m)) in *.
  assert (m = reverse r' ++ reverse q) as Hm.
  { rewrite <- reverse_app, <- Hr, reverse_involutive. reflexivity. }
  exists pre, (reverse q). split; [|split; [|split]].
  - rewrite <- Hm. exact Hl.
  - exact Hpre.
  - rewrite forallb_reverse. exact Hq.
  - unfold tight. split.
    + destruct (reverse r') as [|c t] eqn:Hrev; [exact I|].
      rewrite Hm in Hhead. simpl in Hhead. exact Hhead.
    + rewrite last_reverse. destruct r' as [|c t]; [exact I|exact Hlast].
Qed.

Lemma trimmed_tight (l : list ascii) : tight l -> trimmed l = l.
Proof.
  intros [Hhead Hlast]. unfold trimmed.
  rewrite (drop_space_tight l Hhead).
  rewrite drop_space_tight; [apply reverse_involutive|].
  rewrite <- head_reverse in Hlast.
  destruct (reverse l) as [|c t]; [exact I|exact Hlast].
Qed.

Lemma trim_idempotent (s : string) : trim (trim s) = trim s.
Proof.
  apply chars_inj. rewrite !chars_trim.
  destruct (trimmed_spec (chars s)) as (pre & post & _ & _ & _ & Htight).
  apply trimmed_tight, Htight.
Qed.

Lemma forallb_white_tight_nil (l : list ascii) :
  forallb is_white_space l = true -> tight l -> l = [].
Proof.
  destruct l as [|c l]; [reflexivity|]. simpl.
  intros Hall [Hhead _]. rewrite Hhead in Hall. discriminate.
Qed.

(** [!s.trim()] holds exactly of the strings made of white space only. *)
Lemma trim_empty_iff_blank (s : string) : trim s = "" <-> blank s = true.
Proof.
  split; [|apply PublishFacts.trim_blank].
  intros Hempty. rewrite blank_chars.
  destruct (trimmed_spec (chars s)) as (pre & post & Hl & Hpre & Hpost & _).
  rewrite <- chars_trim, Hempty in Hl. simpl in Hl.
  rewrite Hl, forallb_app, Hpre, Hpost. reflexivity.
Qed.

Lemma split_on_nonempty (sep : ascii) (cur s : string) :
  split_on sep cur s <> [].
Proof.
  revert cur. induction s as [|c s IH]; intros cur; simpl; [discriminate|].
  destruct (Ascii.eqb c sep); [discriminate|apply IH].
Qed.

Lemma append_assoc (s1 s2 s3 : string) :
  (s1 +:+ s2) +:+ s3 = s1 +:+ (s2 +:+ s3).
Proof. apply chars_inj. rewrite !chars_app, app_assoc. reflexivity. Qed.

(** Splitting and joining with the separator gives the string back. *)
Lemma split_on_join (sep : ascii) (s : string) :
  forall cur,
    String.concat (String sep EmptyString) (split_on sep cur s) = cur +:+ s.
Proof.
  induction s as [|c s IH]; intros cur; simpl.
  - apply chars_inj. rewrite chars_app. simpl. rewrite app_nil_r. reflexivity.
  - destruct (Ascii.eqb_spec c sep) as [->|Hne].
    + specialize (IH EmptyString).
      pose proof (split_on_nonempty sep EmptyString s) as Hnil.
      destruct (split_on sep EmptyString s) as [|piece rest] eqn:Hs;
        [contradiction|].
      assert (String.concat (String sep EmptyString) (cur :: piece :: rest)
              = cur +:+ String sep EmptyString
                  +:+ String.concat (String sep EmptyString) (piece :: rest))
        as -> by reflexivity.
      rewrite IH. reflexivity.
    + rewrite IH, append_assoc. reflexivity.
Qed.

(** No piece holds the separator, and every code unit of a piece is one of
    the string that was split. *)
Lemma split_on_pieces (sep : ascii) (s : string) :
  forall cur piece,
    In piece (split_on sep cur s) ->
    forall c, In c (chars piece) ->
      In c (chars cur) \/ (In c (chars s) /\ c <> sep).
Proof.
  induction s as [|c0 s IH]; intros cur piece Hin c Hc; simpl in Hin.
  - destruct Hin as [<-|[]]. left. exact Hc.
  - destruct (Ascii.eqb_spec c0 sep) as [->|Hne].
    + destruct Hin as [<-|Hin]; [left; exact Hc|].
      destruct (IH EmptyString piece Hin c Hc) as [[]|[Hs Hsep]].
      right. split; [right; exact Hs|exact Hsep].
    + destruct (IH _ piece Hin c Hc) as [Hcur|[Hs Hsep]].
      * rewrite chars_app in Hcur. apply in_app_or in Hcur as [Hcur|Hc0].
        -- left. exact Hcur.
        -- destruct Hc0 as [<-|[]]. right. split; [left; reflexivity|exact Hne].
      * right. split; [right; exact Hs|exact Hsep].
Qed.

Lemma trim_chars_subset (s : string) (c : ascii) :
  In c (chars (trim s)) -> In c (chars s).
Proof.
  rewrite chars_trim.
  destruct (trimmed_spec (chars s)) as (pre & post & Hl & _).
  intros Hc. rewrite Hl. apply in_or_app. right. apply in_or_app. left.
  exact Hc.
Qed.

(** X8.  The tag list of [addTags]: every tag is non-empty, has no white space at
    either end, holds no comma and only code units of the input; there are
    no more tags than pieces between commas, and these pieces joined with
    commas are the input; an input of commas and white space only gives no
    tag at all. *)
Theorem tag_list_is_clean (tags : string) :
  Forall (fun tag =>
            tag <> "" /\ trim tag = tag /\ tight (chars tag) /\
            forall c, In c (chars tag) -> c <> ","%char /\ In c (chars tags))
         (tagList tags) /\
  (length (tagList tags)
   <= length (split_on ","%char EmptyString tags))%nat /\
  String.concat "," (split_on ","%char EmptyString tags) = tags /\
  ((forall c, In c (chars tags) ->
      c = ","%char \/ is_white_space c = true) ->
   tagList tags = []).
Proof.
  unfold tagList. split; [|split; [|split]].
  - apply Forall_forall. intros tag Htag.
    apply list_elem_of_In, filter_In in Htag as [Hmap Hlen].
    apply in_map_iff in Hmap as (piece & <- & Hpiece).
    split; [|split; [|split]].
    + intros Hempty. rewrite Hempty in Hlen. discriminate.
    + apply trim_idempotent.
    + rewrite chars_trim.
      destruct (trimmed_spec (chars piece)) as (_ & _ & _ & _ & _ & Htight).
      exact Htight.
    + intros c Hc. apply trim_chars_subset in Hc.
      destruct (split_on_pieces _ _ _ _ Hpiece c Hc) as [[]|[Hin Hne]].
      split; assumption.
  - etransitivity; [apply List.filter_length_le|].
    rewrite length_map. reflexivity.
  - apply (split_on_join ","%char tags EmptyString).
  - intros Hall.
    assert (Forall (fun piece => trim piece = "")
              (split_on ","%char EmptyString tags)) as Hblank.
    { apply Forall_forall. intros piece Hpiece. apply list_elem_of_In in Hpiece.
      apply trim_empty_iff_blank. rewrite blank_chars.
      apply forallb_forall. intros c Hc.
      destruct (split_on_pieces _ _ _ _ Hpiece c Hc) as [[]|[Hin Hne]].
      destruct (Hall c Hin) as [Hcomma|Hws]; [contradiction|exact Hws]. }
    induction Hblank as [|piece l Hp _ IH]; [reflexivity|].
    simpl. rewrite Hp. simpl. exact IH.
Qed.

End TextFacts.

(** ** Publishing: accepted images and the attempts of [publishNote] *)

Module PublishRuns.
Import RedNoteTools Runs.

Lemma validate_each_accepts (E : env) (imagePaths : list string) :
  Forall (acceptable E) imagePaths ->
  forall validPaths,
    validate_each E imagePaths validPaths
    = Return (validPaths ++ map (resolvePath E) imagePaths).
Proof.
  induction 1 as [|imagePath rest [Hstat Hext] _ IH]; intros validPaths.
  - simpl. rewrite app_nil_r. reflexivity.
  - cbn [validate_each]. cbv zeta. rewrite Hstat. cbn [negb].
    rewrite Hext.
    assert (String.eqb (extension imagePath) "" = false) as ->.
    { destruct (String.eqb_spec (extension imagePath) "") as [Heq|]; [|reflexivity].
      rewrite Heq in Hext. discriminate. }
    cbn [negb orb]. rewrite IH, <- app_assoc. reflexivity.
Qed.

Lemma validate_each_returns (E : env) (imagePaths : list string) :
  forall validPaths checked,
    validate_each E imagePaths validPaths = Return checked ->
    Forall (acceptable E) imagePaths.
Proof.
  induction imagePaths as [|imagePath rest IH]; intros validPaths checked Hv;
    [constructor|].
  cbn [validate_each] in Hv. cbv zeta in Hv.
  destruct (fsStat E (resolvePath E imagePath)) as [[|]|] eqn:Hstat;
    cbn [negb] in Hv; try discriminate.
  destruct (String.eqb (extension imagePath) "" ||
            negb (includes allowedExtensions (extension imagePath)))
    eqn:Hext; [discriminate|].
  apply orb_false_elim in Hext as [_ Hinc]. apply negb_false_iff in Hinc.
  constructor; [split; assumption|]. eapply IH. exact Hv.
Qed.

(** X9.  [validateImagePaths] returns exactly when every path names an
    existing regular file with an allowed extension (in any letter case)
    and there are at most 18 paths, the empty list included; it then
    returns the resolved paths in the order given, and touches nothing. *)
Theorem validateImagePaths_accepts_exactly (E : env)
    (imagePaths : list string) (w : world) :
  (Forall (acceptable E) imagePaths -> (length imagePaths <= 18)%nat ->
   validateImagePaths E imagePaths w
   = (Return (map (resolvePath E) imagePaths), w)) /\
  (forall validPaths w',
     validateImagePaths E imagePaths w = (Return validPaths, w') ->
     Forall (acceptable E) imagePaths /\ (length imagePaths <= 18)%nat /\
     validPaths = map (resolvePath E) imagePaths /\ w' = w).
Proof.
  unfold validateImagePaths. split.
  - intros Hall Hlen. rewrite (validate_each_accepts E imagePaths Hall []).
    cbn [app]. rewrite length_map.
    assert ((18 <? length imagePaths)%nat = false) as ->
      by (apply Nat.ltb_ge; exact Hlen).
    reflexivity.
  - intros validPaths w' Hrun.
    destruct (validate_each E imagePaths []) as [checked|e] eqn:Hv;
      [|discriminate].
    pose proof (validate_each_returns E imagePaths [] checked Hv) as Hall.
    rewrite (validate_each_accepts E imagePaths Hall []) in Hv.
    injection Hv as <-. cbn [app] in Hrun. rewrite length_map in Hrun.
    destruct (18 <? length imagePaths)%nat eqn:Hlen; [discriminate|].
    apply Nat.ltb_ge in Hlen. injection Hrun as <- <-.
    repeat split; assumption.
Qed.

(** Two images, one with an upper-case extension. *)
Lemma validateImagePaths_accepts_exactly_witness :
  let E := MkEnv (fun _ => Return JsNull) (fun _ => 0)
             (fun p => "/home/u/" +:+ p) (fun _ => Some true) in
  validateImagePaths E ["a.png"; "pics/B.JPG"] world0
  = (Return ["/home/u/a.png"; "/home/u/pics/B.JPG"], world0).
Proof.
  intros E.
  apply (proj1 (validateImagePaths_accepts_exactly E ["a.png"; "pics/B.JPG"]
                  world0)).
  - repeat constructor.
  - simpl. lia.
Defined.

Lemma publish_attempt_run (E : env) (result : PublishResult) (w : world) :
  publish_attempt E result w
  = (match browser_outcome E (interactions w) with
     | Return _ => Return result
     | Throw e => Throw e
     end,
     MkWorld (lastRequestTime (checkRateLimit (clock w) 0 0 (limit w)))
       (contentCache w) (checkRateLimit (clock w) 0 0 (limit w))
       (S (interactions w)) (draws w)
       (trace w ++ [EvRateLimit; EvBrowser (interactions w)])).
Proof.
  unfold publish_attempt, mbind, M_bind, rate_limit, browse, mret, M_ret.
  cbn [fst snd clock contentCache limit interactions draws trace].
  rewrite <- app_assoc.
  destruct (browser_outcome E (interactions w)); reflexivity.
Qed.

Lemma admissions_app (l1 l2 : list event) :
  admissions (l1 ++ l2) = (admissions l1 + admissions l2)%nat.
Proof. unfold admissions. rewrite List.filter_app, length_app. reflexivity. Qed.

(** Every attempt of the publishing operation passes the admission check
    again. *)
Lemma publish_retry (E : env) (result : PublishResult)
    (operationName : string) (maxRetries : Z) (k : nat) :
  forall (attempt : Z) (remaining : nat) (w : world),
    fails_next E (interactions w) k ->
    (exists v, browser_outcome E (interactions w + k) = Return v) ->
    attempt + Z.of_nat k <= maxRetries ->
    (k <= remaining)%nat ->
    exists w' evs,
      retry_from E (publish_attempt E result) operationName maxRetries
        attempt (S remaining) w = (Return result, w') /\
      requestCount (limit w') = requestCount (limit w) + Z.of_nat (S k) /\
      interactions w' = (interactions w + S k)%nat /\
      trace w' = trace w ++ evs /\
      admissions evs = S k.
Proof.
  induction k as [|k IH]; intros attempt remaining w Hfail Hok Hmax Hrem.
  - destruct Hok as (v & Hv). rewrite Nat.add_0_r in Hv.
    rewrite RetryFacts.retry_from_unfold, publish_attempt_run.
    cbn [attempting interactions clock limit trace contentCache draws].
    rewrite Hv. eexists. eexists. split; [reflexivity|].
    cbn [limit interactions trace].
    rewrite RateLimitFacts.checkRateLimit_grant. cbn [requestCount].
    split; [lia|]. split; [lia|]. split.
    + rewrite <- app_assoc. reflexivity.
    + reflexivity.
  - destruct remaining as [|remaining]; [lia|].
    apply RetryRuns.fails_next_tail in Hfail as [(e & He) Hrest].
    rewrite RetryFacts.retry_from_unfold, publish_attempt_run.
    cbn [attempting interactions clock limit trace contentCache draws].
    rewrite He.
    assert ((attempt =? maxRetries) = false) as -> by (apply Z.eqb_neq; lia).
    cbv zeta.
    cbn [attempting interactions clock limit trace contentCache draws].
    match goal with
    | |- context [retry_from _ _ _ _ _ _ ?w2] =>
        destruct (IH (attempt + 1) remaining w2)
          as (w' & evs & Hrun & Hcount & Hint & Htrace & Hadm)
    end.
    + exact Hrest.
    + destruct Hok as (v & Hv). exists v. rewrite <- Hv.
      cbn [interactions]. f_equal. lia.
    + lia.
    + lia.
    + cbn [limit interactions trace] in Hcount, Hint, Htrace.
      rewrite RateLimitFacts.checkRateLimit_grant in Hcount.
      cbn [requestCount] in Hcount.
      exists w'. eexists. split; [exact Hrun|].
      split; [lia|]. split; [lia|]. split.
      * rewrite Htrace, <- !app_assoc. reflexivity.
      * rewrite !admissions_app, Hadm. reflexivity.
Qed.

(** X10.  [publishNote] with valid arguments, whose browser part fails [k]
    times (at most twice) and then goes through: the note is reported
    published with the title, content, tags and the number of images given,
    and the admission check has run once per attempt, [k + 1] times, each
    time recording a timestamp; a content operation in the same situation
    passes the admission check once. *)
Theorem publishNote_admission_per_attempt (E : env) (title content : string)
    (imagePaths : list string) (tags : string) (k : nat) (w : world) :
  blank title = false ->
  blank content = false ->
  imagePaths <> [] ->
  Forall (acceptable E) imagePaths ->
  (length imagePaths <= 18)%nat ->
  (k <= 2)%nat ->
  fails_next E (interactions w) k ->
  (exists v, browser_outcome E (interactions w + k) = Return v) ->
  let call := publishNote E title content imagePaths tags in
  fst (call w)
  = Return (MkPublishResult true "图文笔记发布成功" title content
              (length imagePaths) tags
              "https://creator.xiaohongshu.com/publish/publish") /\
  admissions (events_of call w) = S k /\
  requestCount (limit (snd (call w)))
  = requestCount (limit w) + Z.of_nat (S k) /\
  interactions (snd (call w)) = (interactions w + S k)%nat.
Proof.
  intros Htitle Hcontent Hne Hall Hlen Hk Hfail Hok call.
  destruct (publish_retry E
              (MkPublishResult true "图文笔记发布成功" title content
                 (length imagePaths) tags
                 "https://creator.xiaohongshu.com/publish/publish")
              "publishNote" 3 k 1 2 w Hfail Hok ltac:(lia) Hk)
    as (w' & evs & Hrun & Hcount & Hint & Htrace & Hadm).
  assert (call w
          = (Return (MkPublishResult true "图文笔记发布成功" title content
                       (length imagePaths) tags
                       "https://creator.xiaohongshu.com/publish/publish"),
             w')) as Hcall.
  { unfold call, publishNote.
    rewrite ContentFacts.logPerformance_id.
    assert (String.eqb (trim title) "" = false) as ->.
    { destruct (String.eqb_spec (trim title) "") as [Hempty|]; [|reflexivity].
      apply TextFacts.trim_empty_iff_blank in Hempty. congruence. }
    assert (String.eqb (trim content) "" = false) as ->.
    { destruct (String.eqb_spec (trim content) "") as [Hempty|];
        [|reflexivity].
      apply TextFacts.trim_empty_iff_blank in Hempty. congruence. }
    assert ((length imagePaths =? 0)%nat = false) as ->.
    { destruct imagePaths; [contradiction|reflexivity]. }
    unfold mbind at 1. unfold M_bind at 1.
    rewrite (proj1 (validateImagePaths_accepts_exactly E imagePaths w)
               Hall Hlen).
    rewrite length_map. unfold retryWithBackoff.
    change (Z.to_nat 3) with 3%nat.
    unfold publish_attempt in Hrun. exact Hrun. }
  unfold events_of. rewrite Hcall. cbn [fst snd].
  rewrite Htrace, drop_app_length.
  repeat split; assumption.
Qed.

(** A note with one image; the creator platform fails once. *)
Lemma publishNote_admission_per_attempt_witness :
  let once := fun n : nat =>
    if (n =? 0)%nat then Throw (Error "Failed to access creator platform")
    else Return JsNull in
  let E := MkEnv once (fun _ => 500) (fun p => p) (fun _ => Some true) in
  let call := publishNote E "hello" "first note" ["/tmp/a.png"] "life" in
  fst (call world0)
  = Return (MkPublishResult true "图文笔记发布成功" "hello" "first note" 1
              "life" "https://creator.xiaohongshu.com/publish/publish") /\
  admissions (events_of call world0) = 2%nat /\
  requestCount (limit (snd (call world0))) = 2 /\
  interactions (snd (call world0)) = 2%nat.
Proof.
  intros once E call.
  apply (publishNote_admission_per_attempt E "hello" "first note"
           ["/tmp/a.png"] "life" 1 world0).
  - reflexivity.
  - reflexivity.
  - discriminate.
  - repeat constructor.
  - simpl. lia.
  - lia.
  - intros j Hj. destruct j; [eexists; reflexivity|lia].
  - eexists. reflexivity.
Defined.

End PublishRuns.

(** ** Pacing and leases *)

Module PacingFacts.
Import RedNoteTools Pacing.

(** X11.  [smartDelay] sleeps between 15 s and 20 s at every hour of the day:
    its test for the peak hours, [hour >= 20 || hour <= 23], holds of every
    hour, so the shorter delay for the other hours is never used. *)
Theorem smartDelay_is_always_peak (hour random5000 : Z) (w : world) :
  0 <= random5000 < 5000 ->
  smartDelay hour random5000 w
  = (Return tt, Runs.later (random5000 + 15000) w) /\
  clock w + 15000 <= clock (snd (smartDelay hour random5000 w))
  < clock w + 20000.
Proof.
  intros Hr. unfold smartDelay.
  assert ((20 <=? hour) || (hour <=? 23) = true) as ->.
  { destruct (20 <=? hour) eqn:H20; [reflexivity|].
    apply Z.leb_gt in H20. apply Z.leb_le. lia. }
  unfold sleep, Runs.later. simpl. split; [reflexivity|lia].
Qed.

(** Three o'clock at night. *)
Lemma smartDelay_is_always_peak_witness :
  smartDelay 3 1234 world0 = (Return tt, Runs.later (1234 + 15000) world0) /\
  clock world0 + 15000 <= clock (snd (smartDelay 3 1234 world0))
  < clock world0 + 20000.
Proof. apply (smartDelay_is_always_peak 3 1234 world0). lia. Defined.

(** X12.  The browser lease slides: a connected browser that is acquired again
    no later than 30 minutes after each previous use is returned by every
    call, and nothing is closed or launched, however long the series of
    calls lasts; the slot ends with the browser and the time of the last
    call. *)
Theorem browser_lease_slides (E : AuthManager.env) (b : nat) (used : Z)
    (times : list (Z * Z)) :
  AuthManager.isConnected E b = true ->
  within_lease used times ->
  acquire_all E times (AuthManager.MkStatics (Some b) used)
  = (map (fun _ => (Return (Some b), [])) times,
     AuthManager.MkStatics (Some b) (default used (last_use times))).
Proof.
  intros Hconn. revert used.
  induction times as [|[now now'] rest IH]; intros used Hlease.
  - reflexivity.
  - destruct Hlease as [Hnow Hrest].
    cbn [acquire_all].
    assert (AuthManager.getBrowser E now now' (AuthManager.MkStatics (Some b) used)
            = (Return (Some b), AuthManager.MkStatics (Some b) now', [])) as ->.
    { unfold AuthManager.getBrowser, AuthManager.isBrowserValid. simpl.
      rewrite Hconn.
      assert ((AuthManager.BROWSER_TIMEOUT <? now - used) = false) as ->
        by (apply Z.ltb_ge; exact Hnow).
      reflexivity. }
    rewrite (IH now' Hrest). cbn [map]. f_equal. f_equal.
    unfold last_use. cbn [map snd].
    destruct rest as [|[n n'] rest']; [reflexivity|].
    cbn [map snd]. rewrite last_cons_cons.
    destruct (last (n' :: map snd rest')) eqn:Hl; [reflexivity|].
    apply last_None in Hl. discriminate.
Qed.

(** Three calls, 29, 58 and 87 minutes after the launch. *)
Lemma browser_lease_slides_witness :
  acquire_all (AuthManager.MkEnv (fun _ => true) (fun _ => None) (Return 2%nat))
    [(1740000, 1740001); (3480000, 3480001); (5220000, 5220001)]
    (AuthManager.MkStatics (Some 1%nat) 0)
  = (map (fun _ => (Return (Some 1%nat), []))
       [(1740000, 1740001); (3480000, 3480001); (5220000, 5220001)],
     AuthManager.MkStatics (Some 1%nat)
       (default 0 (last_use
          [(1740000, 1740001); (3480000, 3480001); (5220000, 5220001)]))).
Proof.
  apply (browser_lease_slides
           (AuthManager.MkEnv (fun _ => true) (fun _ => None) (Return 2%nat))
           1%nat 0 [(1740000, 1740001); (3480000, 3480001); (5220000, 5220001)]).
  - reflexivity.
  - vm_compute. repeat split; discriminate.
Defined.

End PacingFacts.

(** ** Share links *)

Module LinkFacts.
Import Links.
Local Open Scope N_scope.

Lemma chars_match_sound (p s rest : jsstring) :
  chars_match p s = Some rest ->
  exists u, s = u ++ rest /\ denotes (Chars p) u.
Proof.
  revert s. induction p as [|a p IH]; intros s H.
  - simpl in H. injection H as <-. exists []. split; [reflexivity|constructor].
  - destruct s as [|c s]; [discriminate|]. simpl in H.
    destruct (canonicalize a =? canonicalize c) eqn:Hc; [|discriminate].
    apply N.eqb_eq in Hc. destruct (IH s H) as (u & -> & Hu).
    exists (c :: u). split; [reflexivity|]. constructor; assumption.
Qed.

Lemma chars_match_complete (p u rest : jsstring) :
  denotes (Chars p) u -> chars_match p (u ++ rest) = Some rest.
Proof.
  simpl. induction 1 as [|a c p u Hc _ IH]; [reflexivity|].
  simpl. rewrite Hc, N.eqb_refl. exact IH.
Qed.

Lemma repeat_class_sound (class : N -> bool) (s x : jsstring)
    (k : jsstring -> option jsstring) :
  repeat_class class s k = Some x ->
  exists u rest, s = u ++ rest /\ forallb class u = true /\ k rest = Some x.
Proof.
  induction s as [|c s IH]; intros H.
  - exists [], []. auto.
  - simpl in H. destruct (class c) eqn:Hc.
    + destruct (repeat_class class s k) as [r|] eqn:Hr.
      * injection H as <-. destruct (IH eq_refl) as (u & rest & -> & Hu & Hk).
        exists (c :: u), rest. simpl. rewrite Hc. auto.
      * exists [], (c :: s). auto.
    + exists [], (c :: s). auto.
Qed.

Lemma repeat_class_complete (class : N -> bool) (u rest : jsstring)
    (k : jsstring -> option jsstring) :
  forallb class u = true -> is_Some (k rest) ->
  is_Some (repeat_class class (u ++ rest) k).
Proof.
  intros Hu Hk. induction u as [|c u IH].
  - destruct rest as [|c rest]; [exact Hk|]. simpl.
    destruct (class c); [|exact Hk].
    destruct (repeat_class class rest k); [eauto|exact Hk].
  - simpl in Hu. apply andb_prop in Hu as [Hc Hu]. simpl. rewrite Hc.
    destruct (IH Hu) as [r ->]. eauto.
Qed.

(** Greedy: a run that cannot go on is taken whole. *)
Lemma repeat_class_greedy (class : N -> bool) (u post : jsstring) :
  forallb class u = true -> ends_run class post ->
  repeat_class class (u ++ post) Some = Some post.
Proof.
  intros Hu Hpost. induction u as [|c u IH].
  - destruct post as [|c post]; [reflexivity|]. simpl in *. rewrite Hpost.
    reflexivity.
  - simpl in Hu. apply andb_prop in Hu as [Hc Hu]. simpl.
    rewrite Hc, (IH Hu). reflexivity.
Qed.

(** What the matcher finds is a text of the expression. *)
Lemma run_sound (r : regex) :
  forall (s x : jsstring) (k : jsstring -> option jsstring),
  run r s k = Some x ->
  exists u rest, s = u ++ rest /\ denotes r u /\ k rest = Some x.
Proof.
  induction r as [p|r IH|class|r1 IH1 r2 IH2]; intros s x k H.
  - cbn [run] in H. destruct (chars_match p s) as [rest|] eqn:Hm; [|discriminate].
    destruct (chars_match_sound _ _ _ Hm) as (u & -> & Hu). eauto.
  - cbn [run] in H. destruct (run r s k) as [y|] eqn:Hr.
    + injection H as <-. destruct (IH _ _ _ Hr) as (u & rest & -> & Hu & Hk).
      exists u, rest. simpl. auto.
    + exists [], s. simpl. auto.
  - cbn [run] in H. destruct s as [|c s]; [discriminate|].
    destruct (class c) eqn:Hc; [|discriminate].
    destruct (repeat_class_sound _ _ _ _ H) as (u & rest & -> & Hu & Hk).
    exists (c :: u), rest. simpl. rewrite Hc. auto.
  - cbn [run] in H.
    destruct (IH1 _ _ _ H) as (u1 & rest1 & -> & Hu1 & H2).
    destruct (IH2 _ _ _ H2) as (u2 & rest & -> & Hu2 & Hk).
    exists (u1 ++ u2), rest. rewrite <- app_assoc. simpl. eauto 8.
Qed.

(** The matcher finds a match wherever there is one. *)
Lemma run_complete (r : regex) :
  forall (u rest : jsstring) (k : jsstring -> option jsstring),
  denotes r u -> is_Some (k rest) -> is_Some (run r (u ++ rest) k).
Proof.
  induction r as [p|r IH|class|r1 IH1 r2 IH2]; intros u rest k Hu Hk.
  - cbn [run]. rewrite (chars_match_complete _ _ _ Hu). exact Hk.
  - cbn [run]. destruct Hu as [->|Hu].
    + simpl. destruct (run r rest k); [eauto|exact Hk].
    + destruct (IH _ _ _ Hu Hk) as [x ->]. eauto.
  - cbn [run]. destruct Hu as [Hne Hu].
    destruct u as [|c u]; [contradiction|].
    simpl in Hu. apply andb_prop in Hu as [Hc Hu]. simpl. rewrite Hc.
    apply repeat_class_complete; assumption.
  - cbn [run]. destruct Hu as (u1 & u2 & -> & Hu1 & Hu2).
    rewrite <- app_assoc. apply IH1; [exact Hu1|]. apply IH2; assumption.
Qed.

Lemma exec_sound (r : regex) (s t : jsstring) :
  exec r s = Some t -> part_of t s /\ denotes r t.
Proof.
  revert t. induction s as [|c s IH]; intros t H.
  - simpl in H. destruct (run r [] Some) as [rest|] eqn:Hr; [|discriminate].
    injection H as <-.
    destruct (run_sound _ _ _ _ Hr) as (u & rest' & Hs & Hu & _).
    symmetry in Hs. apply app_eq_nil in Hs as [-> _].
    split; [exists [], []; reflexivity|exact Hu].
  - cbn [exec] in H. destruct (run r (c :: s) Some) as [rest|] eqn:Hr.
    + injection H as <-.
      destruct (run_sound _ _ _ _ Hr) as (u & rest' & Hs & Hu & Hk).
      injection Hk as ->. change (S (length s)) with (length (c :: s)).
      rewrite Hs, length_app.
      replace (length u + length rest - length rest)%nat with (length u)
        by lia.
      rewrite take_app_length. split; [exists [], rest; reflexivity|exact Hu].
    + destruct (IH _ H) as [(pre & post & ->) Ht].
      split; [exists (c :: pre), post; reflexivity|exact Ht].
Qed.

Lemma exec_complete (r : regex) (s : jsstring) :
  link_in r s -> is_Some (exec r s).
Proof.
  intros (pre & u & post & -> & Hu). induction pre as [|c pre IH].
  - simpl. destruct (run_complete r u post Some Hu) as [rest Hr]; [eauto|].
    destruct (u ++ post); simpl in *; rewrite Hr; eauto.
  - simpl. destruct (run r (c :: pre ++ u ++ post) Some); [eauto|exact IH].
Qed.

Lemma exec_None (r : regex) (s : jsstring) :
  ~ link_in r s -> exec r s = None.
Proof.
  intros Hno. destruct (exec r s) as [t|] eqn:He; [|reflexivity].
  destruct (exec_sound _ _ _ He) as [(pre & post & ->) Ht].
  exfalso. apply Hno. exists pre, t, post. auto.
Qed.

Lemma chars_nonempty (a : N) (p u : jsstring) :
  denotes (Chars (a :: p)) u -> u <> [].
Proof. simpl. intros H ->. inversion H. Qed.

Lemma xhslink_nonempty (u : jsstring) : denotes xhslinkRegex u -> u <> [].
Proof.
  intros (u1 & u2 & -> & H1 & _) Hnil. apply app_eq_nil in Hnil as [-> _].
  exact (chars_nonempty _ _ _ H1 eq_refl).
Qed.

Lemma xiaohongshu_nonempty (u : jsstring) :
  denotes xiaohongshuRegex u -> u <> [].
Proof.
  intros (u1 & u2 & -> & H1 & _) Hnil. apply app_eq_nil in Hnil as [-> _].
  exact (chars_nonempty _ _ _ H1 eq_refl).
Qed.

(** X13.  [extractRedBookUrl] returns a link that stands in the text whenever
    the text has one, and the text itself only when it has none.  A short
    link of xhslink.com is preferred to a link of xiaohongshu.com wherever
    the two stand: if the text has a part of the form of the first
    expression, the result is such a part; if it has none but has a part
    of the form of the second, the result is such a part; otherwise the
    result is the text, unchanged. *)
Theorem extractRedBookUrl_finds_link (shareText : jsstring) :
  let url := extractRedBookUrl shareText in
  (link_in xhslinkRegex shareText ->
   part_of url shareText /\ denotes xhslinkRegex url) /\
  (~ link_in xhslinkRegex shareText -> link_in xiaohongshuRegex shareText ->
   part_of url shareText /\ denotes xiaohongshuRegex url) /\
  (~ link_in xhslinkRegex shareText -> ~ link_in xiaohongshuRegex shareText ->
   url = shareText).
Proof.
  cbv zeta. unfold extractRedBookUrl. split; [|split].
  - intros Hin. destruct (exec_complete _ _ Hin) as [t Ht]. rewrite Ht.
    destruct (exec_sound _ _ _ Ht) as [Hpart Hden].
    destruct t as [|c t]; [destruct (xhslink_nonempty _ Hden eq_refl)|].
    auto.
  - intros Hno Hin. rewrite (exec_None _ _ Hno).
    destruct (exec_complete _ _ Hin) as [t Ht]. rewrite Ht.
    destruct (exec_sound _ _ _ Ht) as [Hpart Hden].
    destruct t as [|c t]; [destruct (xiaohongshu_nonempty _ Hden eq_refl)|].
    auto.
  - intros Hno1 Hno2. rewrite (exec_None _ _ Hno1), (exec_None _ _ Hno2).
    reflexivity.
Qed.

Lemma canonicalize_h (c : N) :
  c <> 104 -> c <> 72 -> (canonicalize 104 =? canonicalize c) = false.
Proof.
  intros H1 H2. apply N.eqb_neq. unfold canonicalize.
  change ((97 <=? 104) && (104 <=? 122)) with true. cbv iota.
  destruct ((97 <=? c) && (c <=? 122)) eqn:Hc; [|lia].
  apply andb_prop in Hc as [Hlo _]. apply N.leb_le in Hlo. lia.
Qed.

(** No match of either expression starts in a text without an [h]. *)
Lemma exec_skips_h_free (p : jsstring) (r : regex) (pre s : jsstring) :
  h_free pre ->
  exec (Then (Chars (104 :: p)) r) (pre ++ s)
  = exec (Then (Chars (104 :: p)) r) s.
Proof.
  intros Hpre. induction Hpre as [|c pre [H1 H2] _ IH].
  - reflexivity.
  - change ((c :: pre) ++ s) with (c :: (pre ++ s)). cbn [exec run chars_match].
    rewrite (canonicalize_h c H1 H2). exact IH.
Qed.

Lemma run_chars (p s : jsstring) (k : jsstring -> option jsstring) :
  run (Chars p) (p ++ s) k = k s.
Proof.
  cbn [run]. rewrite chars_match_complete; [reflexivity|].
  simpl. induction p; constructor; auto.
Qed.

Lemma run_one_or_more (class : N -> bool) (u post : jsstring) :
  u <> [] -> forallb class u = true -> ends_run class post ->
  run (OneOrMore class) (u ++ post) Some = Some post.
Proof.
  intros Hne Hu Hpost. destruct u as [|c u]; [contradiction|].
  simpl in Hu. apply andb_prop in Hu as [Hc Hu]. simpl. rewrite Hc.
  apply repeat_class_greedy; assumption.
Qed.

Lemma exec_at_head (r : regex) (u post : jsstring) :
  run r (u ++ post) Some = Some post -> exec r (u ++ post) = Some u.
Proof.
  intros Hr.
  assert (take (length (u ++ post) - length post) (u ++ post) = u) as Ht.
  { rewrite length_app.
    replace (length u + length post - length post)%nat with (length u) by lia.
    apply take_app_length. }
  destruct (u ++ post); simpl in *; rewrite Hr, Ht; reflexivity.
Qed.

Lemma run_then_chars (p : jsstring) (r : regex) (s : jsstring)
    (k : jsstring -> option jsstring) :
  run (Then (Chars p) r) (p ++ s) k = run r s k.
Proof.
  change (run (Then (Chars p) r) (p ++ s) k)
    with (run (Chars p) (p ++ s) (fun rest => run r rest k)).
  apply run_chars.
Qed.

Lemma run_then_optional_taken (p : jsstring) (r : regex) (s x : jsstring)
    (k : jsstring -> option jsstring) :
  run r s k = Some x ->
  run (Then (Optional (Chars p)) r) (p ++ s) k = Some x.
Proof.
  intros Hr.
  change (run (Then (Optional (Chars p)) r) (p ++ s) k)
    with (match run (Chars p) (p ++ s) (fun rest => run r rest k) with
          | Some y => Some y
          | None => run r (p ++ s) k
          end).
  rewrite run_chars, Hr. reflexivity.
Qed.

Lemma run_then_optional_skipped (p : jsstring) (r : regex) (s : jsstring)
    (k : jsstring -> option jsstring) :
  chars_match p s = None ->
  run (Then (Optional (Chars p)) r) s k = run r s k.
Proof. intros Hp. cbn [run]. rewrite Hp. reflexivity. Qed.

(** The short link is matched whole, with either scheme. *)
Lemma run_xhslink (scheme path post : jsstring) :
  scheme = units "http" \/ scheme = units "https" ->
  path <> [] -> forallb path_class path = true -> ends_run path_class post ->
  run xhslinkRegex
    ((scheme ++ units "://xhslink.com/" ++ path) ++ post) Some
  = Some post.
Proof.
  intros Hscheme Hne Hpath Hpost.
  pose proof (run_one_or_more _ _ _ Hne Hpath Hpost) as Hrun.
  unfold xhslinkRegex.
  destruct Hscheme as [-> | ->].
  - rewrite <- !app_assoc, run_then_chars.
    rewrite run_then_optional_skipped by reflexivity.
    rewrite run_then_chars. exact Hrun.
  - change (units "https") with (units "http" ++ units "s").
    rewrite <- !app_assoc, run_then_chars.
    apply run_then_optional_taken. rewrite run_then_chars. exact Hrun.
Qed.

(** The link of the site is matched whole, with either scheme, with or
    without [www.]. *)
Lemma run_xiaohongshu (scheme www path post : jsstring) :
  scheme = units "http" \/ scheme = units "https" ->
  www = [] \/ www = units "www." ->
  path <> [] -> forallb url_class path = true -> ends_run url_class post ->
  run xiaohongshuRegex
    ((scheme ++ units "://" ++ www ++ units "xiaohongshu.com/" ++ path)
     ++ post) Some
  = Some post.
Proof.
  intros Hscheme Hwww Hne Hpath Hpost.
  pose proof (run_one_or_more _ _ _ Hne Hpath Hpost) as Hrun.
  assert (run (Then (Chars (units "://"))
            (Then (Optional (Chars (units "www.")))
               (Then (Chars (units "xiaohongshu.com/"))
                  (OneOrMore url_class))))
            (units "://" ++ www ++ units "xiaohongshu.com/" ++ path ++ post)
            Some = Some post) as Hrest.
  { rewrite run_then_chars. destruct Hwww as [-> | ->].
    - rewrite app_nil_l, run_then_optional_skipped by reflexivity.
      rewrite run_then_chars. exact Hrun.
    - apply run_then_optional_taken. rewrite run_then_chars. exact Hrun. }
  unfold xiaohongshuRegex.
  destruct Hscheme as [-> | ->].
  - rewrite <- !app_assoc, run_then_chars.
    rewrite run_then_optional_skipped by reflexivity. exact Hrest.
  - change (units "https") with (units "http" ++ units "s").
    rewrite <- !app_assoc, run_then_chars.
    apply run_then_optional_taken. exact Hrest.
Qed.

(** X14.  A short link is extracted whole from the text around it: when no [h]
    stands before it and its path ends at the end of the text or at a
    character that is no letter, digit or slash, the result is the link,
    from its scheme to the end of its path. *)
Theorem short_link_is_extracted (pre scheme path post : jsstring) :
  scheme = units "http" \/ scheme = units "https" ->
  h_free pre ->
  path <> [] -> forallb path_class path = true -> ends_run path_class post ->
  let link := scheme ++ units "://xhslink.com/" ++ path in
  extractRedBookUrl (pre ++ link ++ post) = link.
Proof.
  intros Hscheme Hpre Hne Hpath Hpost link.
  assert (exec xhslinkRegex (pre ++ link ++ post) = Some link) as Hexec.
  { unfold xhslinkRegex. change (units "http") with (104 :: units "ttp").
    rewrite (exec_skips_h_free _ _ _ _ Hpre).
    apply exec_at_head. apply run_xhslink; assumption. }
  unfold extractRedBookUrl. rewrite Hexec.
  destruct link as [|c l] eqn:Hl; [|reflexivity].
  exfalso. unfold link in Hl.
  destruct Hscheme as [-> | ->]; discriminate.
Qed.

(** The first text of the repository's test. *)
Lemma short_link_is_extracted_witness :
  extractRedBookUrl
    ([12304; 23567; 32418; 20070; 12305]
     ++ (units "http" ++ units "://xhslink.com/" ++ units "abc123")
     ++ 32 :: [24555; 26469; 30475; 30475])
  = units "http" ++ units "://xhslink.com/" ++ units "abc123".
Proof.
  apply (short_link_is_extracted
           [12304; 23567; 32418; 20070; 12305] (units "http")
           (units "abc123") (32 :: [24555; 26469; 30475; 30475])).
  - left. reflexivity.
  - repeat constructor; discriminate.
  - discriminate.
  - reflexivity.
  - reflexivity.
Defined.

(** X15.  A link of the site is extracted whole when the text has no short
    link: when no [h] stands before it, the result runs from its scheme
    to the end of the text or to the next white space or full-width comma,
    whatever characters stand in between. *)
Theorem site_link_is_extracted (pre scheme www path post : jsstring) :
  scheme = units "http" \/ scheme = units "https" ->
  www = [] \/ www = units "www." ->
  h_free pre ->
  path <> [] -> forallb url_class path = true -> ends_run url_class post ->
  let link := scheme ++ units "://" ++ www ++ units "xiaohongshu.com/" ++ path in
  ~ link_in xhslinkRegex (pre ++ link ++ post) ->
  extractRedBookUrl (pre ++ link ++ post) = link.
Proof.
  intros Hscheme Hwww Hpre Hne Hpath Hpost link Hno.
  assert (exec xiaohongshuRegex (pre ++ link ++ post) = Some link) as Hexec.
  { unfold xiaohongshuRegex. change (units "http") with (104 :: units "ttp").
    rewrite (exec_skips_h_free _ _ _ _ Hpre).
    apply exec_at_head. apply run_xiaohongshu; assumption. }
  unfold extractRedBookUrl. rewrite (exec_None _ _ Hno), Hexec.
  destruct link as [|c l] eqn:Hl; [|reflexivity].
  exfalso. unfold link in Hl.
  destruct Hscheme as [-> | ->]; discriminate.
Qed.

(** The second text of the repository's test. *)
Lemma site_link_is_extracted_witness :
  extractRedBookUrl
    ([20998; 20139; 32]
     ++ (units "https" ++ units "://" ++ units "www."
         ++ units "xiaohongshu.com/" ++ units "explore/123456")
     ++ 32 :: [32473; 20320])
  = units "https" ++ units "://" ++ units "www."
    ++ units "xiaohongshu.com/" ++ units "explore/123456".
Proof.
  apply (site_link_is_extracted
           [20998; 20139; 32] (units "https") (units "www.")
           (units "explore/123456") (32 :: [32473; 20320])).
  - right. reflexivity.
  - right. reflexivity.
  - repeat constructor; discriminate.
  - discriminate.
  - reflexivity.
  - reflexivity.
  - intros Hin. apply exec_complete in Hin. vm_compute in Hin.
    destruct Hin as [t Ht]. discriminate.
Defined.

(** The four expectations of the repository's test of
    [extractRedBookUrl]. *)
Lemma extractRedBookUrl_test_vectors :
  extractRedBookUrl
    ([12304; 23567; 32418; 20070; 12305]
     ++ units "http://xhslink.com/abc123 " ++ [24555; 26469; 30475; 30475])
  = units "http://xhslink.com/abc123" /\
  extractRedBookUrl
    ([20998; 20139]
     ++ units " https://www.xiaohongshu.com/explore/123456 "
     ++ [32473; 20320])
  = units "https://www.xiaohongshu.com/explore/123456" /\
  extractRedBookUrl (units "https://www.xiaohongshu.com/explore/789012")
  = units "https://www.xiaohongshu.com/explore/789012" /\
  extractRedBookUrl (units "this is just text") = units "this is just text".
Proof. vm_compute. repeat split. Qed.

End LinkFacts.

(** ** Access to the creator platform *)

Module CreatorFacts.
Import CreatorPlatformAccess.

Lemma bind_run {A B : Type} (m : P A) (f : A -> P B) (s : page) :
  (m ≫= f) s
  = match m s with
    | (Return a, s1) => f a s1
    | (Throw e, s1) => (Throw e, s1)
    end.
Proof. reflexivity. Qed.

Lemma fair_bind {A : Type} (E : env) (m : P A) (f : A -> P bool) (s : page) :
  (forall a s1, fair E (f a s1)) -> fair E ((m ≫= f) s).
Proof.
  intros Hf. rewrite bind_run. destruct (m s) as [[a|e] s1]; [apply Hf|exact I].
Qed.

Lemma fair_opt_bind {A : Type} (E : env) (m : P A) (f : A -> P (option bool))
    (s : page) :
  (forall a s1, fair_opt E (f a s1)) -> fair_opt E ((m ≫= f) s).
Proof.
  intros Hf. rewrite bind_run. destruct (m s) as [[a|e] s1]; [apply Hf|exact I].
Qed.

Lemma fair_catch (E : env) (body : P bool) (s : page) :
  fair E (body s) ->
  fair E (catch body (fun _ => mret false) s) /\
  exists b s', catch body (fun _ => mret false) s = (Return b, s').
Proof.
  unfold catch. intros Hbody.
  destruct (body s) as [[b|e] s1]; (split; [|eauto]); [exact Hbody|exact I].
Qed.

Lemma navigate_fair (E : env) (s : page) : fair E (navigateToPublishPage E s).
Proof.
  apply fair_catch. apply fair_bind. intros _ s1. apply fair_bind.
  intros _ s2. rewrite bind_run. unfold url. cbn [fst snd].
  destruct (includes (url_at E (reads s2)) "login") eqn:Hlogin; [exact I|].
  assert (off_login E (MkPage (S (reads s2)) (calls s2) (waited s2) (clicks s2)))
    as Hoff by (exists (url_at E (reads s2)); split; [reflexivity|exact Hlogin]).
  destruct (includes (url_at E (reads s2)) "publish"); exact Hoff.
Qed.

Lemma navigate_some_fair (E : env) (s : page) :
  fair_opt E ((navigateToPublishPage E ≫= fun r => mret (Some r)) s).
Proof.
  rewrite bind_run. pose proof (navigate_fair E s) as H. unfold fair in H.
  destruct (navigateToPublishPage E s) as [[[|]|e] s1]; [exact H|exact I..].
Qed.

Lemma login_then_navigate_fair (E : env) (s : page) :
  fair_opt E (login_then_navigate E s).
Proof.
  apply fair_opt_bind. intros [|] s1; [apply navigate_some_fair|exact I].
Qed.

Lemma after_click_fair (E : env) (s : page) : fair_opt E (after_click E s).
Proof.
  apply fair_opt_bind. intros _ s1. apply fair_opt_bind. intros currentUrl s2.
  destruct (includes currentUrl "creator.xiaohongshu.com");
    [apply navigate_some_fair|].
  destruct (includes currentUrl "login");
    [apply login_then_navigate_fair|apply navigate_some_fair].
Qed.

(** [return] of what a block returned, or the rest of the body. *)
Lemma fair_returned (E : env) (m : P (option bool)) (rest : P bool)
    (s : page) :
  fair_opt E (m s) -> (forall s1, fair E (rest s1)) ->
  fair E ((m ≫= fun returned : option bool =>
           match returned with
           | Some r => mret r
           | None => rest
           end) s).
Proof.
  intros Hm Hrest. rewrite bind_run. unfold fair_opt in Hm.
  destruct (m s) as [[[[|]|]|e] s1]; [exact Hm|exact I|apply Hrest|exact I].
Qed.

Lemma direct_access_again_fair (E : env) (s : page) :
  fair E (direct_access_again E s).
Proof.
  apply fair_bind. intros _ s1. apply fair_bind. intros _ s2.
  apply fair_bind. intros currentUrl s3.
  destruct (negb (includes currentUrl "login"));
    [apply navigate_fair|exact I].
Qed.

Lemma accessViaMainSite_fair (E : env) (s : page) :
  fair E (accessViaMainSite E s).
Proof.
  apply fair_catch. do 4 (apply fair_bind; intros _ ?).
  apply fair_bind. intros publishButtonClicked s5.
  apply fair_returned; [|apply direct_access_again_fair].
  destruct publishButtonClicked; [apply after_click_fair|exact I].
Qed.

Lemma attempt_fair (E : env) (s : page) :
  fair E (attemptCreatorPlatformAccess E s).
Proof.
  apply fair_catch. do 2 (apply fair_bind; intros _ ?).
  apply fair_bind. intros currentUrl s3.
  destruct (negb (includes currentUrl "login")); [apply navigate_fair|].
  apply fair_returned; [|apply accessViaMainSite_fair].
  destruct (includes currentUrl "login");
    [apply login_then_navigate_fair|exact I].
Qed.

(** X16.  [accessCreatorPlatform] never throws, whatever the page does, and it
    reports success only when the URL it read last, after opening the
    publish page, does not contain [login]. *)
Theorem access_reported_only_off_login (E : env) (s : page) :
  exists success s',
    accessCreatorPlatform E s = (Return success, s') /\
    (success = true -> off_login E s').
Proof.
  assert (fair E ((cleanAutomationTraces E;;
                   establishNormalUserSession E;;
                   attemptCreatorPlatformAccess E ≫= fun success : bool =>
                   if success then mret true else mret false) s)) as Hbody.
  { apply fair_bind. intros _ s1. apply fair_bind. intros _ s2.
    rewrite bind_run.
    pose proof (attempt_fair E s2) as H. unfold fair in H.
    destruct (attemptCreatorPlatformAccess E s2) as [[[|]|e] s3];
      [exact H|exact I..]. }
  destruct (fair_catch E _ s Hbody) as [Hfair (success & s' & Hrun)].
  exists success, s'. split; [exact Hrun|].
  intros ->. unfold accessCreatorPlatform. unfold fair in Hfair.
  rewrite Hrun in Hfair. exact Hfair.
Qed.

Section NoRejection.

Variable E : env.
Hypothesis no_rejection : forall k, rejects E k = None.

Lemma call_ok (s : page) :
  call E s = (Return tt, MkPage (reads s) (S (calls s)) (waited s) (clicks s)).
Proof. unfold call. rewrite no_rejection. reflexivity. Qed.

Lemma waitForTimeout_ok (ms : Z) (s : page) :
  waitForTimeout E ms s
  = (Return tt, MkPage (reads s) (S (calls s)) (waited s + ms) (clicks s)).
Proof. unfold waitForTimeout. rewrite bind_run, call_ok. reflexivity. Qed.

Lemma poll_step (remaining : nat) (attempts : Z) (s : page) :
  poll E (S remaining) attempts s
  = let s1 := MkPage (S (reads s)) (S (calls s)) (waited s + 2000) (clicks s) in
    if isLoggedIn (url_at E (reads s)) then
      (Return true,
       MkPage (reads s1) (S (calls s1)) (waited s1 + 3000) (clicks s1))
    else
      poll E remaining (attempts + 1)
        (if (attempts + 1) mod 15 =? 0
         then MkPage (reads s1) (S (calls s1)) (waited s1) (clicks s1)
         else s1).
Proof.
  cbn [poll]. rewrite bind_run, waitForTimeout_ok. rewrite bind_run.
  unfold url. cbn [reads calls waited clicks]. cbv zeta.
  destruct (isLoggedIn (url_at E (reads s))).
  - rewrite bind_run, waitForTimeout_ok. reflexivity.
  - rewrite bind_run. destruct ((attempts + 1) mod 15 =? 0).
    + unfold evaluate. rewrite call_ok. reflexivity.
    + reflexivity.
Qed.

Lemma poll_detects (i : nat) :
  forall (remaining : nat) (attempts : Z) (s : page),
  (i < remaining)%nat ->
  (forall j, (j < i)%nat -> isLoggedIn (url_at E (reads s + j)) = false) ->
  isLoggedIn (url_at E (reads s + i)) = true ->
  exists s',
    poll E remaining attempts s = (Return true, s') /\
    reads s' = (reads s + S i)%nat /\
    waited s' = waited s + 2000 * Z.of_nat (S i) + 3000 /\
    clicks s' = clicks s.
Proof.
  induction i as [|i IH]; intros remaining attempts s Hlt Hbefore Hat;
    (destruct remaining as [|remaining]; [lia|]); rewrite poll_step; cbv zeta.
  - rewrite Nat.add_0_r in Hat. rewrite Hat. eexists. split; [reflexivity|].
    cbn [reads waited clicks]. repeat split; lia.
  - pose proof (Hbefore 0%nat ltac:(lia)) as H0.
    rewrite Nat.add_0_r in H0. rewrite H0.
    match goal with |- context [poll E remaining (attempts + 1) ?s1] =>
      destruct (IH remaining (attempts + 1) s1) as (s' & Hrun & Hr & Hw & Hc)
    end.
    + lia.
    + intros j Hj. specialize (Hbefore (S j) ltac:(lia)).
      replace (reads s + S j)%nat with (S (reads s) + j)%nat in Hbefore by lia.
      destruct ((attempts + 1) mod 15 =? 0); exact Hbefore.
    + replace (reads s + S i)%nat with (S (reads s) + i)%nat in Hat by lia.
      destruct ((attempts + 1) mod 15 =? 0); exact Hat.
    + exists s'. split; [exact Hrun|].
      destruct ((attempts + 1) mod 15 =? 0); cbn [reads waited clicks] in *;
        repeat split; lia.
Qed.

Lemma poll_times_out (remaining : nat) :
  forall (attempts : Z) (s : page),
  (forall j, (j < remaining)%nat ->
     isLoggedIn (url_at E (reads s + j)) = false) ->
  exists s',
    poll E remaining attempts s = (Return false, s') /\
    reads s' = (reads s + remaining)%nat /\
    waited s' = waited s + 2000 * Z.of_nat remaining /\
    clicks s' = clicks s.
Proof.
  induction remaining as [|remaining IH]; intros attempts s Hbefore.
  - exists s. split; [reflexivity|]. repeat split; lia.
  - rewrite poll_step. cbv zeta.
    pose proof (Hbefore 0%nat ltac:(lia)) as H0.
    rewrite Nat.add_0_r in H0. rewrite H0.
    match goal with |- context [poll E remaining (attempts + 1) ?s1] =>
      destruct (IH (attempts + 1) s1) as (s' & Hrun & Hr & Hw & Hc)
    end.
    + intros j Hj. specialize (Hbefore (S j) ltac:(lia)).
      replace (reads s + S j)%nat with (S (reads s) + j)%nat in Hbefore by lia.
      destruct ((attempts + 1) mod 15 =? 0); exact Hbefore.
    + exists s'. split; [exact Hrun|].
      destruct ((attempts + 1) mod 15 =? 0); cbn [reads waited clicks] in *;
        repeat split; lia.
Qed.

Lemma navigate_ok (s : page) :
  includes (url_at E (reads s)) "login" = false ->
  navigateToPublishPage E s
  = (Return true,
     MkPage (S (reads s)) (S (S (calls s))) (waited s + 5000) (clicks s)).
Proof.
  intros Hurl. unfold navigateToPublishPage, catch, goto.
  rewrite bind_run, call_ok, bind_run, waitForTimeout_ok, bind_run.
  unfold url. cbn [reads calls waited clicks]. rewrite Hurl.
  destruct (includes (url_at E (reads s)) "publish"); reflexivity.
Qed.

Lemma cleanAutomationTraces_ok (s : page) :
  cleanAutomationTraces E s
  = (Return tt,
     MkPage (reads s) (calls s + 2) (waited s + 2000) (clicks s)).
Proof.
  unfold cleanAutomationTraces, evaluate.
  rewrite bind_run, call_ok, waitForTimeout_ok.
  cbn [reads calls waited clicks]. f_equal. f_equal; lia.
Qed.

Lemma establishNormalUserSession_ok (s : page) :
  establishNormalUserSession E s
  = (Return tt,
     MkPage (reads s) (calls s + 6) (waited s + 8000) (clicks s)).
Proof.
  unfold establishNormalUserSession, simulateHumanBehavior, evaluate, goto.
  repeat (first [rewrite bind_run|rewrite call_ok|rewrite waitForTimeout_ok];
          cbv beta iota).
  cbn [reads calls waited clicks]. f_equal. f_equal; lia.
Qed.

End NoRejection.

(** X17.  [waitForManualLogin] on a page that answers every call: it looks at
    the URL every 2 s, at most 180 times.  When the URL of poll [i + 1] is
    the first that counts as logged in, it returns [true] after
    [2 (i + 1) + 3] seconds and [i + 1] looks; when none of the 180 does,
    it returns [false] after 360 s (six minutes, not the three of the
    comment in the source). *)
Theorem manual_login_polling (E : env) (s : page) :
  (forall k, rejects E k = None) ->
  (forall i, (i < 180)%nat ->
     (forall j, (j < i)%nat -> isLoggedIn (url_at E (reads s + j)) = false) ->
     isLoggedIn (url_at E (reads s + i)) = true ->
     exists s',
       waitForManualLogin E s = (Return true, s') /\
       reads s' = (reads s + S i)%nat /\
       waited s' = waited s + 2000 * Z.of_nat (S i) + 3000) /\
  ((forall j, (j < 180)%nat ->
      isLoggedIn (url_at E (reads s + j)) = false) ->
   exists s',
     waitForManualLogin E s = (Return false, s') /\
     reads s' = (reads s + 180)%nat /\
     waited s' = waited s + 360000).
Proof.
  intros Hno. unfold waitForManualLogin, maxAttempts. split.
  - intros i Hi Hbefore Hat.
    destruct (poll_detects E Hno i 180 0 s Hi Hbefore Hat)
      as (s' & Hrun & Hr & Hw & _).
    eauto.
  - intros Hnever.
    destruct (poll_times_out E Hno 180 0 s Hnever) as (s' & Hrun & Hr & Hw & _).
    exists s'. repeat split; [exact Hrun|exact Hr|lia].
Qed.

(** The user logs in between the third and the fourth look. *)
Lemma manual_login_polling_witness :
  let E := MkEnv (fun k => if (k <? 3)%nat
                           then "https://creator.xiaohongshu.com/login"
                           else "https://creator.xiaohongshu.com/new/home")
                 (fun _ => None) (fun _ => []) in
  exists s',
    waitForManualLogin E page0 = (Return true, s') /\
    reads s' = 4%nat /\ waited s' = 11000.
Proof.
  intros E.
  destruct (manual_login_polling E page0 (fun _ => eq_refl)) as [Hfound _].
  destruct (Hfound 3%nat) as (s' & Hrun & Hr & Hw).
  - lia.
  - intros j Hj. destruct j as [|[|[|j]]]; [reflexivity..|lia].
  - reflexivity.
  - exists s'. split; [exact Hrun|]. split; [exact Hr|exact Hw].
Defined.

Lemma call_clicks (E : env) (s : page) :
  clicks (snd (call E s)) = clicks s.
Proof. unfold call. destruct (rejects E (calls s)); reflexivity. Qed.

Lemma call_cases (E : env) (s : page) :
  exists s1, clicks s1 = clicks s /\
             (call E s = (Return tt, s1) \/ exists e, call E s = (Throw e, s1)).
Proof.
  unfold call. destruct (rejects E (calls s)); eexists; (split; [|eauto]);
    reflexivity.
Qed.

Lemma click_first_clicked (E : env) (found : list button) (s : page) :
  clicked_one found s (click_first E found s).
Proof.
  revert s. induction found as [|element rest IH]; intros s; [reflexivity|].
  assert (forall s1, clicks s1 = clicks s ->
            clicked_one (element :: rest) s (click_first E rest s1)) as Hrest.
  { intros s1 Hs1. specialize (IH s1). unfold clicked_one in *.
    destruct (click_first E rest s1) as [[[|]|e] s2]; cbn [fst snd] in *;
      [|congruence..].
    destruct IH as (Hc & el & Hin & Hvis & Htext).
    split; [congruence|]. exists el. split; [right; exact Hin|auto]. }
  cbn [click_first]. rewrite bind_run.
  destruct (call_cases E s) as (s1 & Hc1 & [-> | [e ->]]); [|exact Hc1].
  destruct (isVisible element) eqn:Hvis; [|apply Hrest, Hc1].
  rewrite bind_run.
  destruct (call_cases E s1) as (s2 & Hc2 & [-> | [e ->]]);
    [|unfold clicked_one; cbn [fst snd]; congruence].
  destruct (is_publish_text (textContent element)) eqn:Htext;
    [|apply Hrest; congruence].
  rewrite bind_run.
  destruct (call_cases E s2) as (s3 & Hc3 & [-> | [e ->]]);
    [|unfold clicked_one; cbn [fst snd]; congruence].
  rewrite bind_run. unfold waitForTimeout. rewrite bind_run.
  destruct (call_cases E s3) as (s4 & Hc4 & [-> | [e ->]]);
    [|unfold clicked_one; cbn [fst snd]; congruence].
  unfold elapse. rewrite bind_run. unfold click. rewrite bind_run.
  match goal with |- context [call E ?s5] =>
    destruct (call_cases E s5) as (s6 & Hc6 & [-> | [e ->]])
  end; unfold clicked_one, count_click, mret, P_ret;
    cbn [fst snd clicks] in *; [|congruence].
  split; [congruence|]. exists element. split; [left; reflexivity|auto].
Qed.

Lemma click_any_clicked (E : env) (selectors : list string) (s : page) :
  clicked_under E selectors s (click_any E selectors s).
Proof.
  revert s. induction selectors as [|selector rest IH]; intros s;
    [reflexivity|].
  assert (forall s1, clicks s1 = clicks s ->
            clicked_under E (selector :: rest) s (click_any E rest s1))
    as Hrest.
  { intros s1 Hs1. specialize (IH s1). unfold clicked_under in *.
    destruct (click_any E rest s1) as [[[|]|e] s2]; cbn [fst snd] in *;
      [|congruence..].
    destruct IH as (Hc & sel & el & Hin & H).
    split; [congruence|]. exists sel, el. split; [right; exact Hin|exact H]. }
  cbn [click_any]. rewrite bind_run. unfold catch. rewrite bind_run.
  destruct (call_cases E s) as (s1 & Hc1 & [-> | [e ->]]);
    [|apply Hrest, Hc1].
  pose proof (click_first_clicked E (elements E selector) s1) as Hfirst.
  unfold clicked_one in Hfirst.
  destruct (click_first E (elements E selector) s1) as [[[|]|e] s2];
    cbn [fst snd] in *.
  - destruct Hfirst as (Hc & el & Hin & H). split; [cbn; congruence|].
    exists selector, el. split; [left; reflexivity|]. split; assumption.
  - apply Hrest. congruence.
  - apply Hrest. congruence.
Qed.

(** X18.  [clickPublishButton] never throws, whatever the page does.  When it
    returns [true] it has clicked exactly once, on a visible element found
    by one of its selectors whose text contains 发布 or 创作; when it
    returns [false] it has clicked nothing. *)
Theorem publish_button_clicked_once (E : env) (s : page) :
  exists clicked s',
    clickPublishButton E s = (Return clicked, s') /\
    (clicked = true ->
     clicks s' = S (clicks s) /\
     exists selector element,
       In selector publishButtonSelectors /\
       In element (elements E selector) /\
       isVisible element = true /\
       is_publish_text (textContent element) = true) /\
    (clicked = false -> clicks s' = clicks s).
Proof.
  unfold clickPublishButton, catch. rewrite bind_run.
  destruct (call_cases E s) as (s1 & Hc1 & [-> | [e ->]]).
  - pose proof (click_any_clicked E publishButtonSelectors s1) as H.
    unfold clicked_under in H.
    destruct (click_any E publishButtonSelectors s1) as [[[|]|e] s2];
      cbn [fst snd] in H.
    + exists true, s2. split; [reflexivity|]. split; [|discriminate].
      intros _. destruct H as [Hc Hex]. split; [congruence|exact Hex].
    + exists false, s2. split; [reflexivity|]. split; [discriminate|].
      intros _. congruence.
    + exists false, s2. split; [reflexivity|]. split; [discriminate|].
      intros _. congruence.
  - exists false, s1. split; [reflexivity|]. split; [discriminate|].
    intros _. exact Hc1.
Qed.

(** X19.  With a page that answers every call, [accessCreatorPlatform] reaches
    the publish page in two cases.  When the creator site opens without a
    redirect to the login page and so does the publish page, it succeeds
    after two looks at the URL and 20 s of fixed waits.  When the creator
    site redirects to the login page, the user is seen logged in at poll
    [i + 1], and the publish page then opens, it succeeds after
    [23 + 2 (i + 1)] seconds of waits. *)
Theorem access_succeeds (E : env) (s : page) :
  (forall k, rejects E k = None) ->
  (includes (url_at E (reads s)) "login" = false ->
   includes (url_at E (reads s + 1)) "login" = false ->
   exists s',
     accessCreatorPlatform E s = (Return true, s') /\
     reads s' = (reads s + 2)%nat /\ waited s' = waited s + 20000) /\
  (forall i, (i < 180)%nat ->
     includes (url_at E (reads s)) "login" = true ->
     (forall j, (j < i)%nat ->
        isLoggedIn (url_at E (reads s + 1 + j)) = false) ->
     isLoggedIn (url_at E (reads s + 1 + i)) = true ->
     includes (url_at E (reads s + 2 + i)) "login" = false ->
     exists s',
       accessCreatorPlatform E s = (Return true, s') /\
       reads s' = (reads s + 3 + i)%nat /\
       waited s' = waited s + 23000 + 2000 * Z.of_nat (S i)).
Proof.
  intros Hno.
  assert (forall (rest : unit -> P bool) r,
            (exists s', rest tt (MkPage (reads s) (calls s + 8)
                                   (waited s + 10000) (clicks s))
                        = (Return true, s') /\ r s') ->
            exists s',
              catch (cleanAutomationTraces E;;
                     establishNormalUserSession E;;
                     rest tt ≫= fun success : bool =>
                     if success then mret true else mret false)
                    (fun _ => mret false) s = (Return true, s') /\ r s')
    as Hprepared.
  { intros rest r (s' & Hrest & Hr). exists s'. split; [|exact Hr].
    unfold catch.
    rewrite bind_run, (cleanAutomationTraces_ok E Hno).
    rewrite bind_run, (establishNormalUserSession_ok E Hno).
    cbn [reads calls waited clicks]. rewrite bind_run.
    replace (calls s + 2 + 6)%nat with (calls s + 8)%nat by lia.
    replace (waited s + 2000 + 8000) with (waited s + 10000) by lia.
    rewrite Hrest. reflexivity. }
  split.
  - intros Hfirst Hsecond.
    apply (Hprepared (fun _ => attemptCreatorPlatformAccess E)
             (fun s' => reads s' = (reads s + 2)%nat /\
                        waited s' = waited s + 20000)).
    unfold attemptCreatorPlatformAccess, catch, goto.
    rewrite bind_run, (call_ok E Hno), bind_run, (waitForTimeout_ok E Hno).
    rewrite bind_run. unfold url. cbn [reads calls waited clicks].
    rewrite Hfirst. cbn [negb]. rewrite (navigate_ok E Hno).
    + eexists. split; [reflexivity|]. cbn [reads waited]. split; lia.
    + cbn [reads]. replace (S (reads s)) with (reads s + 1)%nat by lia.
      exact Hsecond.
  - intros i Hi Hfirst Hbefore Hat Hlast.
    apply (Hprepared (fun _ => attemptCreatorPlatformAccess E)
             (fun s' => reads s' = (reads s + 3 + i)%nat /\
                        waited s' = waited s + 23000 + 2000 * Z.of_nat (S i))).
    unfold attemptCreatorPlatformAccess, catch, goto.
    rewrite bind_run, (call_ok E Hno), bind_run, (waitForTimeout_ok E Hno).
    rewrite bind_run. unfold url. cbn [reads calls waited clicks].
    rewrite Hfirst. cbn [negb]. rewrite bind_run.
    unfold login_then_navigate, waitForManualLogin, maxAttempts.
    rewrite bind_run.
    match goal with |- context [poll E 180 0 ?s1] =>
      destruct (poll_detects E Hno i 180 0 s1 Hi) as (s2 & Hrun & Hr & Hw & Hc)
    end.
    + intros j Hj. cbn [reads].
      replace (S (reads s) + j)%nat with (reads s + 1 + j)%nat by lia.
      apply Hbefore, Hj.
    + cbn [reads].
      replace (S (reads s) + i)%nat with (reads s + 1 + i)%nat by lia.
      exact Hat.
    + rewrite Hrun, bind_run, (navigate_ok E Hno).
      * eexists. split; [reflexivity|]. cbn [reads waited] in *. split; lia.
      * rewrite Hr. cbn [reads].
        replace (S (reads s) + S i)%nat with (reads s + 2 + i)%nat by lia.
        exact Hlast.
Qed.

(** The session is logged in from the start. *)
Lemma access_succeeds_witness :
  let E := MkEnv (fun _ => "https://creator.xiaohongshu.com/publish/publish")
                 (fun _ => None) (fun _ => []) in
  exists s',
    accessCreatorPlatform E page0 = (Return true, s') /\
    reads s' = 2%nat /\ waited s' = 20000.
Proof.
  intros E.
  destruct (access_succeeds E page0 (fun _ => eq_refl)) as [Hdirect _].
  apply Hdirect; reflexivity.
Defined.

End CreatorFacts.

(** ** The browser session of the tools *)

Module SessionFacts.
Import Session.

Lemma without_no_browsers (open : list (nat * nat)) :
  without_browsers [] open = open.
Proof.
  unfold without_browsers. induction open as [|pb open IH]; [reflexivity|].
  simpl in *. congruence.
Qed.



Lemma launched_by_app (evs evs' : list AuthManager.event) :
  launched_by (evs ++ evs') = (launched_by evs + launched_by evs')%nat.
Proof. unfold launched_by. rewrite List.filter_app, length_app. reflexivity. Qed.

Lemma closed_by_launch (E : env) (evs : list AuthManager.event) :
  closed_by E (evs ++ [AuthManager.EvLaunch]) = closed_by E evs.
Proof. unfold closed_by. rewrite omap_app. apply app_nil_r. Qed.

Lemma cleanup_launches_nothing (E' : AuthManager.env)
    (st : AuthManager.statics) :
  launched_by (snd (AuthManager.cleanupBrowserInstance E' st)) = 0%nat.
Proof.
  unfold AuthManager.cleanupBrowserInstance.
  destruct (AuthManager.browserInstance st) as [b|]; [|reflexivity].
  cbn [snd]. destruct (AuthManager.close_error E' b); reflexivity.
Qed.

(** The two pieces of [getBrowser()], run without another call in
    between, do what the call does as a whole. *)
Lemma getBrowser_in_two_pieces (E : env) (now now' : Z) (s : state) :
  let '(s1, c1) := acquire_step E now now' s Entered in
  let '(s2, c2) := acquire_step E now now' s1 c1 in
  exists r, c2 = Acquired r /\ getBrowser E now now' s = (r, s2).
Proof.
  unfold getBrowser, AuthManager.getBrowser. cbn [acquire_step].
  destruct (AuthManager.isBrowserValid (browsers E s) now (statics s)).
  - cbn [acquire_step]. eexists. split; [reflexivity|].
    cbn [closed_by omap list_omap launched_by List.filter length].
    rewrite app_nil_r, Nat.add_0_r, without_no_browsers. reflexivity.
  - pose proof (cleanup_launches_nothing (browsers E s) (statics s)) as Hl.
    destruct (AuthManager.cleanupBrowserInstance (browsers E s) (statics s))
      as [statics1 evs]. cbn [snd] in Hl.
    cbn [acquire_step launches browsers AuthManager.launch].
    destruct (launch_error E (launches s)) as [e|]; eexists;
      (split; [reflexivity|]);
      rewrite closed_by_launch, launched_by_app, Hl;
      cbn [launched_by List.filter length];
      replace (launches s + (0 + 1))%nat with (S (launches s)) by lia;
      reflexivity.
Qed.

(** Two calls of [getBrowser()] that overlap on an empty slot: the second
    is entered while the first waits for its launch, finds the slot still
    empty, and launches a browser of its own.  Two browsers run, the slot
    holds the one launched last, and the other is closed by nobody. *)
Lemma overlapping_calls_launch_twice (E : env) (t1 t2 t3 t4 : Z) :
  launch_error E 0 = None -> launch_error E 1 = None ->
  let '(s1, a1) := acquire_step E t1 t1 state0 Entered in
  let '(s2, b1) := acquire_step E t2 t2 s1 Entered in
  let '(s3, a2) := acquire_step E t3 t3 s2 a1 in
  let '(s4, b2) := acquire_step E t4 t4 s3 b1 in
  a2 = Acquired (Return (Some 1%nat)) /\
  b2 = Acquired (Return (Some 2%nat)) /\
  launches s4 = 2%nat /\ closed s4 = [] /\
  statics s4 = AuthManager.MkStatics (Some 2%nat) t4.
Proof.
  intros H0 H1. cbn. rewrite H0, H1. repeat split.
Qed.



Lemma is_closed_last (c : list nat) (b : nat) :
  existsb (Nat.eqb b) (c ++ [b]) = true.
Proof.
  rewrite existsb_app. simpl. rewrite Nat.eqb_refl, orb_true_r. reflexivity.
Qed.

Lemma without_browsers_subset (bs : list nat) (open : list (nat * nat))
    (pb : nat * nat) :
  In pb (without_browsers bs open) -> In pb open.
Proof. unfold without_browsers. intros H. apply filter_In in H. tauto. Qed.

(** The end of a failed attempt: the page opened last is closed, and so
    is the browser. *)
Lemma failed_page_is_closed (bs : list nat) (open : list (nat * nat))
    (p f : nat) (pb : nat * nat) :
  In pb (without_browsers [f]
           (without_page p (without_browsers bs open ++ [(p, f)]))) ->
  In pb open.
Proof.
  intros H. apply without_browsers_subset in H.
  unfold without_page in H. apply filter_In in H as [H Hp].
  apply in_app_or in H as [H|[<-|[]]].
  - apply without_browsers_subset in H. exact H.
  - simpl in Hp. rewrite Nat.eqb_refl in Hp. discriminate.
Qed.

(** With no usable browser in the slot, a call of [initialize()] that
    finds no logged-in user launches a browser, opens a page, throws, and
    closes both; the slot keeps the browser it has just closed. *)
Lemma initialize_fails_closed (E : env) (now now' : Z) (s : state) :
  never_logged_in E -> slot_unusable s ->
  exists s',
    initialize E now now' s = (Throw (Error "Not logged in"), s') /\
    launches s' = S (launches s) /\
    browser s' = None /\ page s' = None /\
    slot_unusable s' /\
    (forall pb, In pb (pages s') -> In pb (pages s)).
Proof.
  intros Hnever Hslot.
  destruct (Hnever (launches s)) as (Hlaunch & _).
  destruct (Hnever (S (launches s))) as (_ & Hclose & _).
  destruct (Hnever (newPages s)) as (_ & _ & Hpclose & Hnew & Hprep).
  unfold slot_unusable in Hslot.
  unfold initialize, getBrowser, AuthManager.getBrowser,
    AuthManager.isBrowserValid, AuthManager.cleanupBrowserInstance.
  destruct (statics s) as [[b|] used] eqn:Hst;
    cbn [AuthManager.browserInstance AuthManager.lastUsed] in *.
  - destruct (Hnever b) as (_ & Hcloseb & _).
    cbn [browsers AuthManager.isConnected AuthManager.close_error
         AuthManager.launch].
    rewrite Hslot, Hcloseb, Hlaunch.
    rewrite orb_true_r. cbn [app closed_by omap list_omap launched_by List.filter length].
    rewrite Hcloseb. cbn [omap list_omap].
    unfold open_page. cbn [newPages]. rewrite Hnew, Hprep.
    unfold cleanup. cbn [page browser]. rewrite Hpclose, Hclose.
    eexists. split; [reflexivity|]. cbn [launches browser page statics pages
                                          closed].
    split; [lia|]. split; [reflexivity|]. split; [reflexivity|]. split.
    + unfold slot_unusable, is_closed.
      cbn [statics closed AuthManager.browserInstance].
      apply is_closed_last.
    + intros pb. apply failed_page_is_closed.
  - cbn [browsers AuthManager.launch]. rewrite Hlaunch.
    cbn [app closed_by omap list_omap launched_by List.filter length].
    unfold open_page. cbn [newPages]. rewrite Hnew, Hprep.
    unfold cleanup. cbn [page browser]. rewrite Hpclose, Hclose.
    eexists. split; [reflexivity|]. cbn [launches browser page statics pages
                                          closed].
    split; [lia|]. split; [reflexivity|]. split; [reflexivity|]. split.
    + unfold slot_unusable, is_closed.
      cbn [statics closed AuthManager.browserInstance].
      apply is_closed_last.
    + intros pb. apply failed_page_is_closed.
Qed.

(** X21.  A failed [initialize()] closes the browser it shares through the
    static slot of [AuthManager] and leaves it in the slot, so that the
    next call has to launch another: when no page shows a logged-in user,
    every call throws [Not logged in], and a series of calls (the
    attempts of a retried operation) launches as many browsers as there
    are calls, leaving no page open and no browser in the instance. *)
Theorem failed_initialize_relaunches (E : env) (times : list (Z * Z))
    (s : state) :
  never_logged_in E ->
  slot_unusable s ->
  let run := initialize_all E times s in
  fst run = map (fun _ => Throw (Error "Not logged in")) times /\
  launches (snd run) = (launches s + length times)%nat /\
  slot_unusable (snd run) /\
  (times <> [] -> browser (snd run) = None /\ page (snd run) = None) /\
  (forall pb, In pb (pages (snd run)) -> In pb (pages s)).
Proof.
  intros Hnever. revert s.
  induction times as [|[now now'] rest IH]; intros s Hslot run.
  - unfold run. cbn [initialize_all fst snd map length].
    split; [reflexivity|]. split; [lia|]. split; [exact Hslot|].
    split; [intros H; contradiction|]. intros pb H. exact H.
  - unfold run. cbn [initialize_all].
    destruct (initialize_fails_closed E now now' s Hnever Hslot)
      as (s1 & Hrun & Hl & Hb & Hp & Hslot1 & Hpages).
    rewrite Hrun. specialize (IH s1 Hslot1). cbv zeta in IH.
    destruct (initialize_all E rest s1) as [results s2] eqn:Hall.
    cbn [fst snd] in *.
    destruct IH as (Hres & Hl2 & Hslot2 & Hfields & Hpages2).
    split; [cbn [map]; rewrite Hres; reflexivity|].
    split; [cbn [length]; lia|]. split; [exact Hslot2|]. split.
    + intros _. destruct rest as [|t rest'].
      * cbn in Hall. injection Hall as <- <-. split; assumption.
      * apply Hfields. discriminate.
    + intros pb Hin. apply Hpages, Hpages2, Hin.
Qed.

(** The three attempts of an operation, on a fresh process. *)
Lemma failed_initialize_relaunches_witness :
  let E := MkEnv (fun _ => None) (fun _ => None) (fun _ => None)
                 (fun _ => None) (fun _ => Return false) in
  let run := initialize_all E [(0, 5000); (8000, 12000); (17000, 21000)]
               state0 in
  fst run = [Throw (Error "Not logged in"); Throw (Error "Not logged in");
             Throw (Error "Not logged in")] /\
  launches (snd run) = 3%nat /\
  slot_unusable (snd run) /\
  ([(0, 5000); (8000, 12000); (17000, 21000)] <> [] ->
   browser (snd run) = None /\ page (snd run) = None) /\
  (forall pb, In pb (pages (snd run)) -> In pb (pages state0)).
Proof.
  intros E.
  apply (failed_initialize_relaunches E
           [(0, 5000); (8000, 12000); (17000, 21000)] state0).
  - intros k. repeat split; reflexivity.
  - exact I.
Defined.

End SessionFacts.

(** ** Logging in *)

Module LoginFacts.
Import Login.

(** X22.  [login] makes at most three passes, 2 s apart.  When pass [j + 1] is
    the first to go through it returns after [j] waits.  When all three
    fail it throws a new error, [Login failed after maximum retries], that
    does not carry the error of any pass.  When the closing of the page or
    of the context rejects after a failed pass, that error is thrown at
    once and no further pass is made.  Without a timeout, or with a
    timeout of 0, the passes are given 10 s. *)
Theorem login_retries (E : env) (timeout : option Z) (b : nat) :
  browser E = Return (Some b) ->
  let timeoutMs := timeoutSeconds timeout * 1000 in
  (forall j, (j < 3)%nat ->
     fails_first E timeoutMs j ->
     attempt E timeoutMs j = Return tt ->
     login E timeout = (Return tt, failed_rounds j ++ [EvAttempt (j + 1)])) /\
  (fails_first E timeoutMs 3 ->
   login E timeout
   = (Throw (Error "Login failed after maximum retries"),
      failed_rounds 2 ++ [EvAttempt 3; EvTeardown 3])) /\
  (forall j e error, (j < 3)%nat ->
     fails_first E timeoutMs j ->
     attempt E timeoutMs j = Throw error ->
     teardown_error E j = Some e ->
     login E timeout
     = (Throw e, failed_rounds j ++ [EvAttempt (j + 1); EvTeardown (j + 1)])) /\
  timeoutSeconds None = 10 /\ timeoutSeconds (Some 0) = 10.
Proof.
  intros Hb timeoutMs. unfold login. rewrite Hb. fold timeoutMs.
  assert (forall j i, (i < j)%nat -> fails_first E timeoutMs j ->
            exists error, attempt E timeoutMs i = Throw error /\
                          teardown_error E i = None) as Hat.
  { intros j i Hi Hf. destruct (Hf i Hi) as [[error He] Ht]. eauto. }
  split; [|split; [|split; [|split; reflexivity]]].
  - intros j Hj Hfail Hok.
    destruct j as [|[|[|j]]]; [| | |lia]; unfold maxRetries; cbn [retry].
    + rewrite Hok. reflexivity.
    + destruct (Hat 1%nat 0%nat ltac:(lia) Hfail) as (e0 & -> & ->).
      cbn. rewrite Hok. reflexivity.
    + destruct (Hat 2%nat 0%nat ltac:(lia) Hfail) as (e0 & -> & ->).
      destruct (Hat 2%nat 1%nat ltac:(lia) Hfail) as (e1 & -> & ->).
      cbn. rewrite Hok. reflexivity.
  - intros Hfail. unfold maxRetries; cbn [retry].
    destruct (Hat 3%nat 0%nat ltac:(lia) Hfail) as (e0 & -> & ->).
    destruct (Hat 3%nat 1%nat ltac:(lia) Hfail) as (e1 & -> & ->).
    destruct (Hat 3%nat 2%nat ltac:(lia) Hfail) as (e2 & -> & ->).
    reflexivity.
  - intros j e error Hj Hfail Herr Htear.
    destruct j as [|[|[|j]]]; [| | |lia]; unfold maxRetries; cbn [retry].
    + rewrite Herr, Htear. reflexivity.
    + destruct (Hat 1%nat 0%nat ltac:(lia) Hfail) as (e0 & -> & ->).
      cbn. rewrite Herr, Htear. reflexivity.
    + destruct (Hat 2%nat 0%nat ltac:(lia) Hfail) as (e0 & -> & ->).
      destruct (Hat 2%nat 1%nat ltac:(lia) Hfail) as (e1 & -> & ->).
      cbn. rewrite Herr, Htear. reflexivity.
Qed.

(** The QR code is never scanned. *)
Lemma login_retries_witness :
  let E := MkEnv (Return (Some 1%nat))
                 (fun _ _ => Throw (MkExn "TimeoutError" "Timeout 60000ms exceeded"))
                 (fun _ => None) in
  login E None
  = (Throw (Error "Login failed after maximum retries"),
     failed_rounds 2 ++ [EvAttempt 3; EvTeardown 3]).
Proof.
  intros E.
  destruct (login_retries E None 1%nat eq_refl) as (_ & Hall & _).
  apply Hall. intros i _. split; [eexists; reflexivity|reflexivity].
Defined.

End LoginFacts.

(** ** Waiting for the publication *)

Module PublishWaitFacts.
Import PublishWait.

Lemma poll_ends (E : env) (startTime : Z) :
  timely E ->
  forall (fuel k : nat) (now : Z),
  (k + fuel = 60)%nat ->
  startTime + 1000 * Z.of_nat k <= now ->
  exists r t polls,
    poll E fuel k startTime now = Some (r, t, polls) /\
    (polls <= 60)%nat /\ now <= t /\ outcome E startTime r t polls.
Proof.
  intros Htimely. induction fuel as [|fuel IH]; intros k now Hk Hnow.
  - cbn [poll].
    assert ((now - startTime <? maxWaitTime) = false) as ->
      by (apply Z.ltb_ge; unfold maxWaitTime; lia).
    exists (Throw (Error "Publish completion timeout")), now, k.
    split; [reflexivity|]. split; [lia|]. split; [lia|].
    left. split; [reflexivity|]. unfold maxWaitTime. lia.
  - cbn [poll]. destruct (Htimely k) as [Hlag Hjit].
    destruct (now - startTime <? maxWaitTime) eqn:Htime.
    + cbv zeta.
      destruct (existsb (visible E k) successSelectors) eqn:Hsucc.
      * exists (Return tt), (now + lag E k + 2000), (S k).
        split; [reflexivity|]. split; [lia|]. split; [lia|].
        exists k. auto.
      * destruct (List.find (visible E k) errorSelectors) as [selector|]
          eqn:Herr.
        -- eexists _, _, _. split; [reflexivity|]. split; [lia|].
           split; [lia|]. right. exists k, selector. auto.
        -- destruct (present E k publishPage) eqn:Hpage; cbn [negb].
           ++ destruct (IH (S k) (now + lag E k + (1000 + jitter E k)))
                as (r & t & polls & Hrun & Hpolls & Ht & Hout); [lia|lia|].
              exists r, t, polls. split; [exact Hrun|]. split; [exact Hpolls|].
              split; [lia|exact Hout].
           ++ exists (Return tt), (now + lag E k), (S k).
              split; [reflexivity|]. split; [lia|]. split; [lia|].
              exists k. auto.
    + apply Z.ltb_ge in Htime.
      exists (Throw (Error "Publish completion timeout")), now, k.
      split; [reflexivity|]. split; [lia|]. split; [lia|].
      left. split; [reflexivity|exact Htime].
Qed.

(** X23.  [waitForPublishCompletion] comes to an end after at most 60 looks at
    the page, since an undecided look is followed by a pause of at least a
    second.  It returns only after a look that shows a success indicator,
    or neither an error indicator nor the publish page; it throws either
    [Publish completion timeout], not before 60 s have passed, or
    [Publish failed: ...] with the text of the first visible error
    indicator of a look that shows no success indicator: a success
    indicator wins over an error indicator of the same look. *)
Theorem publish_wait_ends (E : env) (now : Z) :
  timely E ->
  exists r t polls,
    waitForPublishCompletion E now = Some (r, t, polls) /\
    (polls <= 60)%nat /\ now <= t /\ outcome E now r t polls.
Proof.
  intros Htimely. unfold waitForPublishCompletion.
  apply (poll_ends E now Htimely 60 0 now); lia.
Qed.

(** The page stays on the editor and shows nothing. *)
Lemma publish_wait_ends_witness :
  let E := MkEnv (fun _ _ => false) (fun _ _ => None) (fun _ _ => true)
                 (fun _ => 40) (fun _ => 500) in
  exists r t polls,
    waitForPublishCompletion E 0 = Some (r, t, polls) /\
    (polls <= 60)%nat /\ 0 <= t /\ outcome E 0 r t polls.
Proof.
  intros E. apply (publish_wait_ends E 0). intros k. cbn. lia.
Defined.

End PublishWaitFacts.

(** ** Text read off the page *)

Module UnitsFacts.
Import Links Units.

Lemma trimStart_split (s : jsstring) :
  exists pre, s = pre ++ trimStart s /\ forallb is_space pre = true.
Proof.
  induction s as [|c s (pre & Hs & Hpre)]; simpl.
  - exists []. split; reflexivity.
  - destruct (is_space c) eqn:Hc.
    + exists (c :: pre). simpl. rewrite Hc, Hpre. split; [|reflexivity].
      f_equal. exact Hs.
    + exists []. split; reflexivity.
Qed.

Lemma trimStart_head (s : jsstring) :
  match trimStart s with [] => True | c :: _ => is_space c = false end.
Proof.
  induction s as [|c s IH]; simpl; [exact I|].
  destruct (is_space c) eqn:Hc; [exact IH|exact Hc].
Qed.

Lemma trimStart_tight (s : jsstring) :
  match s with [] => True | c :: _ => is_space c = false end ->
  trimStart s = s.
Proof. destruct s as [|c s]; simpl; [reflexivity|]. intros ->. reflexivity. Qed.

Lemma trim_tight (s : jsstring) : tight (trim s).
Proof.
  unfold trim, tight.
  pose proof (trimStart_head s) as Hhead.
  pose proof (trimStart_head (reverse (trimStart s))) as Hlast.
  destruct (trimStart_split (reverse (trimStart s))) as (q & Hr & _).
  set (m := trimStart s) in *.
  set (r' := trimStart (reverse m)) in *.
  assert (m = reverse r' ++ reverse q) as Hm.
  { rewrite <- reverse_app, <- Hr, reverse_involutive. reflexivity. }
  split.
  - destruct (reverse r') as [|c t] eqn:Hrev; [exact I|].
    rewrite Hm in Hhead. simpl in Hhead. exact Hhead.
  - rewrite last_reverse. destruct r' as [|c t]; [exact I|exact Hlast].
Qed.

Lemma trim_of_tight (s : jsstring) : tight s -> trim s = s.
Proof.
  intros [Hhead Hlast]. unfold trim.
  rewrite (trimStart_tight s Hhead).
  rewrite trimStart_tight; [apply reverse_involutive|].
  rewrite <- head_reverse in Hlast.
  destruct (reverse s) as [|c t]; [exact I|exact Hlast].
Qed.

Lemma trim_idempotent_units (s : jsstring) : trim (trim s) = trim s.
Proof. apply trim_of_tight, trim_tight. Qed.

Lemma take_digits_digits (s : jsstring) :
  forallb is_digit (take_digits s) = true.
Proof.
  induction s as [|c s IH]; simpl; [reflexivity|].
  destruct (is_digit c) eqn:Hc; simpl; [rewrite Hc; exact IH|reflexivity].
Qed.

Lemma first_digits_digits (s digits : jsstring) :
  first_digits s = Some digits -> forallb is_digit digits = true.
Proof.
  induction s as [|c s IH]; simpl; [discriminate|].
  destruct (is_digit c) eqn:Hc; [|exact IH].
  intros H. injection H as <-. simpl. rewrite Hc. apply take_digits_digits.
Qed.

Lemma parseInt_digits_from (digits : jsstring) (acc : Z) :
  forallb is_digit digits = true -> 0 <= acc ->
  0 <= fold_left (fun a c => 10 * a + (Z.of_N c - 48)) digits acc.
Proof.
  revert acc. induction digits as [|c digits IH]; intros acc Hd Hacc;
    [exact Hacc|].
  simpl in Hd. apply andb_prop in Hd as [Hc Hd]. simpl. apply IH; [exact Hd|].
  unfold is_digit in Hc. apply andb_prop in Hc as [Hlo _].
  apply N.leb_le in Hlo. lia.
Qed.

Lemma parseInt_digits_nonneg (digits : jsstring) :
  forallb is_digit digits = true -> 0 <= parseInt_digits digits.
Proof. intros Hd. apply parseInt_digits_from; [exact Hd|lia]. Qed.

Lemma keep_digits_digits (s : jsstring) :
  forallb is_digit (keep_digits s) = true.
Proof.
  unfold keep_digits. apply forallb_forall. intros c Hc.
  apply filter_In in Hc. tauto.
Qed.

Lemma keep_digits_skip (pre post : jsstring) (c : N) :
  is_digit c = false ->
  keep_digits (pre ++ c :: post) = keep_digits (pre ++ post).
Proof.
  intros Hc. unfold keep_digits. rewrite !List.filter_app. simpl. rewrite Hc.
  reflexivity.
Qed.

(** X24.  The counts of a note (likes, collects, comments) are read from the
    digits of the text alone, in their order: every other character is
    dropped before the number is parsed, wherever it stands, so that an
    abbreviated count such as [1.2万] is read as 12.  A missing element
    and a text without digits give 0, and no count is negative. *)
Theorem count_reads_digits_only (text : jsstring) :
  count (Some text) = count (Some (keep_digits text)) /\
  (forall pre c post, is_digit c = false ->
     count (Some (pre ++ c :: post)) = count (Some (pre ++ post))) /\
  (keep_digits text = [] -> count (Some text) = 0) /\
  0 <= count (Some text) /\
  count None = 0 /\
  count (Some (units "1.2" ++ [19975%N])) = 12.
Proof.
  split; [|split; [|split; [|split; [|split; reflexivity]]]].
  - unfold count, keep_digits.
    assert (List.filter is_digit (List.filter is_digit text)
            = List.filter is_digit text) as ->; [|reflexivity].
    induction text as [|c text IH]; [reflexivity|]. simpl.
    destruct (is_digit c) eqn:Hc; simpl; [rewrite Hc, IH|]; auto.
  - intros pre c post Hc. unfold count.
    rewrite (keep_digits_skip pre post c Hc). reflexivity.
  - intros Hnone. unfold count. rewrite Hnone. reflexivity.
  - unfold count. pose proof (keep_digits_digits text) as Hd.
    destruct (keep_digits text) as [|c digits]; [cbn; lia|].
    apply parseInt_digits_nonneg, Hd.
Qed.

End UnitsFacts.

(** ** The notes of a search *)

Module SearchFacts.
Import Search.

Lemma visit_length {Note : Type} (it : item Note) (notes notes1 : list Note) :
  visit it notes = Return notes1 ->
  (length notes1 <= S (length notes))%nat.
Proof.
  unfold visit. intros H.
  assert (length match extracted it with
                 | Some note => notes ++ [note]
                 | None => notes
                 end <= S (length notes))%nat as Hlen.
  { destruct (extracted it); [rewrite length_app; cbn|]; lia. }
  destruct (failure it); [destruct (recovery_failure it); [discriminate|]|];
    injection H as <-; exact Hlen.
Qed.

Lemma visit_recovers {Note : Type} (it : item Note) (notes : list Note) :
  (failure it <> None -> recovery_failure it = None) ->
  visit it notes = Return (notes ++ omap extracted [it]).
Proof.
  intros Hrec. unfold visit. cbn [omap list_omap].
  assert (match extracted it with
          | Some note => notes ++ [note]
          | None => notes
          end = notes ++ match extracted it with
                         | Some note => [note]
                         | None => []
                         end) as ->
    by (destruct (extracted it); [reflexivity|rewrite app_nil_r; reflexivity]).
  destruct (failure it) as [e|]; [|reflexivity].
  rewrite Hrec by discriminate. reflexivity.
Qed.

Lemma process_length {Note : Type} (bound : number)
    (items : list (item Note)) :
  forall i notes result,
  process i bound items notes = Return result ->
  (length result <= length notes + length (visited i bound items))%nat.
Proof.
  induction items as [|it items IH]; intros i notes result H.
  - cbn in H. injection H as <-. cbn. lia.
  - cbn [process visited] in *.
    destruct (index_below i bound); [|injection H as <-; cbn; lia].
    destruct (visit it notes) as [notes1|e] eqn:Hv; [|discriminate].
    apply visit_length in Hv. apply IH in H. cbn [length]. lia.
Qed.

Lemma process_recovers {Note : Type} (bound : number)
    (items : list (item Note)) :
  forall i notes,
  recovers (visited i bound items) ->
  process i bound items notes
  = Return (notes ++ omap extracted (visited i bound items)).
Proof.
  induction items as [|it items IH]; intros i notes Hrec.
  - cbn. rewrite app_nil_r. reflexivity.
  - cbn [process visited] in *.
    destruct (index_below i bound);
      [|cbn; rewrite app_nil_r; reflexivity].
    apply Forall_cons in Hrec as [Hit Hrest].
    rewrite (visit_recovers it notes Hit), (IH _ _ Hrest).
    rewrite <- app_assoc, <- omap_app. reflexivity.
Qed.

Lemma visited_length {Note : Type} (bound : number)
    (items : list (item Note)) (i : nat) :
  (length (visited i bound items) <= length items)%nat.
Proof.
  revert i. induction items as [|it items IH]; intros i; [reflexivity|].
  cbn [visited]. destruct (index_below i bound); cbn [length]; [|lia].
  specialize (IH (S i)). lia.
Qed.

(** The index visited last is below the bound. *)
Lemma visited_last {Note : Type} (bound : number)
    (items : list (item Note)) :
  forall i k, length (visited i bound items) = S k ->
  index_below (i + k) bound = true.
Proof.
  induction items as [|it items IH]; intros i k Hlen; [discriminate|].
  cbn [visited] in Hlen.
  destruct (index_below i bound) eqn:Hi; [|discriminate].
  cbn [length] in Hlen. injection Hlen as Hlen.
  destruct k as [|k]; [rewrite Nat.add_0_r; exact Hi|].
  replace (i + S k)%nat with (S i + k)%nat by lia. apply IH, Hlen.
Qed.

Lemma index_below_min (i length : nat) (limit : number) :
  index_below i (min_length length limit) = true ->
  index_below i limit = true.
Proof.
  destruct limit as [| | |num den]; cbn; try discriminate; [reflexivity|].
  destruct (Z.of_nat length * Z.pos den <=? num) eqn:Hmin; [|auto].
  cbn. intros Hi. apply Z.leb_le in Hmin. apply Z.ltb_lt in Hi.
  apply Z.ltb_lt. nia.
Qed.

Lemma processed_within_limit {Note : Type} (noteItems : list (item Note))
    (limit : number) :
  within_limit (length (processed noteItems limit)) limit.
Proof.
  unfold processed.
  destruct (length (visited 0 (min_length (length noteItems) limit)
                      noteItems)) as [|k] eqn:Hlen.
  - destruct limit; cbn; auto.
  - apply visited_last in Hlen. apply index_below_min in Hlen.
    destruct limit as [| | |num den]; cbn in *; try discriminate; [exact I|].
    right. apply Z.ltb_lt in Hlen. lia.
Qed.

(** X25.  The notes of a search are at most those the page lists, and
    fewer than [limit + 1]: at most [limit] for a limit that is a whole
    number, one more than its whole part for a limit with a fraction (a
    limit of 2.5 gives up to three notes); a limit of 0 or less, or one
    that is not a number, gives none.  A note whose extraction fails is
    left out without failing the search, as long as its dialog can be
    closed: the result then holds the notes of the items visited that
    gave one, in the order of the page. *)
Theorem search_returns_at_most_limit {Note : Type}
    (noteItems : list (item Note)) (limit : number) :
  (forall notes, collect noteItems limit = Return notes ->
     (length notes <= length noteItems)%nat /\
     within_limit (length notes) limit /\
     (forall n, limit = whole n -> Z.of_nat (length notes) <= Z.max 0 n)) /\
  (recovers (processed noteItems limit) ->
   collect noteItems limit
   = Return (omap extracted (processed noteItems limit))) /\
  (forall num den, limit = Ratio num den -> num <= 0 ->
     collect noteItems limit = Return []) /\
  (limit = NaN -> collect noteItems limit = Return []).
Proof.
  unfold collect, processed. split; [|split; [|split]].
  - intros notes H. apply process_length in H. cbn [length] in H.
    pose proof (visited_length (min_length (length noteItems) limit)
                  noteItems 0) as Hitems.
    pose proof (processed_within_limit noteItems limit) as Hlimit.
    unfold processed in Hlimit.
    set (v := length (visited 0 (min_length (length noteItems) limit)
                        noteItems)) in *.
    assert (within_limit (length notes) limit) as Hwithin.
    { destruct limit as [| | |num den]; cbn in *; [lia|lia|exact I|].
      destruct Hlimit as [Hv|Hv]; [left; lia|].
      destruct (length notes) as [|m] eqn:Hm; [left; reflexivity|].
      right. nia. }
    split; [lia|]. split; [exact Hwithin|].
    intros n ->. cbn in Hwithin. lia.
  - intros Hrec. rewrite (process_recovers _ _ 0 [] Hrec). reflexivity.
  - intros num den -> Hnum. destruct noteItems as [|it items]; [reflexivity|].
    cbn [process length min_length].
    destruct (Z.of_nat (S (length items)) * Z.pos den <=? num) eqn:Hmin;
      [apply Z.leb_le in Hmin; lia|].
    cbn [index_below].
    assert ((Z.of_nat 0 * Z.pos den <? num) = false) as ->
      by (apply Z.ltb_ge; lia).
    reflexivity.
  - intros ->. destruct noteItems; reflexivity.
Qed.

(** A limit of 2.5 on a page of four notes: three are returned. *)
Example search_with_fractional_limit :
  collect [MkItem (Some 1%nat) None None; MkItem (Some 2%nat) None None;
           MkItem (Some 3%nat) None None; MkItem (Some 4%nat) None None]
          (Ratio 5 2)
  = Return [1%nat; 2%nat; 3%nat].
Proof. reflexivity. Qed.

End SearchFacts.

(** ** The comments of a note *)

Module CommentFacts.
Import Links Units Comments.

Section Page.

Variable Element : Type.
Variable querySelector : Element -> string -> option Element.
Variable descendants : Element -> list Element.
Variable textContent : Element -> jsstring.

Lemma first_text_trimmed (item : Element) (selectors : list string) :
  trim (first_text Element querySelector textContent item selectors)
  = first_text Element querySelector textContent item selectors.
Proof.
  induction selectors as [|selector rest IH]; [reflexivity|].
  cbn [first_text]. destruct (querySelector item selector) as [el|]; [|exact IH].
  destruct (nonempty (trim (textContent el))); [|exact IH].
  apply UnitsFacts.trim_idempotent_units.
Qed.

Lemma name_like_trimmed (elements : list Element) :
  trim (name_like Element textContent elements)
  = name_like Element textContent elements.
Proof.
  induction elements as [|el rest IH]; [reflexivity|].
  cbn [name_like]. cbv zeta.
  destruct (nonempty (trim (textContent el)) &&
            (length (trim (textContent el)) <? 50)%nat &&
            negb (includes (trim (textContent el)) [32%N]) &&
            bool_decide (textContent el = trim (textContent el)));
    [apply UnitsFacts.trim_idempotent_units|exact IH].
Qed.

Lemma first_number_nonneg (item : Element) (selectors : list string) :
  0 <= first_number Element querySelector textContent item selectors.
Proof.
  induction selectors as [|selector rest IH]; [cbn; lia|].
  cbn [first_number].
  destruct (querySelector item selector) as [el|]; [|exact IH].
  destruct (nonempty (textContent el)); [|exact IH].
  destruct (first_digits (textContent el)) as [digits|] eqn:Hd; [|exact IH].
  apply UnitsFacts.parseInt_digits_nonneg.
  apply (UnitsFacts.first_digits_digits _ _ Hd).
Qed.

Lemma omap_length_le {A B : Type} (f : A -> option B) (l : list A) :
  (length (omap f l) <= length l)%nat.
Proof.
  induction l as [|x l IH]; [reflexivity|]. cbn [omap list_omap].
  fold (omap f l). destruct (f x); cbn [length]; lia.
Qed.

Lemma nonempty_spec (s : jsstring) : nonempty s = true <-> s <> [].
Proof. destruct s; simpl; split; congruence. Qed.

(** X26.  Every comment that [getNoteComments] extracts has an author that is
    not empty ([Unknown] stands for a missing one); its author, content
    and time carry no white space at either end, and its likes are not
    negative.  An item gives a comment exactly when an author or a
    content was found in it, so there are no more comments than items. *)
Theorem comment_records_are_meaningful (items : list Element) :
  let extract_item := extract_item Element querySelector descendants
                        textContent in
  let extract := extract Element querySelector descendants textContent in
  Forall (fun c => author c <> [] /\ trim (author c) = author c /\
                   trim (content c) = content c /\
                   trim (time c) = time c /\ 0 <= likes c)
         (extract items) /\
  (forall item,
     extract_item item = None <->
     found_author Element querySelector descendants textContent item = [] /\
     found_content Element querySelector descendants textContent item = []) /\
  (length (extract items) <= length items)%nat.
Proof.
  cbv zeta.
  assert (forall item c,
            extract_item Element querySelector descendants textContent item
            = Some c ->
            author c <> [] /\ trim (author c) = author c /\
            trim (content c) = content c /\
            trim (time c) = time c /\ 0 <= likes c) as Hone.
  { intros item c. unfold extract_item.
    set (a := found_author Element querySelector descendants textContent item).
    set (t := found_content Element querySelector descendants textContent item).
    assert (trim a = a) as Ha.
    { unfold a, found_author.
      destruct (nonempty (first_text Element querySelector textContent item
                            authorSelectors));
        [apply first_text_trimmed|apply name_like_trimmed]. }
    assert (trim t = t) as Ht.
    { unfold t, found_content. cbv zeta.
      destruct (nonempty (first_text Element querySelector textContent item
                            contentSelectors)); [apply first_text_trimmed|].
      match goal with |- context [if ?b then _ else _] => destruct b end;
        [apply UnitsFacts.trim_idempotent_units|reflexivity]. }
    destruct (nonempty a || nonempty t) eqn:Hany; [|discriminate].
    intros H. injection H as <-. cbn [author content time likes].
    split; [|split; [|split; [exact Ht|split]]].
    - destruct (nonempty a) eqn:Hna; [apply nonempty_spec, Hna|discriminate].
    - destruct (nonempty a); [exact Ha|reflexivity].
    - exact (first_text_trimmed item timeSelectors).
    - exact (first_number_nonneg item likesSelectors). }
  split; [|split].
  - unfold extract. apply Forall_forall. intros c Hc.
    apply list_elem_of_omap in Hc as (item & _ & Hitem).
    apply (Hone item c Hitem).
  - intros item. unfold extract_item.
    set (a := found_author Element querySelector descendants textContent item).
    set (t := found_content Element querySelector descendants textContent item).
    destruct a as [|ca a'], t as [|ct t']; cbn; split;
      try discriminate; try tauto; intros [H1 H2]; discriminate.
  - unfold extract. apply omap_length_le.
Qed.

End Page.

(** An item with a user name and a text, and an item with neither: the
    elements are numbered, 1 and 4 the items, 2 the name, 3 the text. *)
Example comment_extraction_example :
  extract nat
    (fun item selector =>
       match item, selector with
       | 1%nat, ".username" => Some 2%nat
       | 1%nat, ".comment-text" => Some 3%nat
       | _, _ => None
       end)
    (fun _ => [])
    (fun element =>
       match element with
       | 2%nat => units " ann "
       | 3%nat => units "nice shot"
       | _ => []
       end)
    [1%nat; 4%nat]
  = [MkComment (units "ann") (units "nice shot") 0 []].
Proof. vm_compute. reflexivity. Qed.

End CommentFacts.

(** ** Waiting for the comments *)

Module CommentWaitFacts.
Import CommentWait.

Lemma randomDelay_bounds (E : env) (min max : Z) (c : clock) :
  (forall k, 0 <= jitter E k < 1000) -> min <= max ->
  elapsed c + min * 1000 <= elapsed (randomDelay E min max c)
  <= elapsed c + max * 1000.
Proof.
  intros Hj Hmm. unfold randomDelay. cbn [elapsed].
  specialize (Hj (pauses c)). nia.
Qed.

Lemma try_selectors_bound (E : env) (remaining : list string) (c : clock) :
  punctual E ->
  Forall (fun selector => timeout_of selector = 8000) remaining ->
  elapsed c <= elapsed (snd (try_selectors E remaining c))
  <= elapsed c + 12000 * Z.of_nat (length remaining).
Proof.
  intros [Hwait Hj] Hsel. revert c.
  induction Hsel as [|selector rest Hto _ IH]; intros c; [cbn; lia|].
  cbn [try_selectors length]. specialize (Hwait selector). rewrite Hto in Hwait.
  destruct (waitForSelector E selector) as [after|after e].
  - pose proof (randomDelay_bounds E 2 4 (spend after c) Hj ltac:(lia)) as Hd.
    cbn [spend elapsed] in Hd.
    destruct (hasComments E selector) as [[|]|e]; cbn [snd];
      [lia| |];
      specialize (IH (randomDelay E 2 4 (spend after c))); lia.
  - specialize (IH (spend after c)). cbn [spend elapsed] in IH. lia.
Qed.

Lemma try_selectors_nothing (E : env) (remaining : list string) (c : clock) :
  nothing_there E ->
  Forall (fun selector => timeout_of selector = 8000) remaining ->
  try_selectors E remaining c
  = (false, spend (8000 * Z.of_nat (length remaining)) c).
Proof.
  intros Hnone Hsel. revert c.
  induction Hsel as [|selector rest Hto _ IH]; intros c.
  - cbn. unfold spend. rewrite Z.add_0_r. destruct c; reflexivity.
  - cbn [try_selectors length]. destruct (Hnone selector) as [e ->].
    rewrite IH, Hto. unfold spend. cbn [elapsed pauses]. f_equal. f_equal. lia.
Qed.

Lemma selectors_timeouts :
  Forall (fun selector => timeout_of selector = 8000) selectors.
Proof. repeat constructor. Qed.

(** X27.  [waitForCommentsWithFallback] never throws, and what it costs is
    time: with waits that end within their timeouts it returns within
    190 s, and on a page where none of its selectors ever matches (a note
    without comments) it returns only after all fourteen timeouts of 8 s
    and the last of 15 s, that is after 127 s, without a pause. *)
Theorem comment_wait_costs (E : env) (c : clock) :
  (punctual E ->
   elapsed c <= elapsed (waitForCommentsWithFallback E c)
   <= elapsed c + 190000) /\
  (nothing_there E ->
   waitForCommentsWithFallback E c = MkClock (elapsed c + 127000) (pauses c)).
Proof.
  split.
  - intros Hp. pose proof (try_selectors_bound E selectors c Hp
                              selectors_timeouts) as Hloop.
    destruct Hp as [Hwait Hj]. unfold waitForCommentsWithFallback.
    change (Z.of_nat (length selectors)) with 14 in Hloop.
    destruct (try_selectors E selectors c) as [[|] c1]; cbn [snd] in Hloop;
      [lia|].
    specialize (Hwait lastResort).
    change (timeout_of lastResort) with 15000 in Hwait.
    destruct (waitForSelector E lastResort) as [after|after e];
      [|cbn [spend elapsed]; lia].
    pose proof (randomDelay_bounds E 3 5 (spend after c1) Hj ltac:(lia)) as H1.
    cbn [spend elapsed] in H1.
    destruct (scrolled E) as [u|e]; [|lia].
    pose proof (randomDelay_bounds E 1 2
                  (randomDelay E 3 5 (spend after c1)) Hj ltac:(lia)) as H2.
    lia.
  - intros Hnone. unfold waitForCommentsWithFallback.
    rewrite (try_selectors_nothing E selectors c Hnone selectors_timeouts).
    destruct (Hnone lastResort) as [e ->].
    change (timeout_of lastResort) with 15000.
    change (Z.of_nat (length selectors)) with 14.
    unfold spend. cbn [elapsed pauses]. f_equal. lia.
Qed.

End CommentWaitFacts.
